(** * pinterest-tool: the scrape / cache / score pipeline of [src/server.js]

    A shallow embedding of the server's core: the difficulty scorer
    [computeKD], the de-duplication filter [uniquePins], the result cache,
    the orchestrator [pinterestSearch] with the extraction closure it runs
    in the page, the API key gate and the request handler of
    [GET /api/pinterest].

    JavaScript numbers are IEEE-754 binary64 values; they are modelled with
    the Standard Library's executable specification [SpecFloat] at precision
    53 and maximal exponent 1024.  Reals appear in proofs only. *)

From Stdlib Require Import ZArith List Bool Lia Arith String Ascii.
From Stdlib Require Import Decimal DecimalString DecimalZ DecimalPos.
From Stdlib Require Import Floats.SpecFloat.
From Stdlib Require Import Reals Lra.
Import ListNotations.

Local Open Scope Z_scope.

(** ** JavaScript numbers *)

Module Num.

Definition prec : Z := 53.
Definition emax : Z := 1024.

Definition number : Type := spec_float.

Definition NaN : number := S754_nan.
Definition Infinity : number := S754_infinity false.

Definition add : number -> number -> number := SFadd prec emax.
Definition mul : number -> number -> number := SFmul prec emax.
Definition div : number -> number -> number := SFdiv prec emax.

(** The Number value of a mathematical integer (ties to even). *)
Definition ofZ (z : Z) : number := binary_normalize prec emax z 0 false.
Definition ofNat (n : nat) : number := ofZ (Z.of_nat n).

(** Decimal literals: [0.6] is the double nearest to 6/10, which the
    correctly rounded quotient of the exact doubles 6 and 10 is. *)
Definition lit_0_6 : number := div (ofZ 6) (ofZ 10).
Definition lit_0_4 : number := div (ofZ 4) (ofZ 10).

(** [a < b] and [a <= b]: false as soon as one side is NaN. *)
Definition ltb (a b : number) : bool := SFltb a b.
Definition leb (a b : number) : bool := SFleb a b.

(** ToBoolean on a number: [+0], [-0] and [NaN] are falsy. *)
Definition truthy (x : number) : bool :=
  match x with
  | S754_zero _ | S754_nan => false
  | _ => true
  end.

(** [x || 0] *)
Definition orZero (x : number) : number := if truthy x then x else ofZ 0.

(** [Math.min(a, b)]: NaN if either is NaN; [-0] is below [+0]. *)
Definition min (a b : number) : number :=
  match SFcompare a b with
  | None => NaN
  | Some Lt => a
  | Some Gt => b
  | Some Eq =>
      match a with
      | S754_zero true => a
      | _ => match b with S754_zero true => b | _ => a end
      end
  end.

(** [Math.max(a, b)]: NaN if either is NaN; [+0] is above [-0]. *)
Definition max (a b : number) : number :=
  match SFcompare a b with
  | None => NaN
  | Some Gt => a
  | Some Lt => b
  | Some Eq =>
      match a with
      | S754_zero false => a
      | _ => match b with S754_zero false => b | _ => a end
      end
  end.

(** [Math.round(x)]: the integer nearest to [x], ties towards +Infinity;
    NaN, the infinities and the zeros are returned unchanged, and a
    negative [x] that rounds to zero gives [-0].  For a finite
    [x = +-m * 2^e] with [e < 0] the integer is [floor (x + 1/2)],
    computed exactly as [floor ((+-2m + 2^-e) / 2^(1-e))]. *)
Definition round (x : number) : number :=
  match x with
  | S754_finite s m e =>
      if 0 <=? e then x
      else
        let d := Z.pow 2 (- e) in
        let n := Z.div (2 * cond_Zopp s (Zpos m) + d) (2 * d) in
        if n =? 0 then S754_zero s else ofZ n
  | _ => x
  end.

End Num.

(** ** Records *)

(** One extracted pin: [{ pinId, url, image, title, saves }]. *)
Record Pin : Type := mkPin {
  pinId : string;
  url : string;
  image : string;
  title : string;
  saves : Num.number
}.

(** ** The difficulty scorer *)

(** [top.reduce((s, p) => s + (p.saves || 0), 0)] *)
Definition sumSaves (top : list Pin) : Num.number :=
  fold_left (fun s p => Num.add s (Num.orZero (saves p))) top (Num.ofZ 0).

(** [computeKD(pins, loadedCount)], lines 45-53. *)
Definition computeKD (pins : list Pin) (loadedCount : Num.number) : Num.number :=
  let top := firstn 20 pins in
  let avgSaves :=
    match List.length top with
    | O => Num.ofZ 0
    | S _ => Num.div (sumSaves top) (Num.ofNat (List.length top))
    end in
  let pop := Num.min (Num.ofZ 1) (Num.div avgSaves (Num.ofZ 500)) in
  let comp := Num.min (Num.ofZ 1) (Num.div loadedCount (Num.ofZ 1000)) in
  Num.round (Num.mul (Num.add (Num.mul Num.lit_0_6 comp) (Num.mul Num.lit_0_4 pop))
                     (Num.ofZ 100)).

(** ** Strings *)

Module Str.

(** White space and line terminators among the code units below 256:
    TAB, LF, VT, FF, CR, SP and NBSP. *)
Definition isWhite (c : ascii) : bool :=
  let n := nat_of_ascii c in
  ((9 <=? n)%nat && (n <=? 13)%nat) || (n =? 32)%nat || (n =? 160)%nat.

Definition isDigit (c : ascii) : bool :=
  let n := nat_of_ascii c in (48 <=? n)%nat && (n <=? 57)%nat.

Definition digitVal (c : ascii) : Z := Z.of_nat (nat_of_ascii c) - 48.

Fixpoint trimStart (s : string) : string :=
  match s with
  | String c r => if isWhite c then trimStart r else s
  | EmptyString => EmptyString
  end.

Fixpoint trimEnd (s : string) : string :=
  match s with
  | EmptyString => EmptyString
  | String c r =>
      match trimEnd r with
      | EmptyString => if isWhite c then EmptyString else String c EmptyString
      | r' => String c r'
      end
  end.

(** [s.trim()] *)
Definition trim (s : string) : string := trimEnd (trimStart s).

(** The value of the longest prefix of decimal digits, [None] when the
    string does not start with a digit. *)
Fixpoint digitsPrefix (s : string) (acc : option Z) : option Z :=
  match s with
  | String c r =>
      if isDigit c
      then digitsPrefix r (Some (10 * match acc with Some a => a | None => 0 end + digitVal c))
      else acc
  | EmptyString => acc
  end.

(** [parseInt(s, 10)]: skip leading white space, read an optional sign,
    then the longest run of decimal digits; NaN when there is none. *)
Definition parseInt10 (s : string) : Num.number :=
  let s1 := trimStart s in
  let '(neg, s2) :=
    match s1 with
    | String "-"%char r => (true, r)
    | String "+"%char r => (false, r)
    | _ => (false, s1)
    end in
  match digitsPrefix s2 None with
  | None => Num.NaN
  | Some n => if n =? 0 then S754_zero neg else Num.ofZ (if neg then - n else n)
  end.

(** Decimal digits of an integer, with a leading [-] when negative. *)
Definition ofInteger (z : Z) : string := NilZero.string_of_int (Z.to_int z).

Definition ofBool (b : bool) : string := if b then "true"%string else "false"%string.

Definition hexDigit (n : nat) : ascii :=
  ascii_of_nat (if (n <? 10)%nat then 48 + n else 55 + n).

Definition percent (n : nat) : string :=
  String "%"%char (String (hexDigit (n / 16)) (String (hexDigit (n mod 16)) EmptyString)).

(** Characters [encodeURIComponent] leaves alone: letters, digits and
    [- _ . ! ~ * ' ( )]. *)
Definition unreserved (c : ascii) : bool :=
  let n := nat_of_ascii c in
  ((65 <=? n) && (n <=? 90) || (97 <=? n) && (n <=? 122) || (48 <=? n) && (n <=? 57)
   || (n =? 45) || (n =? 95) || (n =? 46) || (n =? 33) || (n =? 126) || (n =? 42)
   || (n =? 39) || (n =? 40) || (n =? 41))%nat.

(** [encodeURIComponent(s)] on code units below 256: the UTF-8 bytes of
    every other character, percent-escaped. *)
Fixpoint encodeURIComponent (s : string) : string :=
  match s with
  | EmptyString => EmptyString
  | String c r =>
      let n := nat_of_ascii c in
      let rest := encodeURIComponent r in
      if unreserved c then String c rest
      else if (n <? 128)%nat then (percent n ++ rest)%string
      else (percent (192 + n / 64) ++ percent (128 + n mod 64) ++ rest)%string
  end.

End Str.

(** The integer a number stands for, when it is integral. *)
Definition integerValue (x : Num.number) : option Z :=
  match x with
  | S754_zero _ => Some 0
  | S754_finite s m e =>
      if 0 <=? e then Some (cond_Zopp s (Zpos m * 2 ^ e))
      else if (Zpos m) mod 2 ^ (- e) =? 0 then Some (cond_Zopp s (Zpos m / 2 ^ (- e)))
      else None
  | _ => None
  end.

(** ** De-duplication *)

(** [arr.findIndex(pred)]: the index of the first match, or -1. *)
Fixpoint findIndexFrom {A : Type} (pred : A -> bool) (arr : list A) (i : Z) : Z :=
  match arr with
  | [] => -1
  | x :: rest => if pred x then i else findIndexFrom pred rest (i + 1)
  end.

Definition findIndex {A : Type} (pred : A -> bool) (arr : list A) : Z :=
  findIndexFrom pred arr 0.

(** [arr.filter((p, i, arr) => keep p i arr)], the callback seeing the
    element, its index and the whole array. *)
Fixpoint filterFrom {A : Type} (keep : A -> Z -> list A -> bool)
    (arr : list A) (rest : list A) (i : Z) : list A :=
  match rest with
  | [] => []
  | p :: rest' =>
      if keep p i arr then p :: filterFrom keep arr rest' (i + 1)
      else filterFrom keep arr rest' (i + 1)
  end.

Definition filterIndexed {A : Type} (keep : A -> Z -> list A -> bool) (arr : list A) : list A :=
  filterFrom keep arr arr 0.

(** Line 128:
    [pins.filter((p, i, arr) => arr.findIndex(x => x.pinId === p.pinId) === i)] *)
Definition uniquePins (pins : list Pin) : list Pin :=
  filterIndexed
    (fun p i arr => findIndex (fun x => String.eqb (pinId x) (pinId p)) arr =? i)
    pins.

(** ** The search result *)

(** [{ query, loadedPins, keywordDifficulty, lowCompetition, sample }] *)
Record SearchResult : Type := mkResult {
  query : string;
  loadedPins : nat;
  keywordDifficulty : Num.number;
  lowCompetition : bool;
  sample : list Pin
}.

(** Lines 128-137: from the extracted pins to the result object. *)
Definition assemble (q : string) (pins : list Pin) : SearchResult :=
  let unique := uniquePins pins in
  let kd := computeKD unique (Num.ofNat (List.length unique)) in
  {| query := q;
     loadedPins := List.length unique;
     keywordDifficulty := kd;
     lowCompetition := Num.leb kd (Num.ofZ 35);
     sample := firstn 50 unique |}.

(** ** The result cache *)

(** Modelled from the spec: the cache is an instance of the npm package
    [lru-cache], which is not part of this repository.  Section 4.4 of the
    specification gives its behaviour: a capacity of 200 entries with
    least-recently-used eviction, and a time-to-live of 30 minutes measured
    from insertion; a stale entry behaves as absent and is dropped on
    [get].  Entries are kept most recently used first. *)
Module LRU.

Record Entry : Type := mkEntry {
  key : string;
  value : SearchResult;
  insertedAt : Z
}.

Definition t : Type := list Entry.

Definition max : nat := 200.
Definition ttl : Z := 1000 * 60 * 30.

Definition fresh (now : Z) (e : Entry) : bool := now - insertedAt e <=? ttl.

Definition lookup (k : string) (c : t) : option Entry :=
  find (fun e => String.eqb (key e) k) c.

Definition remove (k : string) (c : t) : t :=
  filter (fun e => negb (String.eqb (key e) k)) c.

(** [cache.has(k)] *)
Definition has (now : Z) (c : t) (k : string) : bool :=
  match lookup k c with
  | Some e => fresh now e
  | None => false
  end.

(** [cache.get(k)]: the value, or [None] for [undefined]; the entry
    becomes the most recently used one, a stale entry is deleted. *)
Definition get (now : Z) (c : t) (k : string) : option SearchResult * t :=
  match lookup k c with
  | Some e =>
      if fresh now e then (Some (value e), e :: remove k c)
      else (None, remove k c)
  | None => (None, c)
  end.

(** [cache.set(k, v)] *)
Definition set (now : Z) (c : t) (k : string) (v : SearchResult) : t :=
  firstn max (mkEntry k v now :: remove k c).

End LRU.

(** ** The browser, the host and the world *)

(** A thrown JavaScript error. *)
Record JsError : Type := mkError { message : string }.

(** The calls the server makes on Playwright. *)
Inductive action : Type :=
  | Launch                              (* chromium.launch({ headless: true }) *)
  | NewContext                          (* browser.newContext({ viewport }) *)
  | NewPage                             (* context.newPage() *)
  | Goto (target : string)              (* page.goto(url, { waitUntil: 'domcontentloaded' }) *)
  | Fill (selector text : string)       (* page.fill(selector, text) *)
  | Click (selector : string)           (* page.click(selector) *)
  | WaitForLoadState (state : string)   (* page.waitForLoadState(state) *)
  | ScrollToBottom                      (* page.evaluate(() => window.scrollTo(...)) *)
  | WaitForTimeout (ms : Z)             (* page.waitForTimeout(ms) *)
  | ExtractPins                         (* page.evaluate(<the extraction closure>) *)
  | ClosePage                           (* page.close() *)
  | CloseContext.                       (* context.close() *)

(** One call and how it ended: [None] when it resolved, the error when it
    rejected. *)
Record Event : Type := mkEvent { act : action; failure : option JsError }.

(** Everything outside the server that decides a run.  The n-th call made
    on the browser (counting from the start of the process) rejects with
    [rejects n a] when that is an error; [extracted n] is what the
    extraction closure returns in the page when called as the n-th call;
    [elapsed n] is the time that call takes; [random n] is the draw of
    [Math.floor(Math.random() * 1000)] made before it.  [formatNumber] is
    the engine's rendering (the shortest digits that read back as the
    number) of a number that is not an integer below 2^53 in magnitude. *)
Record Host : Type := mkHost {
  rejects : nat -> action -> option JsError;
  extracted : nat -> list Pin;
  elapsed : nat -> N;
  random : nat -> Z;
  PIN_EMAIL : option string;
  PIN_PASSWORD : option string;
  formatNumber : Num.number -> string
}.

(** The process state: the cache, whether the shared browser has been
    launched ([let browser]), the clock in milliseconds, and the calls made
    on the browser so far, oldest first. *)
Record World : Type := mkWorld {
  cache : LRU.t;
  browser : bool;
  clock : Z;
  trace : list Event
}.

(** [String(x)] for a number.  An integer below 2^53 in magnitude is
    printed with all its digits; beyond that the digits are the engine's. *)
Definition numberToString (h : Host) (x : Num.number) : string :=
  match x with
  | S754_nan => "NaN"%string
  | S754_infinity s => if s then "-Infinity"%string else "Infinity"%string
  | _ =>
      match integerValue x with
      | Some z => if Z.abs z <? 2 ^ 53 then Str.ofInteger z else formatNumber h x
      | None => formatNumber h x
      end
  end.

(** Line 65: [`${query}|${scrolls}|${login}`] *)
Definition cacheKey (h : Host) (q : string) (scrolls : Num.number) (login : bool) : string :=
  (q ++ "|" ++ numberToString h scrolls ++ "|" ++ Str.ofBool login)%string.

(** *** Computations: state, exceptions and divergence *)

Inductive Outcome (A : Type) : Type :=
  | Returned (a : A)
  | Thrown (e : JsError)
  | Diverged.

Arguments Returned {A} a.
Arguments Thrown {A} e.
Arguments Diverged {A}.

Definition M (A : Type) : Type := World -> Outcome A * World.

Definition ret {A : Type} (a : A) : M A := fun w => (Returned a, w).

Definition bind {A B : Type} (m : M A) (k : A -> M B) : M B :=
  fun w =>
    match m w with
    | (Returned a, w1) => k a w1
    | (Thrown e, w1) => (Thrown e, w1)
    | (Diverged, w1) => (Diverged, w1)
    end.

Declare Scope js_scope.
Delimit Scope js_scope with js.
Notation "x <- m ;; k" := (bind m (fun x => k))
  (at level 61, m at next level, right associativity) : js_scope.
Notation "m ;; k" := (bind m (fun _ => k))
  (at level 61, right associativity) : js_scope.

(** [try { body } finally { cleanup }]: the cleanup runs whether the body
    returned or threw; an error thrown by the cleanup replaces the outcome
    of the body. *)
Definition tryFinally {A : Type} (body : M A) (cleanup : M unit) : M A :=
  fun w =>
    match body w with
    | (Diverged, w1) => (Diverged, w1)
    | (r, w1) =>
        match cleanup w1 with
        | (Returned _, w2) => (r, w2)
        | (Thrown e, w2) => (Thrown e, w2)
        | (Diverged, w2) => (Diverged, w2)
        end
    end.

Section Server.

Variable h : Host.

Local Open Scope js_scope.

(** Make one call on the browser: log it with its outcome and let its
    time pass. *)
Definition call (a : action) : M nat :=
  fun w =>
    let n := List.length (trace w) in
    let w' := {| cache := cache w;
                 browser := browser w;
                 clock := clock w + Z.of_N (elapsed h n);
                 trace := trace w ++ [mkEvent a (rejects h n a)] |} in
    match rejects h n a with
    | None => (Returned n, w')
    | Some e => (Thrown e, w')
    end.

Definition perform (a : action) : M unit := call a ;; ret tt.

(** Lines 57-62: [getBrowser()] *)
Definition getBrowser : M unit :=
  fun w =>
    if browser w then (Returned tt, w)
    else
      match perform Launch w with
      | (Returned _, w1) =>
          (Returned tt,
           {| cache := cache w1; browser := true; clock := clock w1; trace := trace w1 |})
      | other => other
      end.

Definition dq : string := String "034"%char EmptyString.

Definition loginUrl : string := "https://www.pinterest.com/login/"%string.
Definition idInput : string := ("input[name=" ++ dq ++ "id" ++ dq ++ "]")%string.
Definition passwordInput : string := ("input[name=" ++ dq ++ "password" ++ dq ++ "]")%string.
Definition submitButton : string := ("button[type=" ++ dq ++ "submit" ++ dq ++ "]")%string.

(** Line 83 *)
Definition searchUrl (q : string) : string :=
  ("https://www.pinterest.com/search/pins/?q=" ++ Str.encodeURIComponent q)%string.

(** [process.env.X] is truthy when it is set and not empty. *)
Definition envSet (v : option string) : option string :=
  match v with
  | Some EmptyString | None => None
  | Some s => Some s
  end.

(** Lines 77-80:
    [await Promise.all([page.click(...), page.waitForLoadState(...)])].
    Both calls are started, the click first, and each settles after its
    own [elapsed] time.  The whole resolves once both have resolved; it
    rejects as soon as one of them rejects, with the error of that one.
    When both reject, the error is that of the call that settles first
    (on a tie the click, whose rejection is queued first); the other call
    is left pending. *)
Definition clickAndWait : M unit :=
  fun w =>
    let n := List.length (trace w) in
    let click := Click submitButton in
    let wait := WaitForLoadState "networkidle" in
    let r1 := rejects h n click in
    let r2 := rejects h (S n) wait in
    let t1 := Z.of_N (elapsed h n) in
    let t2 := Z.of_N (elapsed h (S n)) in
    let settled (t : Z) :=
      {| cache := cache w;
         browser := browser w;
         clock := clock w + t;
         trace := trace w ++ [mkEvent click r1; mkEvent wait r2] |} in
    match r1, r2 with
    | None, None => (Returned tt, settled (Z.max t1 t2))
    | Some e1, None => (Thrown e1, settled t1)
    | None, Some e2 => (Thrown e2, settled t2)
    | Some e1, Some e2 =>
        if t2 <? t1 then (Thrown e2, settled t2) else (Thrown e1, settled t1)
    end.

(** Lines 73-81 *)
Definition loginSteps (login : bool) : M unit :=
  if login then
    match envSet (PIN_EMAIL h), envSet (PIN_PASSWORD h) with
    | Some email, Some password =>
        perform (Goto loginUrl) ;;
        perform (Fill idInput email) ;;
        perform (Fill passwordInput password) ;;
        clickAndWait
    | _, _ => ret tt
    end
  else ret tt.

(** Lines 87-90: [for (let i = 0; i < scrolls; i++) { ... }].  One unit of
    fuel is spent per iteration; the loop diverges when none is left. *)
Fixpoint scrollLoop (fuel : nat) (i scrolls : Num.number) : M unit :=
  if Num.ltb i scrolls then
    match fuel with
    | O => fun w => (Diverged, w)
    | S fuel' =>
        perform ScrollToBottom ;;
        (fun w =>
           perform (WaitForTimeout
                      (1500 + (random h (List.length (trace w))) mod 1000)) w) ;;
        scrollLoop fuel' (Num.add i (Num.ofZ 1)) scrolls
    end
  else ret tt.

(** Lines 92-126: the extraction closure runs in the page. *)
Definition extractPins : M (list Pin) :=
  n <- call ExtractPins ;; ret (extracted h n).

(** Line 139 *)
Definition cacheSet (k : string) (v : SearchResult) : M unit :=
  fun w =>
    (Returned tt,
     {| cache := LRU.set (clock w) (cache w) k v;
        browser := browser w; clock := clock w; trace := trace w |}).

(** Lines 73-126: what the [try] does on the browser, up to the extracted
    pins. *)
Definition scrape (fuel : nat) (q : string) (scrolls : Num.number) (login : bool)
  : M (list Pin) :=
  loginSteps login ;;
  perform (Goto (searchUrl q)) ;;
  scrollLoop fuel (Num.ofZ 0) scrolls ;;
  extractPins.

(** Lines 72-140: the body of the [try]. *)
Definition fetchBody (fuel : nat) (q : string) (scrolls : Num.number) (login : bool)
  : M (option SearchResult) :=
  pins <- scrape fuel q scrolls login ;;
  let out := assemble q pins in
  cacheSet (cacheKey h q scrolls login) out ;;
  ret (Some out).

(** Lines 141-144: the [finally]. *)
Definition release : M unit := perform ClosePage ;; perform CloseContext.

(** Lines 68-144: the path taken when the key is not cached. *)
Definition fetch (fuel : nat) (q : string) (scrolls : Num.number) (login : bool)
  : M (option SearchResult) :=
  getBrowser ;;
  perform NewContext ;;
  perform NewPage ;;
  tryFinally (fetchBody fuel q scrolls login) release.

(** Lines 64-145: [pinterestSearch({ query, scrolls, login })]; the
    defaults [scrolls = 3] and [login = false] are filled in by
    [pinterestSearchWithDefaults].  [None] stands for [undefined]. *)
Definition pinterestSearch (fuel : nat) (q : string) (scrolls : Num.number) (login : bool)
  : M (option SearchResult) :=
  fun w =>
    let k := cacheKey h q scrolls login in
    if LRU.has (clock w) (cache w) k then
      let '(v, c) := LRU.get (clock w) (cache w) k in
      (Returned v,
       {| cache := c; browser := browser w; clock := clock w; trace := trace w |})
    else fetch fuel q scrolls login w.

Definition pinterestSearchWithDefaults (fuel : nat) (q : string)
    (scrolls : option Num.number) (login : option bool) : M (option SearchResult) :=
  pinterestSearch fuel q
    (match scrolls with Some s => s | None => Num.ofZ 3 end)
    (match login with Some l => l | None => false end).

(** *** The request handler *)

(** [req.query] of [GET /api/pinterest], every parameter already a string. *)
Record Request : Type := mkRequest {
  req_q : option string;
  req_scrolls : option string;
  req_login : option string
}.

Inductive Response : Type :=
  | Json200 (data : option SearchResult)   (* { ok: true, data } *)
  | Json400 (error : string)               (* { error } *)
  | Json500 (error : string).              (* { ok: false, error } *)

(** [a || b] on strings that may be absent. *)
Definition orString (a : option string) (b : string) : string :=
  match a with
  | Some EmptyString | None => b
  | Some s => s
  end.

(** Line 152 *)
Definition scrollsOf (req : Request) : Num.number :=
  Num.min (Num.ofZ 10)
    (Num.max (Num.ofZ 1) (Str.parseInt10 (orString (req_scrolls req) "3"))).

(** Line 153 *)
Definition loginOf (req : Request) : bool :=
  match req_login req with
  | Some s => String.eqb s "1"
  | None => false
  end.

(** Lines 147-162; [None] when the handler never answers. *)
Definition handle (fuel : nat) (req : Request) : World -> option Response * World :=
  fun w =>
    let q := Str.trim (orString (req_q req) "") in
    match q with
    | EmptyString => (Some (Json400 "Missing q"), w)
    | _ =>
        match pinterestSearch fuel q (scrollsOf req) (loginOf req) w with
        | (Returned data, w') => (Some (Json200 data), w')
        | (Thrown err, w') =>
            (Some (Json500 (orString (Some (message err)) "Internal error")), w')
        | (Diverged, w') => (None, w')
        end
    end.

End Server.

(** ** The extraction closure *)

(** Lines 92-126 run in the page.  What the document answers is taken as
    given, one record per anchor of
    [document.querySelectorAll('a[href^="/pin/"]')], in document order;
    everything the closure computes from those answers is below. *)
Module Dom.

Record Anchor : Type := mkAnchor {
  href : option string;       (* a.getAttribute('href') *)
  imgSrc : option string;     (* img?.src *)
  imgAlt : option string;     (* img?.alt *)
  titleAttr : option string;  (* titleEl?.getAttribute('title') *)
  savesText : option string   (* savesEl.textContent, when there is a savesEl *)
}.

(** *** The regular expression [/([\d.,]+)\s*saves?/i] *)

(** [[\d.,]] *)
Definition countChar (c : ascii) : bool :=
  Str.isDigit c || Ascii.eqb c "." || Ascii.eqb c ",".

(** A lower-case letter of the pattern against a character of the
    input, ignoring case. *)
Definition letter (p c : ascii) : bool :=
  Ascii.eqb c p || Ascii.eqb c (ascii_of_nat (nat_of_ascii p - 32)).

Section Backtracking.

Context {A : Type}.

(** [class*] and then [k]: the longest run first, giving characters back
    one at a time for as long as [k] fails.  [k] is given the run and
    what follows it. *)
Fixpoint star (class : ascii -> bool) (s : string)
    (k : string -> string -> option A) : option A :=
  match s with
  | String c r =>
      if class c then
        match star class r (fun run rest => k (String c run) rest) with
        | Some x => Some x
        | None => k EmptyString s
        end
      else k EmptyString s
  | EmptyString => k EmptyString s
  end.

(** [class+] and then [k] *)
Definition plus (class : ascii -> bool) (s : string)
    (k : string -> string -> option A) : option A :=
  match s with
  | String c r =>
      if class c then star class r (fun run rest => k (String c run) rest) else None
  | EmptyString => None
  end.

(** [class?] and then [k] *)
Definition optional (class : ascii -> bool) (s : string)
    (k : string -> option A) : option A :=
  match s with
  | String c r =>
      if class c then match k r with Some x => Some x | None => k s end else k s
  | EmptyString => k s
  end.

End Backtracking.

(** The letters of [lit] in a row; what follows them. *)
Fixpoint literal (lit s : string) : option string :=
  match lit with
  | EmptyString => Some s
  | String p lit' =>
      match s with
      | String c r => if letter p c then literal lit' r else None
      | EmptyString => None
      end
  end.

(** A match starting at the first character: the text of group 1. *)
Definition savesAt (s : string) : option string :=
  plus countChar s (fun group1 r1 =>
    star Str.isWhite r1 (fun _ r2 =>
      match literal "save" r2 with
      | Some r3 => optional (letter "s") r3 (fun _ => Some group1)
      | None => None
      end)).

(** [t.match(/([\d.,]+)\s*saves?/i)]: group 1 of the leftmost match. *)
Fixpoint savesMatch (t : string) : option string :=
  match savesAt t with
  | Some group1 => Some group1
  | None =>
      match t with
      | String _ r => savesMatch r
      | EmptyString => None
      end
  end.

(** [m[1].replace(/[.,]/g, '')] *)
Fixpoint removeSeparators (s : string) : string :=
  match s with
  | EmptyString => EmptyString
  | String c r =>
      if Ascii.eqb c "." || Ascii.eqb c "," then removeSeparators r
      else String c (removeSeparators r)
  end.

(** Lines 107-115: the save count read off the text of [savesEl]. *)
Definition parseSaves (t : string) : Num.number :=
  match savesMatch t with
  | Some group1 => Num.orZero (Str.parseInt10 (removeSeparators group1))
  | None => Num.ofZ 0
  end.

(** *** The record of one anchor *)

Fixpoint skip (n : nat) (s : string) : string :=
  match n, s with
  | S n', String _ r => skip n' r
  | _, _ => s
  end.

(** [s.replace(pat, '')] for a string [pat]: the first occurrence of
    [pat] is removed. *)
Fixpoint removeFirst (pat s : string) : string :=
  if String.prefix pat s then skip (String.length pat) s
  else
    match s with
    | String c r => String c (removeFirst pat r)
    | EmptyString => EmptyString
    end.

(** [s.replace(/\/$/, '')]: a slash at the very end is removed. *)
Fixpoint dropFinalSlash (s : string) : string :=
  match s with
  | EmptyString => EmptyString
  | String c r =>
      match r with
      | EmptyString => if Ascii.eqb c "/" then EmptyString else s
      | _ => String c (dropFinalSlash r)
      end
  end.

Definition origin : string := "https://www.pinterest.com".

(** Lines 117-123: [results.push({ pinId, url, image, title, saves })]. *)
Definition pinOf (hr : string) (a : Anchor) : Pin :=
  {| pinId := dropFinalSlash (removeFirst "/pin/" hr);
     url := (origin ++ hr)%string;
     image := orString (imgSrc a) "";
     title := Str.trim (orString (titleAttr a) (orString (imgAlt a) ""));
     saves := match savesText a with
              | Some t => parseSaves t
              | None => Num.ofZ 0
              end |}.

(** Lines 97-124: the [forEach], [seen] holding the hrefs met so far. *)
Fixpoint extractFrom (seen : list string) (anchors : list Anchor) : list Pin :=
  match anchors with
  | [] => []
  | a :: rest =>
      match href a with
      | None | Some EmptyString => extractFrom seen rest
      | Some hr =>
          if existsb (String.eqb hr) seen then extractFrom seen rest
          else pinOf hr a :: extractFrom (hr :: seen) rest
      end
  end.

(** Lines 92-126: the closure. *)
Definition extract (anchors : list Anchor) : list Pin := extractFrom [] anchors.

End Dom.

(** A host whose pages answer the closure's queries with [dom n] at the
    n-th call. *)
Definition pageHost (h : Host) (dom : nat -> list Dom.Anchor) : Host :=
  {| rejects := rejects h;
     extracted := fun n => Dom.extract (dom n);
     elapsed := elapsed h;
     random := random h;
     PIN_EMAIL := PIN_EMAIL h;
     PIN_PASSWORD := PIN_PASSWORD h;
     formatNumber := formatNumber h |}.

(** ** The API key gate *)

(** What a middleware does with a request. *)
Inductive Gate : Type :=
  | Next                            (* next() *)
  | Unauthorized (error : string).  (* res.status(401).json({ error }) *)

(** Lines 31-35, with [API_KEY = process.env.API_KEY || ''] of line 14;
    [x_api_key] is [req.headers['x-api-key']]. *)
Definition apiKeyGate (env_API_KEY x_api_key : option string) : Gate :=
  match orString env_API_KEY "" with
  | EmptyString => Next
  | API_KEY =>
      match x_api_key with
      | Some k => if String.eqb k API_KEY then Next else Unauthorized "Unauthorized"
      | None => Unauthorized "Unauthorized"
      end
  end.

Inductive ApiResponse : Type :=
  | Status401 (error : string)   (* sent by the gate *)
  | Limited                      (* sent by the rate limiter *)
  | Handled (r : Response).      (* sent by the handler *)

(** [GET /api/pinterest] through the middlewares mounted on [/api]: the
    gate, the rate limiter and the handler, in the order of registration.
    The limiter is [express-rate-limit]; whether it lets this request
    through is taken as given ([limited]). *)
Definition apiPinterest (h : Host) (env_API_KEY : option string) (limited : bool)
    (fuel : nat) (x_api_key : option string) (req : Request)
  : World -> option ApiResponse * World :=
  fun w =>
    match apiKeyGate env_API_KEY x_api_key with
    | Unauthorized e => (Some (Status401 e), w)
    | Next =>
        if limited then (Some Limited, w)
        else
          match handle h fuel req w with
          | (Some r, w') => (Some (Handled r), w')
          | (None, w') => (None, w')
          end
    end.

(** ** Specification-side notions *)

(** The specification's de-duplication, in its own words: walk the
    records in input order and keep a record exactly when its identifier
    has not been met before. *)
Fixpoint keepFirst (seen : list string) (records : list Pin) : list Pin :=
  match records with
  | [] => []
  | p :: rest =>
      if existsb (String.eqb (pinId p)) seen then keepFirst seen rest
      else p :: keepFirst (pinId p :: seen) rest
  end.

(** The test of line 128's [findIndex]: [x.pinId === p.pinId]. *)
Definition sameId (p : Pin) : Pin -> bool := fun x => String.eqb (pinId x) (pinId p).

(** [Subseq xs ys]: [xs] is [ys] with some elements dropped, order kept. *)
Inductive Subseq {A : Type} : list A -> list A -> Prop :=
  | Subseq_nil : Subseq [] []
  | Subseq_skip : forall x xs ys, Subseq xs ys -> Subseq xs (x :: ys)
  | Subseq_keep : forall x xs ys, Subseq xs ys -> Subseq (x :: xs) (x :: ys).

(** *** Rounding to binary64 *)

Definition roundME (m e : Z) (l : location) : Z * Z :=
  let '(mrs1, e1) := shr_fexp 53 1024 m e l in
  let '(mrs2, e2) :=
    shr_fexp 53 1024 (round_nearest_even (shr_m mrs1) (loc_of_shr_record mrs1)) e1 loc_Exact in
  (shr_m mrs2, e2).

Definition fexp64 (x : Z) : Z := Z.max (x - 53) (-1074).

Definition B2R (x : spec_float) : R :=
  match x with
  | S754_finite s m e => (IZR (cond_Zopp s (Zpos m)) * powerRZ 2 e)%R
  | _ => 0%R
  end.

Definition u64 : R := powerRZ 2 (-52).

Definition eta64 : R := powerRZ 2 (-1074).

(** *** Classes of numbers *)

(** Zero of either sign, a positive finite number, or +Infinity. *)
Definition nonNegative (x : Num.number) : Prop :=
  match x with
  | S754_zero _ | S754_finite false _ _ | S754_infinity false => True
  | _ => False
  end.

Definition notMinusZero (x : Num.number) : Prop :=
  match x with S754_zero true => False | _ => True end.

(** At most 53 bits of mantissa. *)
Definition mantissa53 (x : Num.number) : Prop :=
  match x with S754_finite _ m _ => Zpos m < 2 ^ 53 | _ => True end.

Definition finite (x : Num.number) : Prop :=
  match x with S754_zero _ | S754_finite _ _ _ => True | _ => False end.

(** A normal number, or one at the smallest exponent. *)
Definition normalized (x : Num.number) : Prop :=
  match x with S754_finite _ m e => 2 ^ 52 <= Zpos m \/ e = -1074 | _ => True end.

(** *** Logs of browser calls *)

Definition isClose (a : action) : bool :=
  match a with ClosePage | CloseContext => true | _ => false end.

Definition isScroll (a : action) : bool :=
  match a with ScrollToBottom => true | _ => false end.

(** A call that was started together with another one
    ([Promise.all]) and may still be logged after that one rejected. *)
Definition isPending (a : action) : bool :=
  match a with WaitForLoadState _ => true | _ => false end.

Definition resolved (ev : Event) : Prop := failure ev = None.

(** The calls logged before the rejected call [a] whose error is thrown:
    they all resolved, except that when [a] is the wait of [Promise.all]
    the click started together with it may have been rejected after it. *)
Definition beforeThrown (pre : list Event) (a : action) : Prop :=
  Forall resolved pre
  \/ exists pre' e1,
       pre = pre' ++ [mkEvent (Click submitButton) (Some e1)]
       /\ Forall resolved pre'
       /\ a = WaitForLoadState "networkidle".

(** The log of a computation that ended with [r]: every call resolved,
    unless the computation threw; then the error is that of a rejected
    call, the first one unless it lost the race of [Promise.all], and
    nothing follows that call but calls already pending. *)
Definition logOf {A : Type} (r : Outcome A) (evs : list Event) : Prop :=
  match r with
  | Thrown e =>
      exists pre a post,
        evs = pre ++ mkEvent a (Some e) :: post
        /\ beforeThrown pre a
        /\ Forall (fun ev => isPending (act ev) = true) post
  | _ => Forall resolved evs
  end.

(** A computation that only talks to the browser: it leaves the cache and
    the browser handle alone and makes calls among [allowed]. *)
Definition browserOnly {A : Type} (allowed : action -> Prop) (m : M A) : Prop :=
  forall w r w',
    m w = (r, w') ->
    cache w' = cache w /\ browser w' = browser w /\ clock w <= clock w'
    /\ exists evs, trace w' = trace w ++ evs
                   /\ Forall (fun ev => allowed (act ev)) evs
                   /\ logOf r evs.

(** The calls made inside the [try]. *)
Definition bodyAction (a : action) : bool :=
  match a with
  | Goto _ | Fill _ _ | Click _ | WaitForLoadState _
  | ScrollToBottom | WaitForTimeout _ | ExtractPins => true
  | _ => false
  end.

Definition inBody (a : action) : Prop := bodyAction a = true.

Definition inBodyNoScroll (a : action) : Prop :=
  bodyAction a = true /\ isScroll a = false.

Definition isAcquire (a : action) : bool :=
  match a with Launch | NewContext | NewPage => true | _ => false end.

(** The first rejected call of a log: its action, its error and the
    calls logged after it. *)
Fixpoint firstRejected (evs : list Event) : option (action * JsError * list Event) :=
  match evs with
  | [] => None
  | ev :: rest =>
      match failure ev with
      | Some e => Some (act ev, e, rest)
      | None => firstRejected rest
      end
  end.

(** The log of the [finally] block and how the block ended. *)
Definition releaseLog (r : Outcome unit) (evs : list Event) : Prop :=
  (r = Returned tt /\ evs = [mkEvent ClosePage None; mkEvent CloseContext None])
  \/ (exists e, r = Thrown e
                /\ evs = [mkEvent ClosePage None; mkEvent CloseContext (Some e)])
  \/ (exists e, r = Thrown e /\ evs = [mkEvent ClosePage (Some e)]).

(** How [try { body } finally { cleanup }] ends, from how its parts end. *)
Definition afterFinally {A : Type} (body : Outcome A) (cleanup : Outcome unit) : Outcome A :=
  match body, cleanup with
  | Diverged, _ => Diverged
  | _, Returned _ => body
  | _, Thrown e => Thrown e
  | _, Diverged => Diverged
  end.

(** A computation that always comes to an end. *)
Definition terminates {A : Type} (m : M A) : Prop :=
  forall w, fst (m w) <> Diverged.

(** The three ways a cache-miss fetch goes, in terms of its log
    [acq ++ body ++ closes]: the page is never acquired; the [try] never
    ends; or the [try] ends with [rb] and the [finally] with [rc]. *)
Definition fetchShape (q k : string) (w : World) (r : Outcome (option SearchResult))
    (w' : World) (acq body closes : list Event) : Prop :=
  (body = [] /\ closes = []
   /\ exists pre a e,
        acq = pre ++ [mkEvent a (Some e)] /\ Forall resolved pre
        /\ r = Thrown e /\ cache w' = cache w)
  \/ (Forall resolved acq /\ In (mkEvent NewPage None) acq /\ closes = []
      /\ r = Diverged /\ Forall resolved body /\ cache w' = cache w)
  \/ (Forall resolved acq /\ In (mkEvent NewPage None) acq
      /\ exists rb rc,
           rb <> Diverged /\ logOf rb body /\ releaseLog rc closes
           /\ r = afterFinally rb rc
           /\ match rb with
              | Returned v =>
                  exists pins t,
                    v = Some (assemble q pins)
                    /\ cache w' = LRU.set t (cache w) k (assemble q pins)
                    /\ clock w <= t <= clock w'
              | _ => cache w' = cache w
              end).

(** The number of scroll iterations started in a log. *)
Definition scrollCount (evs : list Event) : nat :=
  List.length (filter (fun ev => isScroll (act ev)) evs).

(** *** Cache keys *)

(** No [|] in the string. *)
Fixpoint noBar (s : string) : bool :=
  match s with
  | EmptyString => true
  | String c r => negb (Ascii.eqb c "|") && noBar r
  end.

(** The values the request handler passes for [scrolls]: NaN, or an
    integer (which the handler keeps between 1 and 10). *)
Definition scrollValue (s : Num.number) : Prop :=
  s = Num.NaN \/ exists n : Z, Z.abs n < 2 ^ 53 /\ s = Num.ofZ n.

(** *** Strings *)

(** Every character of the string is white space. *)
Fixpoint allWhite (s : string) : bool :=
  match s with
  | EmptyString => true
  | String c r => Str.isWhite c && allWhite r
  end.

(** The last character of a string, if any. *)
Fixpoint lastChar (s : string) : option ascii :=
  match s with
  | EmptyString => None
  | String c EmptyString => Some c
  | String _ r => lastChar r
  end.

Definition firstChar (s : string) : option ascii :=
  match s with
  | EmptyString => None
  | String c _ => Some c
  end.

Definition notWhite (c : option ascii) : Prop :=
  match c with Some c => Str.isWhite c = false | None => True end.

(** [req.query.q] is absent, empty or white space only. *)
Definition blank (q : option string) : bool :=
  match q with
  | None => true
  | Some s => allWhite s
  end.

(** A character that needs no escaping, or the escape sign itself. *)
Definition urlSafe (c : ascii) : bool := Str.unreserved c || Ascii.eqb c "%".

Fixpoint allChars (p : ascii -> bool) (s : string) : bool :=
  match s with
  | EmptyString => true
  | String c r => p c && allChars p r
  end.

(** *** The search URL *)

(** What [encodeURIComponent] writes for one character. *)
Definition encodeChar (c : ascii) : string :=
  let n := nat_of_ascii c in
  if Str.unreserved c then String c EmptyString
  else if (n <? 128)%nat then Str.percent n
  else (Str.percent (192 + n / 64) ++ Str.percent (128 + n mod 64))%string.

Definition hexVal (c : ascii) : option nat :=
  let n := nat_of_ascii c in
  if ((48 <=? n) && (n <=? 57))%nat then Some (n - 48)%nat
  else if ((65 <=? n) && (n <=? 70))%nat then Some (n - 55)%nat
  else None.

(** Reads one escape [%XY] back. *)
Definition unescape (s : string) : option (nat * string) :=
  match s with
  | String "%" (String x (String y r)) =>
      match hexVal x, hexVal y with
      | Some a, Some b => Some ((16 * a + b)%nat, r)
      | _, _ => None
      end
  | _ => None
  end.

(** Reads back what [encodeChar] wrote at the head of a string. *)
Definition decodeChar (s : string) : option (ascii * string) :=
  match s with
  | EmptyString => None
  | String "%" _ =>
      match unescape s with
      | Some (n, r) =>
          if (n <? 128)%nat then Some (ascii_of_nat n, r)
          else
            match unescape r with
            | Some (n2, r2) => Some (ascii_of_nat ((n - 192) * 64 + (n2 - 128)), r2)
            | None => None
            end
      | None => None
      end
  | String c r => Some (c, r)
  end.

(** *** What a request may do *)

(** Whether the login branch of lines 73-81 is taken. *)
Definition loggingIn (h : Host) (login : bool) : bool :=
  login
  && match envSet (PIN_EMAIL h), envSet (PIN_PASSWORD h) with
     | Some _, Some _ => true
     | _, _ => false
     end.

(** The calls a request for [q] may make on its context and page. *)
Definition requestAction (h : Host) (q : string) (login : bool) (a : action) : Prop :=
  match a with
  | Launch => False
  | NewContext | NewPage | ScrollToBottom | ExtractPins | ClosePage | CloseContext => True
  | Goto target =>
      target = searchUrl q \/ (loggingIn h login = true /\ target = loginUrl)
  | Fill selector text =>
      loggingIn h login = true
      /\ ((selector = idInput /\ PIN_EMAIL h = Some text)
          \/ (selector = passwordInput /\ PIN_PASSWORD h = Some text))
  | Click selector => loggingIn h login = true /\ selector = submitButton
  | WaitForLoadState state => loggingIn h login = true /\ state = "networkidle"%string
  | WaitForTimeout ms => 1500 <= ms < 2500
  end.

(** A property of the world that a computation keeps. *)
Definition preserves {A : Type} (I : World -> Prop) (m : M A) : Prop :=
  forall w r w', m w = (r, w') -> I w -> I w'.

(** The number of launches that resolved in a log. *)
Definition launches (evs : list Event) : nat :=
  List.length
    (filter (fun ev => match act ev, failure ev with Launch, None => true | _, _ => false end)
            evs).

(** The shared handle is set exactly when one launch has resolved. *)
Definition launchedOnce (w : World) : Prop :=
  launches (trace w) = if browser w then 1%nat else 0%nat.

(** Requests handled one after the other. *)
Fixpoint serve (h : Host) (fuel : nat) (reqs : list Request) (w : World) : World :=
  match reqs with
  | [] => w
  | req :: rest => serve h fuel rest (snd (handle h fuel req w))
  end.

(** What may be in the log of a request for [q]: the launch of the shared
    browser, and the calls of the request itself. *)
Definition mayCall (h : Host) (q : string) (login : bool) (ev : Event) : Prop :=
  act ev = Launch \/ requestAction h q login (act ev).

(** The calls of the login branch, lines 74-80. *)
Definition loginActions (h : Host) (login : bool) : list action :=
  if login then
    match envSet (PIN_EMAIL h), envSet (PIN_PASSWORD h) with
    | Some email, Some password =>
        [Goto loginUrl; Fill idInput email; Fill passwordInput password;
         Click submitButton; WaitForLoadState "networkidle"]
    | _, _ => []
    end
  else [].

(** One scroll and one pause per iteration. *)
Definition scrollActions (pauses : list Z) : list action :=
  flat_map (fun ms => [ScrollToBottom; WaitForTimeout ms]) pauses.

(** The calls of a fetch on which nothing fails. *)
Definition successActions (h : Host) (q : string) (login launched : bool)
    (pauses : list Z) : list action :=
  (if launched then [] else [Launch])
  ++ [NewContext; NewPage]
  ++ loginActions h login
  ++ [Goto (searchUrl q)]
  ++ scrollActions pauses
  ++ [ExtractPins; ClosePage; CloseContext].

Definition resolvedCall (a : action) : Event := mkEvent a None.

(** *** Scenarios *)

(** A host on which every browser call resolves at once, the extraction
    yields [pins], and no login credentials are configured. *)
Definition quietHost (pins : list Pin) : Host :=
  {| rejects := fun _ _ => None;
     extracted := fun _ => pins;
     elapsed := fun _ => 0%N;
     random := fun _ => 0;
     PIN_EMAIL := None;
     PIN_PASSWORD := None;
     formatNumber := fun _ => EmptyString |}.

(** The same host, except that the calls picked by [bad] reject. *)
Definition rejectingHost (bad : action -> option JsError) (pins : list Pin) : Host :=
  {| rejects := fun _ a => bad a;
     extracted := fun _ => pins;
     elapsed := fun _ => 0%N;
     random := fun _ => 0;
     PIN_EMAIL := None;
     PIN_PASSWORD := None;
     formatNumber := fun _ => EmptyString |}.

(** The process right after start: nothing cached, no browser yet. *)
Definition freshWorld : World :=
  {| cache := []; browser := false; clock := 0; trace := [] |}.

Definition pinA : Pin :=
  mkPin "A" "https://www.pinterest.com/pin/A/" "" "first" (Num.ofZ 100).
Definition pinB : Pin :=
  mkPin "B" "https://www.pinterest.com/pin/B/" "" "second" (Num.ofZ 50).
Definition pinA' : Pin :=
  mkPin "A" "https://www.pinterest.com/pin/A" "" "third" (Num.ofZ 100).

Definition navigationError : JsError := mkError "page.goto: Timeout 30000ms exceeded".
Definition closeError : JsError := mkError "page.close: Target closed".

(** The search navigation of any query times out. *)
Definition searchTimesOut (a : action) : option JsError :=
  match a with
  | Goto _ => Some navigationError
  | _ => None
  end.

(** Closing the page fails. *)
Definition pageCloseFails (a : action) : option JsError :=
  match a with
  | ClosePage => Some closeError
  | _ => None
  end.

(** Opening the page fails. *)
Definition newPageFails (a : action) : option JsError :=
  match a with
  | NewPage => Some (mkError "browserContext.newPage: Target closed")
  | _ => None
  end.

(** The search navigation times out and closing the page fails too. *)
Definition bothFail (a : action) : option JsError :=
  match a with
  | Goto _ => Some navigationError
  | ClosePage => Some closeError
  | _ => None
  end.

(** Two anchors of a result page: one with a save count, one with only
    a title. *)
Definition twoAnchors : list Dom.Anchor :=
  [Dom.mkAnchor (Some "/pin/1/"%string) (Some "https://i.pinimg.com/1.jpg"%string) (Some "Blue mug"%string)
                None (Some "1,234 saves"%string);
   Dom.mkAnchor (Some "/pin/2/"%string) None None (Some "  Red mug "%string) None].

(** * Properties *)

(** ** De-duplication *)

Lemma existsb_seen_In (s : string) (seen : list string) :
  existsb (String.eqb s) seen = true <-> In s seen.
Proof.
  rewrite existsb_exists. split.
  - intros [x [Hin Heq]]. apply String.eqb_eq in Heq. now subst.
  - intros Hin. exists s. split; [assumption | apply String.eqb_refl].
Qed.

Lemma findIndexFrom_lower {A} (pred : A -> bool) arr i :
  findIndexFrom pred arr i = -1 \/ i <= findIndexFrom pred arr i.
Proof.
  revert i. induction arr as [|x arr IH]; intros i; simpl.
  - now left.
  - destruct (pred x); [right; lia|].
    destruct (IH (i + 1)) as [->|Hle]; [now left | right; lia].
Qed.

(** Where [findIndex] lands on [pre ++ p :: rest] when [p] matches:
    at [p] exactly when nothing before it matches. *)
Lemma findIndexFrom_split {A} (pred : A -> bool) pre p rest i :
  pred p = true -> 0 <= i ->
  (findIndexFrom pred (pre ++ p :: rest) i =? i + Z.of_nat (List.length pre))
  = negb (existsb pred pre).
Proof.
  intros Hp. revert i. induction pre as [|x pre IH]; intros i Hi; simpl.
  - rewrite Hp. apply Z.eqb_eq. lia.
  - destruct (pred x) eqn:Hx; simpl.
    + apply Z.eqb_neq. lia.
    + rewrite <- (IH (i + 1)) by lia. f_equal. lia.
Qed.

Lemma existsb_sameId p pre :
  existsb (sameId p) pre = existsb (String.eqb (pinId p)) (map pinId pre).
Proof.
  induction pre as [|x pre IH]; simpl; [reflexivity|].
  unfold sameId at 1. rewrite IH. now rewrite String.eqb_sym.
Qed.

(** Only the set of identifiers seen matters to [keepFirst]. *)
Lemma keepFirst_ext seen1 seen2 records :
  (forall s, In s seen1 <-> In s seen2) ->
  keepFirst seen1 records = keepFirst seen2 records.
Proof.
  revert seen1 seen2. induction records as [|p rest IH]; intros seen1 seen2 Hext; simpl.
  - reflexivity.
  - assert (Hb : existsb (String.eqb (pinId p)) seen1
                 = existsb (String.eqb (pinId p)) seen2).
    { apply eq_true_iff_eq. rewrite !existsb_seen_In. apply Hext. }
    rewrite Hb. destruct (existsb (String.eqb (pinId p)) seen2).
    + now apply IH.
    + f_equal. apply IH. intros s. simpl. now rewrite Hext.
Qed.

(** The filter of line 128, started anywhere in the array, is the
    specification's walk with the identifiers before that point seen. *)
Lemma filterFrom_keepFirst pre rest :
  filterFrom
    (fun p i arr => findIndex (fun x => String.eqb (pinId x) (pinId p)) arr =? i)
    (pre ++ rest) rest (Z.of_nat (List.length pre))
  = keepFirst (map pinId pre) rest.
Proof.
  revert pre. induction rest as [|p rest IH]; intros pre; simpl; [reflexivity|].
  unfold findIndex in IH |- *.
  pose proof (findIndexFrom_split (sameId p) pre p rest 0) as Hs.
  unfold sameId in Hs at 1 2. rewrite String.eqb_refl in Hs.
  specialize (Hs eq_refl (Z.le_refl 0)). simpl in Hs. rewrite Hs.
  rewrite existsb_sameId.
  specialize (IH (pre ++ [p])).
  rewrite <- app_assoc in IH. simpl in IH.
  rewrite length_app, map_app in IH. simpl in IH.
  replace (Z.of_nat (List.length pre + 1)) with (Z.of_nat (List.length pre) + 1) in IH by lia.
  rewrite IH.
  destruct (existsb (String.eqb (pinId p)) (map pinId pre)) eqn:Hex; simpl.
  - apply keepFirst_ext. intros s. rewrite in_app_iff. simpl.
    apply existsb_seen_In in Hex. split; [|tauto].
    intros [H|[<-|[]]]; assumption.
  - f_equal. apply keepFirst_ext. intros s. rewrite in_app_iff. simpl. tauto.
Qed.

Lemma uniquePins_keepFirst pins : uniquePins pins = keepFirst [] pins.
Proof. exact (filterFrom_keepFirst [] pins). Qed.

Lemma keepFirst_fresh seen records p :
  In p (keepFirst seen records) -> ~ In (pinId p) seen.
Proof.
  revert seen. induction records as [|x rest IH]; intros seen; simpl; [tauto|].
  destruct (existsb (String.eqb (pinId x)) seen) eqn:Hex.
  - apply IH.
  - intros [<-|Hin].
    + intros Hc. apply existsb_seen_In in Hc. congruence.
    + intros Hc. apply (IH _ Hin). now right.
Qed.

Lemma keepFirst_NoDup seen records : NoDup (map pinId (keepFirst seen records)).
Proof.
  revert seen. induction records as [|x rest IH]; intros seen; simpl.
  - constructor.
  - destruct (existsb (String.eqb (pinId x)) seen); [apply IH|].
    simpl. constructor; [|apply IH].
    intros Hin. apply in_map_iff in Hin. destruct Hin as [y [Hid Hy]].
    apply keepFirst_fresh in Hy. apply Hy. rewrite Hid. now left.
Qed.

Lemma keepFirst_Subseq seen records : Subseq (keepFirst seen records) records.
Proof.
  revert seen. induction records as [|x rest IH]; intros seen; simpl.
  - constructor.
  - destruct (existsb (String.eqb (pinId x)) seen); constructor; apply IH.
Qed.

(** What is kept: the records with no earlier record, and no seen
    identifier, of the same identifier. *)
Lemma keepFirst_In seen records p :
  In p (keepFirst seen records) <->
  exists pre post, records = pre ++ p :: post
                   /\ ~ In (pinId p) (seen ++ map pinId pre).
Proof.
  revert seen. induction records as [|x rest IH]; intros seen; simpl.
  - split; [tauto|]. intros [pre [post [H _]]]. now destruct pre.
  - destruct (existsb (String.eqb (pinId x)) seen) eqn:Hex.
    + rewrite IH. apply existsb_seen_In in Hex. split.
      * intros [pre [post [-> Hn]]]. exists (x :: pre), post. split; [reflexivity|].
        simpl. rewrite in_app_iff in *. simpl. intros [H|[H|H]]; [tauto| |tauto].
        apply Hn. left. now rewrite <- H.
      * intros [pre [post [Heq Hn]]]. destruct pre as [|y pre]; simpl in *.
        -- injection Heq as -> ->. exfalso. apply Hn. rewrite app_nil_r. exact Hex.
        -- injection Heq as -> ->. exists pre, post. split; [reflexivity|].
           rewrite in_app_iff in *. simpl in Hn. tauto.
    + simpl. rewrite IH. split.
      * intros [<-|[pre [post [-> Hn]]]].
        -- exists [], rest. split; [reflexivity|]. simpl. rewrite app_nil_r.
           intros Hc. apply existsb_seen_In in Hc. congruence.
        -- exists (x :: pre), post. split; [reflexivity|].
           simpl in *. rewrite in_app_iff in *. simpl in *. tauto.
      * intros [pre [post [Heq Hn]]]. destruct pre as [|y pre]; simpl in *.
        -- injection Heq as -> ->. now left.
        -- injection Heq as -> ->. right. exists pre, post. split; [reflexivity|].
           simpl. rewrite in_app_iff in *. simpl in *. tauto.
Qed.

(** On records whose identifiers are pairwise distinct and unseen,
    nothing is dropped. *)
Lemma keepFirst_id seen records :
  NoDup (map pinId records) ->
  (forall p, In p records -> ~ In (pinId p) seen) ->
  keepFirst seen records = records.
Proof.
  revert seen. induction records as [|x rest IH]; intros seen Hnd Hseen; simpl.
  - reflexivity.
  - simpl in Hnd. inversion Hnd as [|? ? Hx Hnd']; subst.
    destruct (existsb (String.eqb (pinId x)) seen) eqn:Hex.
    + apply existsb_seen_In in Hex. exfalso. apply (Hseen x); [now left | exact Hex].
    + f_equal. apply IH; [assumption|].
      intros p Hp [Heq|Hin].
      * apply Hx. rewrite Heq. now apply in_map.
      * apply (Hseen p); [now right | exact Hin].
Qed.

(** ** Binary64 rounding *)

Lemma binary_round_aux_roundME s m e l :
  binary_round_aux 53 1024 s m e l =
  match fst (roundME m e l) with
  | Z0 => S754_zero s
  | Zpos p => if snd (roundME m e l) <=? 971 then S754_finite s p (snd (roundME m e l))
              else S754_infinity s
  | Zneg _ => S754_nan
  end.
Proof.
  unfold binary_round_aux, roundME.
  destruct (shr_fexp 53 1024 m e l) as [mrs1 e1].
  destruct (shr_fexp 53 1024 _ e1 loc_Exact) as [mrs2 e2]. reflexivity.
Qed.

Lemma digits2_pos_spec (p : positive) :
  2 ^ (Zpos (digits2_pos p) - 1) <= Zpos p < 2 ^ Zpos (digits2_pos p).
Proof.
  induction p as [p IH|p IH|]; simpl digits2_pos.
  - rewrite Pos2Z.inj_succ.
    replace (Z.succ (Zpos (digits2_pos p)) - 1) with (Z.succ (Zpos (digits2_pos p) - 1)) by lia.
    rewrite !Z.pow_succ_r by lia. lia.
  - rewrite Pos2Z.inj_succ.
    replace (Z.succ (Zpos (digits2_pos p)) - 1) with (Z.succ (Zpos (digits2_pos p) - 1)) by lia.
    rewrite !Z.pow_succ_r by lia. lia.
  - simpl. lia.
Qed.

Lemma Zdigits2_upper (x k : Z) : 0 <= x -> 0 <= k -> x < 2 ^ k -> Zdigits2 x <= k.
Proof.
  intros Hx Hk Hlt. destruct x as [|p|p]; simpl; [lia| |lia].
  destruct (digits2_pos_spec p) as [Hlo _].
  destruct (Z_le_gt_dec (Zpos (digits2_pos p)) k) as [|Hgt]; [assumption|].
  exfalso. assert (2 ^ k <= 2 ^ (Zpos (digits2_pos p) - 1)) by (apply Z.pow_le_mono_r; lia). lia.
Qed.

Lemma Zdigits2_lower (x k : Z) : 0 <= k -> 2 ^ k <= x -> k + 1 <= Zdigits2 x.
Proof.
  intros Hk Hle. assert (0 < 2 ^ k) by (apply Z.pow_pos_nonneg; lia).
  destruct x as [|p|p]; [lia| |lia]. simpl.
  destruct (digits2_pos_spec p) as [_ Hhi].
  destruct (Z_le_gt_dec (k + 1) (Zpos (digits2_pos p))) as [|Hgt]; [assumption|].
  exfalso. assert (2 ^ Zpos (digits2_pos p) <= 2 ^ k) by (apply Z.pow_le_mono_r; lia). lia.
Qed.

Lemma Zdigits2_bounds (x : Z) : 0 < x -> 2 ^ (Zdigits2 x - 1) <= x < 2 ^ Zdigits2 x.
Proof. destruct x as [|p|p]; try lia. intros _. apply digits2_pos_spec. Qed.

Lemma Zdigits2_nonneg x : 0 <= Zdigits2 x.
Proof. destruct x; simpl; lia. Qed.

Lemma shr_1_m (r : shr_record) : 0 <= shr_m r -> shr_m (shr_1 r) = shr_m r / 2.
Proof.
  destruct r as [m r s]. simpl. intros Hm.
  rewrite <- Z.div2_div.
  destruct m as [|[p|p|]|p]; try reflexivity; lia.
Qed.

Lemma pow2_xO (p : positive) : 2 ^ Zpos p~0 = 2 ^ Zpos p * 2 ^ Zpos p.
Proof. rewrite <- Z.pow_add_r by lia. f_equal. lia. Qed.

Lemma pow2_xI (p : positive) : 2 ^ Zpos p~1 = 2 * (2 ^ Zpos p * 2 ^ Zpos p).
Proof.
  rewrite <- Z.pow_add_r by lia. rewrite <- Z.pow_succ_r by lia. f_equal. lia.
Qed.

Lemma iter_shr_1_m (p : positive) (r : shr_record) :
  0 <= shr_m r -> shr_m (SpecFloat.iter_pos shr_1 p r) = shr_m r / 2 ^ Zpos p.
Proof.
  revert r. induction p as [p IH|p IH|]; intros r Hr; simpl SpecFloat.iter_pos.
  - assert (Hp : 0 < 2 ^ Zpos p) by (apply Z.pow_pos_nonneg; lia).
    assert (H1 : 0 <= shr_m (shr_1 r)) by (rewrite shr_1_m by assumption; apply Z.div_pos; lia).
    assert (H2 : 0 <= shr_m (SpecFloat.iter_pos shr_1 p (shr_1 r))).
    { rewrite IH by assumption. apply Z.div_pos; assumption. }
    rewrite IH, IH, shr_1_m by assumption.
    rewrite !Z.div_div by lia. now rewrite pow2_xI, Z.mul_assoc.
  - assert (Hp : 0 < 2 ^ Zpos p) by (apply Z.pow_pos_nonneg; lia).
    assert (H2 : 0 <= shr_m (SpecFloat.iter_pos shr_1 p r)).
    { rewrite IH by assumption. apply Z.div_pos; assumption. }
    rewrite IH, IH by assumption.
    rewrite Z.div_div by lia. now rewrite pow2_xO.
  - rewrite shr_1_m by assumption. reflexivity.
Qed.

Lemma fexp_64 x : fexp 53 1024 x = fexp64 x.
Proof. reflexivity. Qed.

(** One shift of the rounding: the mantissa is divided by [2^k], where
    [k = max 0 (fexp (digits m + e) - e)], and the exponent grows by [k]. *)
Lemma shr_fexp_spec (m e : Z) (l : location) :
  0 <= m ->
  let k := Z.max 0 (fexp64 (Zdigits2 m + e) - e) in
  shr_m (fst (shr_fexp 53 1024 m e l)) = m / 2 ^ k
  /\ snd (shr_fexp 53 1024 m e l) = e + k
  /\ (k = 0 -> fst (shr_fexp 53 1024 m e l) = shr_record_of_loc m l).
Proof.
  intros Hm k. unfold shr_fexp. rewrite fexp_64.
  assert (Hrec : shr_m (shr_record_of_loc m l) = m) by (destruct l as [|[| |]]; reflexivity).
  unfold shr. subst k.
  destruct (fexp64 (Zdigits2 m + e) - e) as [|p|p] eqn:Hn; simpl fst; simpl snd.
  - rewrite Z.max_id. simpl. rewrite Z.div_1_r, Hrec. repeat split; lia.
  - rewrite Z.max_r by lia. rewrite iter_shr_1_m by lia. rewrite Hrec. repeat split; lia.
  - rewrite Z.max_l by lia. simpl. rewrite Z.div_1_r, Hrec. repeat split; lia.
Qed.

Lemma round_nearest_even_bounds (m : Z) (l : location) :
  m <= round_nearest_even m l <= m + 1.
Proof.
  destruct l as [|[| |]]; simpl; try lia. destruct (Z.even m); lia.
Qed.

Lemma loc_of_shr_record_of_loc m l : loc_of_shr_record (shr_record_of_loc m l) = l.
Proof. destruct l as [|[| |]]; reflexivity. Qed.

Lemma roundME_unfold (m e : Z) (l : location) :
  0 <= m ->
  let k1 := Z.max 0 (fexp64 (Zdigits2 m + e) - e) in
  exists m1 : Z,
    m / 2 ^ k1 <= m1 <= m / 2 ^ k1 + 1
    /\ (l = loc_Exact -> k1 = 0 -> m1 = m)
    /\ roundME m e l =
       (m1 / 2 ^ Z.max 0 (fexp64 (Zdigits2 m1 + (e + k1)) - (e + k1)),
        e + k1 + Z.max 0 (fexp64 (Zdigits2 m1 + (e + k1)) - (e + k1))).
Proof.
  intros Hm k1.
  destruct (shr_fexp_spec m e l Hm) as [Hm1 [He1 Hk0]]. fold k1 in Hm1, He1, Hk0.
  unfold roundME.
  destruct (shr_fexp 53 1024 m e l) as [mrs1 e1]. simpl in Hm1, He1, Hk0.
  set (m1 := round_nearest_even (shr_m mrs1) (loc_of_shr_record mrs1)).
  assert (Hb : m / 2 ^ k1 <= m1 <= m / 2 ^ k1 + 1).
  { rewrite <- Hm1. apply round_nearest_even_bounds. }
  assert (H0 : 0 <= m / 2 ^ k1).
  { apply Z.div_pos; [assumption|]. apply Z.pow_pos_nonneg; lia. }
  exists m1. split; [exact Hb|]. split.
  - intros -> Hk. subst m1. rewrite (Hk0 Hk). reflexivity.
  - destruct (shr_fexp_spec m1 e1 loc_Exact ltac:(lia)) as [Hm2 [He2 _]].
    destruct (shr_fexp 53 1024 m1 e1 loc_Exact) as [mrs2 e2]. simpl in Hm2, He2.
    subst e1. now rewrite Hm2, He2.
Qed.

Lemma pow2_pos (k : Z) : 0 <= k -> 0 < 2 ^ k.
Proof. intros. apply Z.pow_pos_nonneg; lia. Qed.

Lemma div_pow2_lt (m k j : Z) :
  0 <= m -> 0 <= k -> 0 <= j -> m < 2 ^ (k + j) -> m / 2 ^ k < 2 ^ j.
Proof.
  intros Hm Hk Hj Hlt. apply Z.div_lt_upper_bound; [now apply pow2_pos|].
  now rewrite <- Z.pow_add_r.
Qed.

Lemma div_pow2_ge (m k j : Z) :
  0 <= k -> 0 <= j -> 2 ^ (k + j) <= m -> 2 ^ j <= m / 2 ^ k.
Proof.
  intros Hk Hj Hle. apply Z.div_le_lower_bound; [now apply pow2_pos|].
  now rewrite <- Z.pow_add_r.
Qed.

Lemma pow2_le (a b : Z) : 0 <= a <= b -> 2 ^ a <= 2 ^ b.
Proof. intros. apply Z.pow_le_mono_r; lia. Qed.

(** What rounding to binary64 does to a non-negative mantissa. *)
Lemma roundME_spec (m e : Z) (l : location) :
  0 <= m ->
  let k1 := Z.max 0 (fexp64 (Zdigits2 m + e) - e) in
  let m2 := fst (roundME m e l) in
  let e2 := snd (roundME m e l) in
  0 <= m2 < 2 ^ 53
  /\ e + k1 <= e2
  /\ m2 * 2 ^ (e2 - (e + k1)) <= m / 2 ^ k1 + 1
  /\ (l = loc_Exact -> k1 = 0 -> m2 * 2 ^ (e2 - e) <= m)
  /\ (53 <= Zdigits2 m -> 0 < m2 -> 2 ^ 52 <= m2 \/ e2 = -1074).
Proof.
  intros Hm k1 m2 e2.
  destruct (roundME_unfold m e l Hm) as [m1 [Hb [Hex Heq]]]. fold k1 in Hb, Hex, Heq.
  set (k2 := Z.max 0 (fexp64 (Zdigits2 m1 + (e + k1)) - (e + k1))) in Heq.
  subst m2 e2. rewrite Heq. simpl fst. simpl snd.
  assert (Hk1 : 0 <= k1) by (subst k1; lia).
  assert (Hk2 : 0 <= k2) by (subst k2; lia).
  assert (Hp1 : 0 < 2 ^ k1) by now apply pow2_pos.
  assert (Hp2 : 0 < 2 ^ k2) by now apply pow2_pos.
  assert (H0 : 0 <= m / 2 ^ k1) by (apply Z.div_pos; lia).
  assert (Hd := Zdigits2_nonneg m).
  assert (Hm1 : m / 2 ^ k1 < 2 ^ 53).
  { destruct (Z.eq_dec m 0) as [->|Hnz]; [rewrite Z.div_0_l by lia; lia|].
    apply div_pow2_lt; try lia.
    destruct (Zdigits2_bounds m ltac:(lia)) as [_ Hhi].
    eapply Z.lt_le_trans; [exact Hhi|]. apply pow2_le.
    subst k1. unfold fexp64. lia. }
  assert (Hmul : m1 / 2 ^ k2 * 2 ^ k2 <= m1).
  { rewrite Z.mul_comm. apply Z.mul_div_le. lia. }
  assert (H2 : 0 <= m1 / 2 ^ k2) by (apply Z.div_pos; lia).
  replace (e + k1 + k2 - (e + k1)) with k2 by lia.
  split; [|split; [lia|split; [lia|split]]].
  - split; [assumption|].
    destruct (Z.eq_dec m1 (2 ^ 53)) as [E|NE].
    + assert (Hdd : 54 <= Zdigits2 m1).
      { apply (Zdigits2_lower m1 53); lia. }
      assert (Hk21 : 1 <= k2) by (subst k2; unfold fexp64; lia).
      apply Z.lt_le_trans with (2 ^ 52 + 1); [|lia].
      assert (Hle : m1 / 2 ^ k2 <= 2 ^ 53 / 2 ^ 1).
      { rewrite <- E. apply Z.div_le_compat_l; [lia|]. split; [lia|]. apply pow2_le. lia. }
      change (2 ^ 53 / 2 ^ 1) with (2 ^ 52) in Hle. lia.
    + apply Z.le_lt_trans with m1; [|lia].
      apply Z.div_le_upper_bound; [lia|]. nia.
  - intros El Ek. rewrite (Hex El Ek) in *.
    replace (e + k1 + k2 - e) with k2 by lia. exact Hmul.
  - intros Hd53 Hpos.
    destruct (Zdigits2_bounds m) as [Hlo Hhi].
    { destruct m; simpl in Hd53; lia. }
    destruct (Z_le_gt_dec (-1074 - e) (Zdigits2 m - 53)) as [HA|HB].
    + (* the mantissa keeps 53 digits *)
      assert (Ek1 : k1 = Zdigits2 m - 53) by (subst k1; unfold fexp64; lia).
      assert (Hlow : 2 ^ 52 <= m / 2 ^ k1).
      { apply div_pow2_ge; try lia. eapply Z.le_trans; [|exact Hlo].
        apply pow2_le. lia. }
      left.
      destruct (Z.eq_dec m1 (2 ^ 53)) as [E|NE].
      * assert (Hdd : 54 <= Zdigits2 m1) by (apply (Zdigits2_lower m1 53); lia).
        assert (Hdu : Zdigits2 m1 <= 54) by (apply Zdigits2_upper; lia).
        assert (Ek2 : k2 = 1) by (subst k2; unfold fexp64; lia).
        rewrite Ek2, E. change (2 ^ 53 / 2 ^ 1) with (2 ^ 52). lia.
      * assert (Hdu : Zdigits2 m1 <= 53) by (apply Zdigits2_upper; lia).
        assert (Ek2 : k2 = 0) by (subst k2; unfold fexp64; lia).
        rewrite Ek2. change (2 ^ 0) with 1. rewrite Z.div_1_r. lia.
    + (* the exponent is the smallest one *)
      assert (Ek1 : k1 = -1074 - e) by (subst k1; unfold fexp64; lia).
      assert (Hup : m / 2 ^ k1 < 2 ^ 52).
      { apply div_pow2_lt; try lia. eapply Z.lt_le_trans; [exact Hhi|].
        apply pow2_le. lia. }
      assert (Hdu : Zdigits2 m1 <= 53) by (apply Zdigits2_upper; lia).
      right. subst k2. unfold fexp64. lia.
Qed.

Local Open Scope R_scope.

Lemma IZR_pow2 (k : Z) : (0 <= k)%Z -> IZR (2 ^ k) = powerRZ 2 k.
Proof.
  intros Hk. destruct k as [|p|p]; [reflexivity| |lia].
  simpl powerRZ. rewrite pow_IZR. now rewrite positive_nat_Z.
Qed.

Lemma powerRZ2_pos (k : Z) : 0 < powerRZ 2 k.
Proof. apply powerRZ_lt. lra. Qed.

Lemma powerRZ2_add (a b : Z) : powerRZ 2 (a + b) = powerRZ 2 a * powerRZ 2 b.
Proof. apply powerRZ_add. lra. Qed.

Lemma powerRZ2_le (a b : Z) : (a <= b)%Z -> powerRZ 2 a <= powerRZ 2 b.
Proof.
  intros Hab. replace b with (a + (b - a))%Z by lia. rewrite powerRZ2_add.
  assert (Hge : 1 <= powerRZ 2 (b - a)).
  { rewrite <- IZR_pow2 by lia. apply IZR_le.
    assert (0 < 2 ^ (b - a))%Z by (apply Z.pow_pos_nonneg; lia). lia. }
  assert (Hpos := powerRZ2_pos a). nra.
Qed.

Lemma powerRZ2_lt_inv (a b : Z) : powerRZ 2 a < powerRZ 2 b -> (a < b)%Z.
Proof.
  intros H. destruct (Z_lt_le_dec a b) as [|Hle]; [assumption|].
  apply powerRZ2_le in Hle. lra.
Qed.

(** Rounding an exact positive value [m * 2^e] to binary64: the result is
    at most one unit in the last place above it. *)
Lemma roundME_value (m e : Z) :
  (0 < m)%Z ->
  let v := IZR m * powerRZ 2 e in
  let m2 := fst (roundME m e loc_Exact) in
  let e2 := snd (roundME m e loc_Exact) in
  IZR m2 * powerRZ 2 e2 <= v + v * u64 + eta64.
Proof.
  intros Hm v m2 e2.
  destruct (roundME_spec m e loc_Exact ltac:(lia)) as [Hb [He [Hv [Hx _]]]].
  fold m2 e2 in Hb, He, Hv, Hx.
  set (k1 := Z.max 0 (fexp64 (Zdigits2 m + e) - e)) in *.
  assert (Hk1 : (0 <= k1)%Z) by (subst k1; lia).
  assert (Hvpos : 0 < v) by (apply Rmult_lt_0_compat; [now apply IZR_lt | apply powerRZ2_pos]).
  assert (Hupos : 0 < u64) by apply powerRZ2_pos.
  assert (Hepos : 0 < eta64) by apply powerRZ2_pos.
  destruct (Z.eq_dec k1 0) as [E0|NE].
  - specialize (Hx eq_refl E0).
    replace e2 with ((e2 - e) + e)%Z by lia. rewrite powerRZ2_add, <- Rmult_assoc.
    rewrite <- IZR_pow2 by lia. rewrite <- mult_IZR.
    apply IZR_le in Hx.
    assert (IZR (m2 * 2 ^ (e2 - e)) * powerRZ 2 e <= v).
    { apply Rmult_le_compat_r; [left; apply powerRZ2_pos | exact Hx]. }
    nra.
  - assert (Hstep : IZR m2 * powerRZ 2 e2 <= v + powerRZ 2 (e + k1)).
    { replace e2 with ((e2 - (e + k1)) + (e + k1))%Z by lia.
      rewrite powerRZ2_add, <- Rmult_assoc.
      rewrite <- IZR_pow2 by lia. rewrite <- mult_IZR.
      apply IZR_le in Hv. rewrite plus_IZR in Hv.
      assert (Hq : IZR (m / 2 ^ k1) * powerRZ 2 (e + k1) <= v).
      { rewrite Z.add_comm, powerRZ2_add, <- Rmult_assoc.
        rewrite <- IZR_pow2 by lia. rewrite <- mult_IZR.
        apply Rmult_le_compat_r; [left; apply powerRZ2_pos|].
        apply IZR_le. rewrite Z.mul_comm. apply Z.mul_div_le. apply pow2_pos. lia. }
      assert (Hpk := powerRZ2_pos (e + k1)).
      apply Rle_trans with ((IZR (m / 2 ^ k1) + 1) * powerRZ 2 (e + k1)); [|lra].
      apply Rmult_le_compat_r; [lra | exact Hv]. }
    apply Rle_trans with (v + powerRZ 2 (e + k1)); [exact Hstep|].
    assert (Hek : (e + k1 = fexp64 (Zdigits2 m + e))%Z) by (subst k1; lia).
    rewrite Hek. unfold fexp64.
    destruct (Z.max_spec (Zdigits2 m + e - 53) (-1074)) as [[_ ->]|[_ ->]].
    + fold eta64. nra.
    + destruct (Zdigits2_bounds m Hm) as [Hlo _].
      assert (Hd := Zdigits2_nonneg m).
      assert (Hd1 : (1 <= Zdigits2 m)%Z) by (destruct m; simpl in *; lia).
      replace (Zdigits2 m + e - 53)%Z with ((Zdigits2 m - 1) + e + (-52))%Z by lia.
      rewrite !powerRZ2_add. fold u64. rewrite <- IZR_pow2 by lia.
      apply IZR_le in Hlo.
      assert (IZR (2 ^ (Zdigits2 m - 1)) * powerRZ 2 e <= v).
      { apply Rmult_le_compat_r; [left; apply powerRZ2_pos | exact Hlo]. }
      nra.
Qed.

Local Close Scope R_scope.

Lemma iter_xO_value (m d : positive) : Zpos (Pos.iter xO m d) = Zpos m * 2 ^ Zpos d.
Proof.
  rewrite (Pos.iter_swap_gen _ _ Zpos xO (Z.mul 2)) by reflexivity.
  change (Pos.iter (Z.mul 2) (Zpos m) d) with (Z.shiftl (Zpos m) (Zpos d)).
  apply Z.shiftl_mul_pow2. lia.
Qed.

(** Aligning a mantissa to a smaller exponent keeps the value. *)
Lemma shl_align_spec (m : positive) (e e' : Z) :
  let k := Z.max 0 (e - e') in
  Zpos (fst (shl_align m e e')) = Zpos m * 2 ^ k /\ snd (shl_align m e e') = e - k.
Proof.
  unfold shl_align. destruct (e' - e) as [|d|d] eqn:Hd; simpl fst; simpl snd.
  - replace (Z.max 0 (e - e')) with 0 by lia. simpl. lia.
  - replace (Z.max 0 (e - e')) with 0 by lia. simpl. lia.
  - replace (Z.max 0 (e - e')) with (Zpos d) by lia. rewrite iter_xO_value. lia.
Qed.

Lemma roundME_exact (m e : Z) :
  0 <= m -> Zdigits2 m <= 53 -> -1074 <= e -> roundME m e loc_Exact = (m, e).
Proof.
  intros Hm Hd He.
  destruct (roundME_unfold m e loc_Exact Hm) as [m1 [_ [Hex Heq]]].
  assert (Hk1 : Z.max 0 (fexp64 (Zdigits2 m + e) - e) = 0) by (unfold fexp64; lia).
  rewrite Hk1 in Hex, Heq. specialize (Hex eq_refl eq_refl). subst m1.
  rewrite Z.add_0_r in Heq. rewrite Hk1 in Heq. rewrite Heq.
  now rewrite Z.div_1_r, !Z.add_0_r.
Qed.

(** The shape of every rounded result: the sign is kept, the mantissa has
    at most 53 bits, and NaN does not arise. *)
Lemma binary_round_aux_shape (s : bool) (m e : Z) (l : location) :
  0 <= m ->
  match binary_round_aux 53 1024 s m e l with
  | S754_zero s' => s' = s
  | S754_infinity s' => s' = s
  | S754_finite s' m2 _ => s' = s /\ Zpos m2 < 2 ^ 53
  | S754_nan => False
  end.
Proof.
  intros Hm. rewrite binary_round_aux_roundME.
  destruct (roundME_spec m e l Hm) as [Hb _].
  destruct (fst (roundME m e l)) as [|p|p]; [reflexivity| |lia].
  destruct (snd (roundME m e l) <=? 971); [split; [reflexivity|lia] | reflexivity].
Qed.

(** The Number value of an integer below [2^53] in magnitude is that
    integer, written with a 53-bit mantissa. *)
Lemma binary_round_small (s : bool) (p : positive) :
  Zpos p < 2 ^ 53 ->
  exists (m : positive) (k : Z),
    binary_round 53 1024 s p 0 = S754_finite s m (- k)
    /\ 0 <= k <= 52 /\ Zpos m = Zpos p * 2 ^ k /\ 2 ^ 52 <= Zpos m < 2 ^ 53.
Proof.
  intros Hp. unfold binary_round.
  destruct (digits2_pos_spec p) as [Hlo Hhi].
  assert (Hd : Zpos (digits2_pos p) <= 53).
  { change (Zpos (digits2_pos p)) with (Zdigits2 (Zpos p)). apply Zdigits2_upper; lia. }
  rewrite fexp_64. unfold fexp64.
  replace (Z.max (Zpos (digits2_pos p) + 0 - 53) (-1074)) with (Zpos (digits2_pos p) - 53) by lia.
  destruct (shl_align_spec p 0 (Zpos (digits2_pos p) - 53)) as [Hm He].
  destruct (shl_align p 0 (Zpos (digits2_pos p) - 53)) as [mz ez]. cbn [fst snd] in Hm, He.
  set (k := Z.max 0 (0 - (Zpos (digits2_pos p) - 53))) in *.
  assert (Ek : k = 53 - Zpos (digits2_pos p)) by (subst k; lia).
  assert (Hrange : 2 ^ 52 <= Zpos mz < 2 ^ 53).
  { rewrite Hm. split.
    - replace 52 with ((Zpos (digits2_pos p) - 1) + k) by lia.
      rewrite Z.pow_add_r by lia. apply Z.mul_le_mono_nonneg_r; [|exact Hlo].
      apply Z.pow_nonneg. lia.
    - replace 53 with (Zpos (digits2_pos p) + k) by lia.
      rewrite Z.pow_add_r by lia. apply Z.mul_lt_mono_pos_r; [|exact Hhi].
      apply pow2_pos. lia. }
  rewrite binary_round_aux_roundME, roundME_exact; try lia.
  - simpl fst. simpl snd. assert ((ez <=? 971) = true) as -> by (apply Z.leb_le; lia).
    exists mz, k. repeat split; try lia. f_equal. lia.
  - apply Zdigits2_upper; lia.
Qed.

(** ** Numbers of the scorer *)

Lemma ofZ_pos (n : Z) :
  0 < n < 2 ^ 53 ->
  exists (m : positive) (k : Z),
    Num.ofZ n = S754_finite false m (- k)
    /\ 0 <= k <= 52 /\ Zpos m = n * 2 ^ k /\ 2 ^ 52 <= Zpos m < 2 ^ 53.
Proof.
  intros Hn. destruct n as [|p|p]; try lia.
  unfold Num.ofZ, binary_normalize. apply binary_round_small. lia.
Qed.

Lemma leb_zero_nonNegative (x : Num.number) :
  Num.leb (Num.ofZ 0) x = true <-> nonNegative x.
Proof.
  destruct x as [[|]|[|]| |[|] m e]; cbn; intuition congruence.
Qed.

Lemma not_ltb_zero (x : Num.number) :
  Num.ltb x (Num.ofZ 0) = false ->
  nonNegative (Num.orZero x) /\ notMinusZero (Num.orZero x).
Proof.
  destruct x as [[|]|[|]| |[|] m e]; cbn; intuition congruence.
Qed.

(** Sums of non-negative numbers. *)
Lemma add_nonNegative (x y : Num.number) :
  nonNegative x -> notMinusZero x -> nonNegative y -> notMinusZero y ->
  nonNegative (Num.add x y) /\ notMinusZero (Num.add x y).
Proof.
  destruct x as [[|]|[|]| |[|] mx ex]; destruct y as [[|]|[|]| |[|] my ey];
    cbn [nonNegative notMinusZero]; try tauto; intros _ _ _ _;
    try (cbn; tauto).
  unfold Num.add, SFadd, Num.prec, Num.emax. cbn [cond_Zopp].
  unfold binary_normalize. rewrite <- Pos2Z.inj_add.
  unfold binary_round.
  destruct (shl_align _ _ _) as [mz ez].
  pose proof (binary_round_aux_shape false (Zpos mz) ez loc_Exact ltac:(lia)) as Hs.
  destruct (binary_round_aux _ _ _ _ _ _) as [s|s| |s m e];
    [subst s| subst s| contradiction | destruct Hs as [-> _]]; cbn; tauto.
Qed.

Lemma sumSaves_nonNegative (top : list Pin) :
  Forall (fun p => Num.ltb (saves p) (Num.ofZ 0) = false) top ->
  nonNegative (sumSaves top) /\ notMinusZero (sumSaves top).
Proof.
  intros Hall. unfold sumSaves.
  assert (Hgen : forall acc,
             nonNegative acc /\ notMinusZero acc ->
             nonNegative (fold_left (fun s p => Num.add s (Num.orZero (saves p))) top acc)
             /\ notMinusZero (fold_left (fun s p => Num.add s (Num.orZero (saves p))) top acc)).
  { induction Hall as [|p top Hp Hrest IH]; intros acc Hacc; simpl; [exact Hacc|].
    apply IH. destruct Hacc as [Ha1 Ha2]. destruct (not_ltb_zero _ Hp) as [Hs1 Hs2].
    now apply add_nonNegative. }
  apply Hgen. cbn. tauto.
Qed.

Lemma SFdiv_core_nonneg (m1 m2 : positive) (e1 e2 : Z) :
  0 <= fst (fst (SFdiv_core_binary 53 1024 (Zpos m1) e1 (Zpos m2) e2)).
Proof.
  unfold SFdiv_core_binary.
  set (s := e1 - e2 - _).
  set (m' := match s with Zpos _ => Z.shiftl (Zpos m1) s | Z0 => Zpos m1 | Zneg _ => 0 end).
  assert (Hm' : 0 <= m').
  { subst m'. destruct s; try lia. apply Z.shiftl_nonneg. lia. }
  pose proof (Z_div_mod m' (Zpos m2) ltac:(lia)) as Hdm.
  destruct (Z.div_eucl m' (Zpos m2)) as [q r]. cbn [fst]. nia.
Qed.

(** Dividing a non-negative number by a positive finite one. *)
Lemma div_nonNegative (x : Num.number) (my : positive) (ey : Z) :
  nonNegative x ->
  let r := Num.div x (S754_finite false my ey) in
  nonNegative r /\ mantissa53 r /\ (notMinusZero x -> notMinusZero r).
Proof.
  destruct x as [[|]|[|]| |[|] mx ex]; cbn [nonNegative]; try tauto; intros _;
    try (cbn; tauto).
  unfold Num.div, SFdiv, Num.prec, Num.emax. cbn [xorb].
  pose proof (SFdiv_core_nonneg mx my ex ey) as Hq.
  destruct (SFdiv_core_binary 53 1024 (Zpos mx) ex (Zpos my) ey) as [[mz ez] lz].
  cbn [fst] in Hq.
  pose proof (binary_round_aux_shape false mz ez lz Hq) as Hs.
  destruct (binary_round_aux _ _ _ _ _ _) as [s|s| |s m e];
    [subst s| subst s| contradiction | destruct Hs as [-> Hm]];
    cbn [nonNegative mantissa53 notMinusZero]; tauto.
Qed.

Lemma powerRZ2_Zneg (p : positive) : powerRZ 2 (Zneg p) = (/ IZR (2 ^ Zpos p))%R.
Proof. change (Zneg p) with (- Zpos p). rewrite powerRZ_neg'. now rewrite IZR_pow2. Qed.

(** [Math.min(1, x)] of a non-negative number is a finite number, at most
    one. *)
Lemma min_one (x : Num.number) :
  nonNegative x -> mantissa53 x ->
  let r := Num.min (Num.ofZ 1) x in
  nonNegative r /\ finite r /\ mantissa53 r /\ (B2R r <= 1)%R
  /\ (notMinusZero x -> notMinusZero r).
Proof.
  change (Num.ofZ 1) with (S754_finite false 4503599627370496 (-52)).
  assert (Hone : B2R (S754_finite false 4503599627370496 (-52)) = 1%R).
  { unfold B2R. cbn [cond_Zopp]. rewrite powerRZ2_Zneg.
    change (2 ^ 52) with 4503599627370496. field. }
  destruct x as [[|]|[|]| |[|] m e]; cbn [nonNegative mantissa53]; try tauto; intros _ Hm.
  - cbn. repeat split; try tauto; lra.
  - cbn. repeat split; try tauto; lra.
  - unfold Num.min. cbn [SFcompare]. rewrite Hone.
    cbn [nonNegative finite mantissa53 notMinusZero]. repeat split; try lia; lra.
  - unfold Num.min. cbn [SFcompare].
    destruct (Z.compare_spec (-52) e) as [He|He|He].
    + change (Pos.compare_cont Eq 4503599627370496 m)
        with (Zpos 4503599627370496 ?= Zpos m).
      destruct (Z.compare_spec 4503599627370496 (Zpos m)) as [Hc|Hc|Hc].
      * rewrite Hone. cbn [nonNegative finite mantissa53 notMinusZero].
        repeat split; try lia; lra.
      * rewrite Hone. cbn [nonNegative finite mantissa53 notMinusZero].
        repeat split; try lia; lra.
      * cbn [nonNegative finite mantissa53 notMinusZero]. repeat split; try tauto.
        subst e. unfold B2R. cbn [cond_Zopp]. rewrite powerRZ2_Zneg.
        change (2 ^ 52) with 4503599627370496.
        assert (IZR (Zpos m) <= 4503599627370496)%R by (apply IZR_le; lia).
        apply Rmult_le_reg_r with 4503599627370496%R; [lra|]. field_simplify. lra.
    + rewrite Hone. cbn [nonNegative finite mantissa53 notMinusZero].
      repeat split; try lia; lra.
    + cbn [nonNegative finite mantissa53 notMinusZero]. repeat split; try tauto.
      unfold B2R. cbn [cond_Zopp].
      assert (Hp : (powerRZ 2 e <= powerRZ 2 (-53))%R) by (apply powerRZ2_le; lia).
      assert (Hmr : (IZR (Zpos m) <= IZR (2 ^ 53))%R) by (apply IZR_le; lia).
      rewrite IZR_pow2 in Hmr by lia.
      assert (Hpe := powerRZ2_pos e).
      assert (H1 : (powerRZ 2 53 * powerRZ 2 (-53) = 1)%R).
      { rewrite <- powerRZ2_add. reflexivity. }
      assert (Hp53 := powerRZ2_pos 53).
      apply Rle_trans with (powerRZ 2 53 * powerRZ 2 (-53))%R; [|lra].
      apply Rmult_le_compat; try lra. apply IZR_le. lia.
Qed.

Local Open Scope R_scope.

Lemma u64_le_1 : u64 <= 1.
Proof. unfold u64. change 1 with (powerRZ 2 0). apply powerRZ2_le. lia. Qed.

Lemma eta64_le_u64 : eta64 <= u64.
Proof. apply powerRZ2_le. lia. Qed.

Lemma u64_small : u64 <= / 1000000.
Proof.
  unfold u64. rewrite powerRZ2_Zneg. change (2 ^ 52)%Z with 4503599627370496%Z.
  apply Rinv_le_contravar; lra.
Qed.

Lemma shl_align_value (m : positive) (e e' : Z) :
  IZR (Zpos (fst (shl_align m e e'))) * powerRZ 2 (snd (shl_align m e e'))
  = IZR (Zpos m) * powerRZ 2 e.
Proof.
  destruct (shl_align_spec m e e') as [Hm He]. rewrite Hm, He.
  set (k := Z.max 0 (e - e')). assert (Hk : (0 <= k)%Z) by (subst k; lia).
  rewrite mult_IZR, IZR_pow2 by assumption.
  rewrite Rmult_assoc, <- powerRZ2_add. f_equal. f_equal. lia.
Qed.

Lemma powerRZ_4096 : powerRZ 2 12 = 4096.
Proof. simpl. lra. Qed.

(** Rounding the exact positive value [p * 2^e], of moderate size. *)
Lemma round_exact_value (p : positive) (e : Z) :
  let v := IZR (Zpos p) * powerRZ 2 e in
  v <= 1024 ->
  let r := binary_round_aux 53 1024 false (Zpos p) e loc_Exact in
  nonNegative r /\ notMinusZero r /\ finite r /\ mantissa53 r
  /\ B2R r <= v + v * u64 + eta64
  /\ ((53 <= Zpos (digits2_pos p))%Z -> normalized r).
Proof.
  intros v Hv r. subst r. rewrite binary_round_aux_roundME.
  destruct (roundME_spec (Zpos p) e loc_Exact ltac:(lia)) as [Hb [_ [_ [_ Hn]]]].
  pose proof (roundME_value (Zpos p) e ltac:(lia)) as Hval. fold v in Hval.
  cbv zeta in Hval, Hb, Hn.
  assert (Hvpos : 0 < v) by (apply Rmult_lt_0_compat; [now apply IZR_lt | apply powerRZ2_pos]).
  assert (Hu := u64_le_1). assert (Hupos : 0 < u64) by apply powerRZ2_pos.
  assert (Heta := eta64_le_u64). assert (Hepos : 0 < eta64) by apply powerRZ2_pos.
  assert (Hvu0 : 0 <= v * u64) by (apply Rmult_le_pos; lra).
  destruct (fst (roundME (Zpos p) e loc_Exact)) as [|m2|m2]; [| |lia].
  - cbn [nonNegative notMinusZero finite mantissa53 normalized B2R].
    repeat split; try tauto. lra.
  - set (e2 := snd (roundME (Zpos p) e loc_Exact)) in *.
    assert (He2 : (e2 < 12)%Z).
    { apply powerRZ2_lt_inv. rewrite powerRZ_4096.
      assert (Hm2 : 1 <= IZR (Zpos m2)) by (apply IZR_le; lia).
      assert (Hpe := powerRZ2_pos e2).
      assert (Hvu : v * u64 <= 1024) by nra.
      assert (Hlow : powerRZ 2 e2 <= IZR (Zpos m2) * powerRZ 2 e2) by nra.
      lra. }
    assert (Hle : (e2 <=? 971)%Z = true) by (apply Z.leb_le; lia).
    rewrite Hle. cbn [nonNegative notMinusZero finite mantissa53 normalized B2R cond_Zopp].
    repeat split; try tauto; try lia; try exact Hval.
    intros Hd. apply Hn; [exact Hd | lia].
Qed.

(** Products of non-negative finite numbers. *)
Lemma mul_value (x y : Num.number) :
  nonNegative x -> finite x -> nonNegative y -> finite y ->
  B2R x * B2R y <= 1024 ->
  let r := Num.mul x y in
  nonNegative r /\ finite r /\ mantissa53 r
  /\ B2R r <= B2R x * B2R y + B2R x * B2R y * u64 + eta64
  /\ (notMinusZero x -> notMinusZero y -> notMinusZero r)
  /\ (match y with S754_finite _ my _ => (2 ^ 52 <= Zpos my)%Z | _ => False end ->
      normalized r).
Proof.
  assert (Hepos : 0 < eta64) by apply powerRZ2_pos.
  destruct x as [[|]|[|]| |[|] mx ex]; destruct y as [[|]|[|]| |[|] my ey];
    cbn [nonNegative finite]; try tauto; intros _ _ _ _ Hv;
    try (cbn [Num.mul SFmul xorb nonNegative finite mantissa53 notMinusZero normalized B2R];
         repeat split; try tauto; rewrite ?Rmult_0_l, ?Rmult_0_r, ?Rplus_0_l; lra).
  unfold Num.mul, SFmul, Num.prec, Num.emax. cbn [xorb].
  assert (Hprod : B2R (S754_finite false mx ex) * B2R (S754_finite false my ey)
                  = IZR (Zpos (mx * my)) * powerRZ 2 (ex + ey)).
  { unfold B2R. cbn [cond_Zopp]. rewrite Pos2Z.inj_mul, mult_IZR, powerRZ2_add. ring. }
  rewrite Hprod in *.
  destruct (round_exact_value (mx * my) (ex + ey) Hv) as [H1 [H2 [H3 [H4 [H5 H6]]]]].
  split; [assumption|]. split; [assumption|]. split; [assumption|].
  split; [assumption|]. split; [intros _ _; assumption|].
  intros Hbig. apply H6.
  change (Zpos (digits2_pos (mx * my))) with (Zdigits2 (Zpos (mx * my))).
  apply (Zdigits2_lower _ 52); [lia|]. rewrite Pos2Z.inj_mul.
  assert (1 <= Zpos mx)%Z by lia. nia.
Qed.

(** Sums of non-negative finite numbers. *)
Lemma add_value (x y : Num.number) :
  nonNegative x -> finite x -> mantissa53 x ->
  nonNegative y -> finite y -> mantissa53 y -> notMinusZero y ->
  B2R x + B2R y <= 1024 ->
  let r := Num.add x y in
  nonNegative r /\ finite r /\ mantissa53 r /\ notMinusZero r
  /\ B2R r <= (B2R x + B2R y) + (B2R x + B2R y) * u64 + eta64.
Proof.
  assert (Hepos : 0 < eta64) by apply powerRZ2_pos.
  assert (Hupos : 0 < u64) by apply powerRZ2_pos.
  destruct x as [[|]|[|]| |[|] mx ex]; destruct y as [[|]|[|]| |[|] my ey];
    cbn [nonNegative finite notMinusZero mantissa53]; try tauto;
    intros _ _ Hmx _ _ Hmy Hy Hv.
  all: try (assert (Hpos : 0 < B2R (S754_finite false my ey))
              by (apply Rmult_lt_0_compat; [now apply IZR_lt | apply powerRZ2_pos])).
  all: try (assert (Hposx : 0 < B2R (S754_finite false mx ex))
              by (apply Rmult_lt_0_compat; [now apply IZR_lt | apply powerRZ2_pos])).
  all: try (unfold Num.add, SFadd;
            cbn [nonNegative finite mantissa53 notMinusZero];
            repeat split; try tauto;
            change (B2R (S754_zero true)) with 0; change (B2R (S754_zero false)) with 0;
            nra).
  unfold Num.add, SFadd, Num.prec, Num.emax. cbn [cond_Zopp].
  set (ez := Z.min ex ey).
  pose proof (shl_align_value mx ex ez) as Hax.
  pose proof (shl_align_value my ey ez) as Hay.
  destruct (shl_align_spec mx ex ez) as [_ Hex].
  destruct (shl_align_spec my ey ez) as [_ Hey].
  destruct (shl_align mx ex ez) as [ax ex'].
  destruct (shl_align my ey ez) as [ay ey'].
  cbn [fst snd] in *.
  assert (Eex : ex' = ez) by (subst ez; lia).
  assert (Eey : ey' = ez) by (subst ez; lia).
  subst ex' ey'.
  rewrite <- Pos2Z.inj_add. unfold binary_normalize, binary_round.
  pose proof (shl_align_value (ax + ay) ez
                (fexp 53 1024 (Zpos (digits2_pos (ax + ay)) + ez))) as Hsum.
  destruct (shl_align (ax + ay) ez _) as [mz ez']. cbn [fst snd] in Hsum.
  assert (Hexact : IZR (Zpos mz) * powerRZ 2 ez'
                   = B2R (S754_finite false mx ex) + B2R (S754_finite false my ey)).
  { rewrite Hsum. cbn [B2R cond_Zopp]. rewrite Eex in Hax. rewrite Eey in Hay.
    rewrite <- Hax, <- Hay.
    rewrite Pos2Z.inj_add, plus_IZR. ring. }
  rewrite <- Hexact in *.
  destruct (round_exact_value mz ez' Hv) as [H1 [H2 [H3 [H4 [H5 _]]]]].
  repeat split; assumption.
Qed.

Lemma B2R_nonneg (x : Num.number) : nonNegative x -> 0 <= B2R x.
Proof.
  destruct x as [s|s| |[|] m e]; cbn [nonNegative B2R cond_Zopp]; try tauto; try lra.
  intros _. apply Rmult_le_pos; [apply IZR_le; lia | left; apply powerRZ2_pos].
Qed.

(** One rounding above a bounded value. *)
Lemma rounded_le (r v V : R) :
  0 <= v -> v <= V -> r <= v + v * u64 + eta64 ->
  r <= V + V / 1000000 + / 1000000.
Proof.
  intros Hv0 HvV Hr.
  assert (Hu := u64_small). assert (Hupos : 0 < u64) by apply powerRZ2_pos.
  assert (Heta := eta64_le_u64).
  assert (Hvu : v * u64 <= V * / 1000000).
  { apply Rmult_le_compat; lra. }
  lra.
Qed.

(** [Math.round] of a number known to lie in [0, 100.4]. *)
Lemma round_range (t : Num.number) :
  nonNegative t -> finite t -> notMinusZero t -> normalized t ->
  B2R t <= 1004 / 10 ->
  exists z : Z, (0 <= z <= 100)%Z /\ Num.round t = Num.ofZ z.
Proof.
  destruct t as [[|]|[|]| |[|] m e]; cbn [nonNegative finite notMinusZero normalized];
    try tauto; intros _ _ _ Hn Hv.
  - exists 0%Z. split; [lia | reflexivity].
  - cbn [B2R cond_Zopp] in Hv.
    assert (He : (e < 0)%Z).
    { destruct (Z_lt_le_dec e 0) as [|He0]; [assumption|exfalso].
      destruct Hn as [Hn|Hn]; [|lia].
      assert (H1 : 1 <= powerRZ 2 e).
      { rewrite <- (powerRZ_O 2). apply powerRZ2_le. lia. }
      assert (H2 : IZR (2 ^ 52) <= IZR (Zpos m)) by (apply IZR_le; exact Hn).
      change (2 ^ 52)%Z with 4503599627370496%Z in H2. nra. }
    unfold Num.round.
    assert (Hneg : (0 <=? e)%Z = false) by (apply Z.leb_gt; exact He).
    rewrite Hneg. cbn [cond_Zopp].
    destruct e as [|pe|pe]; try lia.
    rewrite powerRZ2_Zneg in Hv. change (- Zneg pe)%Z with (Zpos pe).
    set (d := (2 ^ Zpos pe)%Z) in *.
    assert (Hd : (0 < d)%Z) by (subst d; apply pow2_pos; lia).
    assert (Hdr : 0 < IZR d) by (apply IZR_lt; exact Hd).
    assert (Hz : (10 * Zpos m <= 1004 * d)%Z).
    { apply le_IZR. rewrite !mult_IZR.
      apply Rmult_le_compat_r with (r := IZR d) in Hv; [|lra].
      replace (IZR (Zpos m) * / IZR d * IZR d) with (IZR (Zpos m)) in Hv by (field; lra).
      lra. }
    set (n := ((2 * Zpos m + d) / (2 * d))%Z).
    assert (Hn0 : (0 <= n)%Z) by (subst n; apply Z.div_pos; lia).
    assert (Hn100 : (n <= 100)%Z).
    { subst n. apply Z.lt_succ_r. apply Z.div_lt_upper_bound; lia. }
    exists n. split; [lia|].
    destruct (Z.eqb_spec n 0) as [->|]; reflexivity.
Qed.

Lemma Forall_firstn_of {A} (P : A -> Prop) (n : nat) (l : list A) :
  Forall P l -> Forall P (firstn n l).
Proof.
  intros H. revert n. induction H as [|x l Hx Hl IH]; intros [|n]; simpl; constructor; auto.
Qed.

Lemma lit_0_6_value : B2R Num.lit_0_6 <= 6 / 10.
Proof.
  change Num.lit_0_6 with (S754_finite false 5404319552844595 (-53)).
  cbn [B2R cond_Zopp]. rewrite powerRZ2_Zneg.
  change (2 ^ 53)%Z with 9007199254740992%Z. lra.
Qed.

Lemma lit_0_4_value : B2R Num.lit_0_4 <= 4001 / 10000.
Proof.
  change Num.lit_0_4 with (S754_finite false 7205759403792794 (-54)).
  cbn [B2R cond_Zopp]. rewrite powerRZ2_Zneg.
  change (2 ^ 54)%Z with 18014398509481984%Z. lra.
Qed.

Lemma hundred_value : B2R (Num.ofZ 100) = 100.
Proof.
  change (Num.ofZ 100) with (S754_finite false 7036874417766400 (-46)).
  cbn [B2R cond_Zopp]. rewrite powerRZ2_Zneg.
  change (2 ^ 46)%Z with 70368744177664%Z. lra.
Qed.

(** The popularity and volume terms of the score. *)
Lemma unit_term (x : Num.number) (n : Z) :
  nonNegative x -> (0 < n < 2 ^ 53)%Z ->
  let r := Num.min (Num.ofZ 1) (Num.div x (Num.ofZ n)) in
  nonNegative r /\ finite r /\ mantissa53 r /\ 0 <= B2R r <= 1
  /\ (notMinusZero x -> notMinusZero r).
Proof.
  intros Hx Hn r. subst r.
  destruct (ofZ_pos n Hn) as [m [k [-> _]]].
  destruct (div_nonNegative x m (- k) Hx) as [H1 [H2 H3]].
  destruct (min_one _ H1 H2) as [G1 [G2 [G3 [G4 G5]]]].
  repeat split; try assumption.
  - now apply B2R_nonneg.
  - intros Hz. apply G5. now apply H3.
Qed.

Lemma averageSaves_nonNegative (top : list Pin) :
  Forall (fun p => Num.ltb (saves p) (Num.ofZ 0) = false) top ->
  (List.length top <= 20)%nat ->
  let avgSaves :=
    match List.length top with
    | O => Num.ofZ 0
    | S _ => Num.div (sumSaves top) (Num.ofNat (List.length top))
    end in
  nonNegative avgSaves /\ notMinusZero avgSaves.
Proof.
  intros Hall Hlen avgSaves. subst avgSaves.
  destruct (List.length top) as [|n] eqn:Hn; [cbn; tauto|].
  destruct (sumSaves_nonNegative top Hall) as [Hs1 Hs2].
  unfold Num.ofNat.
  destruct (ofZ_pos (Z.of_nat (S n))) as [m [k [-> _]]].
  { split; [lia|]. apply Z.lt_trans with 21%Z; [lia|reflexivity]. }
  destruct (div_nonNegative (sumSaves top) m (- k) Hs1) as [H1 [_ H3]].
  split; [exact H1 | now apply H3].
Qed.

(** The score is an integer between 0 and 100. *)
Lemma computeKD_range (pins : list Pin) (loadedCount : Num.number) :
  Forall (fun p => Num.ltb (saves p) (Num.ofZ 0) = false) pins ->
  Num.leb (Num.ofZ 0) loadedCount = true ->
  exists z : Z, (0 <= z <= 100)%Z /\ computeKD pins loadedCount = Num.ofZ z.
Proof.
  intros Hall Hlc. unfold computeKD.
  set (top := firstn 20 pins).
  assert (Htop : Forall (fun p => Num.ltb (saves p) (Num.ofZ 0) = false) top)
    by now apply Forall_firstn_of.
  assert (Hlen : (List.length top <= 20)%nat) by apply firstn_le_length.
  destruct (averageSaves_nonNegative top Htop Hlen) as [Ha1 Ha2].
  set (avgSaves := match List.length top with
                   | O => Num.ofZ 0
                   | S _ => Num.div (sumSaves top) (Num.ofNat (List.length top))
                   end) in *.
  destruct (unit_term avgSaves 500 Ha1 ltac:(lia)) as [P1 [P2 [P3 [P4 P5]]]].
  specialize (P5 Ha2).
  set (pop := Num.min (Num.ofZ 1) (Num.div avgSaves (Num.ofZ 500))) in *.
  apply leb_zero_nonNegative in Hlc.
  destruct (unit_term loadedCount 1000 Hlc ltac:(lia)) as [C1 [C2 [C3 [C4 _]]]].
  set (comp := Num.min (Num.ofZ 1) (Num.div loadedCount (Num.ofZ 1000))) in *.
  assert (L6 := lit_0_6_value). assert (L4 := lit_0_4_value).
  assert (N6 : nonNegative Num.lit_0_6 /\ finite Num.lit_0_6) by (cbn; tauto).
  assert (N4 : nonNegative Num.lit_0_4 /\ finite Num.lit_0_4 /\ notMinusZero Num.lit_0_4)
    by (cbn; tauto).
  assert (V6 := B2R_nonneg _ (proj1 N6)). assert (V4 := B2R_nonneg _ (proj1 N4)).
  (* 0.6 * comp *)
  assert (HvA : B2R Num.lit_0_6 * B2R comp <= 6 / 10) by nra.
  destruct (mul_value Num.lit_0_6 comp (proj1 N6) (proj2 N6) C1 C2 ltac:(lra))
    as [A1 [A2 [A3 [A4 _]]]].
  apply (rounded_le _ _ (6 / 10)) in A4; [|nra|exact HvA].
  set (a := Num.mul Num.lit_0_6 comp) in *.
  (* 0.4 * pop *)
  assert (HvB : B2R Num.lit_0_4 * B2R pop <= 4001 / 10000) by nra.
  destruct (mul_value Num.lit_0_4 pop (proj1 N4) (proj1 (proj2 N4)) P1 P2 ltac:(lra))
    as [B1 [B2 [B3 [B4 [B5 _]]]]].
  specialize (B5 (proj2 (proj2 N4)) P5).
  apply (rounded_le _ _ (4001 / 10000)) in B4; [|nra|exact HvB].
  set (b := Num.mul Num.lit_0_4 pop) in *.
  (* the sum *)
  assert (Va := B2R_nonneg _ A1). assert (Vb := B2R_nonneg _ B1).
  destruct (add_value a b A1 A2 A3 B1 B2 B3 B5 ltac:(lra)) as [S1 [S2 [S3 [S4 S5]]]].
  apply (rounded_le _ _ (10002 / 10000)) in S5; [|lra|lra].
  set (s := Num.add a b) in *.
  (* times 100 *)
  assert (Vs := B2R_nonneg _ S1). assert (H100 := hundred_value).
  assert (N100 : nonNegative (Num.ofZ 100) /\ finite (Num.ofZ 100)
                 /\ notMinusZero (Num.ofZ 100)) by (cbn; tauto).
  destruct (mul_value s (Num.ofZ 100) S1 S2 (proj1 N100) (proj1 (proj2 N100))
              ltac:(rewrite H100; lra)) as [T1 [T2 [T3 [T4 [T5 T6]]]]].
  specialize (T5 S4 (proj2 (proj2 N100))).
  assert (T6' : normalized (Num.mul s (Num.ofZ 100))).
  { apply T6. change (Num.ofZ 100) with (S754_finite false 7036874417766400 (-46)).
    cbn. lia. }
  rewrite H100 in T4.
  apply (rounded_le _ _ (1003 / 10)) in T4; [|lra|lra].
  apply round_range; try assumption. lra.
Qed.

Local Close Scope R_scope.

(** ** The orchestrator and the browser *)

Section Effects.

Variable h : Host.

Lemma call_spec (a : action) (w : World) :
  exists w',
    cache w' = cache w /\ browser w' = browser w /\ clock w <= clock w'
    /\ trace w' = trace w ++ [mkEvent a (rejects h (List.length (trace w)) a)]
    /\ call h a w =
       (match rejects h (List.length (trace w)) a with
        | None => Returned (List.length (trace w))
        | Some e => Thrown e
        end, w').
Proof.
  unfold call.
  exists {| cache := cache w;
            browser := browser w;
            clock := clock w + Z.of_N (elapsed h (List.length (trace w)));
            trace := trace w ++ [mkEvent a (rejects h (List.length (trace w)) a)] |}.
  cbn [cache browser clock trace].
  repeat split; [lia|]. now destruct (rejects h (List.length (trace w)) a).
Qed.

Lemma perform_spec (a : action) (w : World) :
  exists w',
    cache w' = cache w /\ browser w' = browser w /\ clock w <= clock w'
    /\ trace w' = trace w ++ [mkEvent a (rejects h (List.length (trace w)) a)]
    /\ perform h a w =
       (match rejects h (List.length (trace w)) a with
        | None => Returned tt
        | Some e => Thrown e
        end, w').
Proof.
  destruct (call_spec a w) as [w' [Hc [Hb [Hk [Ht Heq]]]]].
  exists w'. repeat split; try assumption.
  unfold perform, bind. rewrite Heq. now destruct (rejects h (List.length (trace w)) a).
Qed.

Lemma browserOnly_ret {A} (allowed : action -> Prop) (a : A) : browserOnly allowed (ret a).
Proof.
  intros w r w' [= <- <-]. repeat split; try lia.
  exists []. rewrite app_nil_r. repeat split; constructor.
Qed.

Lemma browserOnly_call (allowed : action -> Prop) (a : action) :
  allowed a -> browserOnly allowed (call h a).
Proof.
  intros Ha w r w' Hrun.
  destruct (call_spec a w) as [w1 [Hc [Hb [Hk [Ht Heq]]]]].
  rewrite Heq in Hrun. injection Hrun as <- <-.
  repeat split; try assumption.
  eexists. split; [exact Ht|]. split; [constructor; [exact Ha|constructor]|].
  destruct (rejects h (List.length (trace w)) a) as [e|]; cbn.
  - exists [], a, []. split; [reflexivity|]. split; [left|]; constructor.
  - constructor; [reflexivity|constructor].
Qed.

Lemma logOf_app {A B} (r : Outcome B) (evs1 evs2 : list Event) (a : A) :
  logOf (Returned a) evs1 -> logOf r evs2 -> logOf r (evs1 ++ evs2).
Proof.
  intros H1 H2. destruct r as [b|e|]; cbn in *.
  - apply Forall_app. now split.
  - destruct H2 as [pre [x [post [-> [Hpre Hpost]]]]].
    exists (evs1 ++ pre), x, post. rewrite <- app_assoc.
    split; [reflexivity|]. split; [|assumption].
    destruct Hpre as [Hpre|[pre' [e1 [-> [Hpre' Hx]]]]].
    + left. apply Forall_app. now split.
    + right. exists (evs1 ++ pre'), e1. rewrite <- app_assoc.
      split; [reflexivity|]. split; [apply Forall_app; now split | exact Hx].
  - apply Forall_app. now split.
Qed.

Lemma browserOnly_bind {A B} (allowed : action -> Prop) (m : M A) (k : A -> M B) :
  browserOnly allowed m -> (forall a, browserOnly allowed (k a)) ->
  browserOnly allowed (bind m k).
Proof.
  intros Hm Hk w r w' Hrun. unfold bind in Hrun.
  destruct (m w) as [r1 w1] eqn:Em.
  destruct (Hm _ _ _ Em) as [Hc [Hb [Hcl [evs1 [Ht [Hal Hlog]]]]]].
  destruct r1 as [a|e|].
  - destruct (Hk a _ _ _ Hrun) as [Hc2 [Hb2 [Hcl2 [evs2 [Ht2 [Hal2 Hlog2]]]]]].
    repeat split; try congruence; try lia.
    exists (evs1 ++ evs2). split; [rewrite Ht2, Ht; symmetry; apply app_assoc|].
    split; [apply Forall_app; now split|].
    eapply logOf_app; eassumption.
  - injection Hrun as <- <-. repeat split; try assumption.
    exists evs1. repeat split; assumption.
  - injection Hrun as <- <-. repeat split; try assumption.
    exists evs1. repeat split; assumption.
Qed.

Lemma browserOnly_perform (allowed : action -> Prop) (a : action) :
  allowed a -> browserOnly allowed (perform h a).
Proof.
  intros Ha. apply browserOnly_bind; [now apply browserOnly_call|].
  intros _. apply browserOnly_ret.
Qed.

Lemma browserOnly_weaken {A} (P Q : action -> Prop) (m : M A) :
  (forall a, P a -> Q a) -> browserOnly P m -> browserOnly Q m.
Proof.
  intros HPQ Hm w r w' Hrun.
  destruct (Hm _ _ _ Hrun) as [Hc [Hb [Hcl [evs [Ht [Hal Hlog]]]]]].
  repeat split; try assumption. exists evs. repeat split; try assumption.
  eapply Forall_impl; [|exact Hal]. intros ev. apply HPQ.
Qed.

Lemma inBodyNoScroll_inBody (a : action) : inBodyNoScroll a -> inBody a.
Proof. now intros [H _]. Qed.

Lemma clickAndWait_browserOnly : browserOnly inBodyNoScroll (clickAndWait h).
Proof.
  intros w r w' Hrun. unfold clickAndWait in Hrun.
  set (n := List.length (trace w)) in *.
  assert (Hal : forall x y,
            Forall (fun ev => inBodyNoScroll (act ev))
              [mkEvent (Click submitButton) x;
               mkEvent (WaitForLoadState "networkidle") y]).
  { intros x y. repeat constructor. }
  pose proof (N2Z.is_nonneg (elapsed h n)) as Ht1.
  pose proof (N2Z.is_nonneg (elapsed h (S n))) as Ht2.
  destruct (rejects h n (Click submitButton)) as [e1|];
    destruct (rejects h (S n) (WaitForLoadState "networkidle")) as [e2|].
  - destruct (Z.of_N (elapsed h (S n)) <? Z.of_N (elapsed h n));
      injection Hrun as <- <-; cbn [cache browser clock trace];
      (split; [reflexivity|]); (split; [reflexivity|]); (split; [lia|]);
      (eexists; split; [reflexivity|]; split; [apply Hal|]); cbn [logOf].
    + exists [mkEvent (Click submitButton) (Some e1)],
             (WaitForLoadState "networkidle"), [].
      split; [reflexivity|]. split; [|constructor].
      right. exists [], e1. repeat split. constructor.
    + exists [], (Click submitButton),
             [mkEvent (WaitForLoadState "networkidle") (Some e2)].
      split; [reflexivity|]. split; [left; constructor | repeat constructor].
  - injection Hrun as <- <-; cbn [cache browser clock trace].
    split; [reflexivity|]. split; [reflexivity|]. split; [lia|].
    eexists. split; [reflexivity|]. split; [apply Hal|]. cbn [logOf].
    exists [], (Click submitButton), [mkEvent (WaitForLoadState "networkidle") None].
    split; [reflexivity|]. split; [left; constructor | repeat constructor].
  - injection Hrun as <- <-; cbn [cache browser clock trace].
    split; [reflexivity|]. split; [reflexivity|]. split; [lia|].
    eexists. split; [reflexivity|]. split; [apply Hal|]. cbn [logOf].
    exists [mkEvent (Click submitButton) None], (WaitForLoadState "networkidle"), [].
    split; [reflexivity|]. split; [left; repeat constructor | constructor].
  - injection Hrun as <- <-; cbn [cache browser clock trace].
    split; [reflexivity|]. split; [reflexivity|]. split; [lia|].
    eexists. split; [reflexivity|]. split; [apply Hal|]. cbn [logOf].
    repeat constructor.
Qed.

Lemma loginSteps_browserOnly (login : bool) : browserOnly inBodyNoScroll (loginSteps h login).
Proof.
  unfold loginSteps. destruct login; [|apply browserOnly_ret].
  destruct (envSet (PIN_EMAIL h)) as [email|]; [|apply browserOnly_ret].
  destruct (envSet (PIN_PASSWORD h)) as [password|]; [|apply browserOnly_ret].
  repeat (apply browserOnly_bind; [apply browserOnly_perform; split; reflexivity | intros _]).
  apply clickAndWait_browserOnly.
Qed.

Lemma scrollLoop_browserOnly (fuel : nat) (i scrolls : Num.number) :
  browserOnly inBody (scrollLoop h fuel i scrolls).
Proof.
  revert i. induction fuel as [|fuel IH]; intros i; cbn [scrollLoop];
    destruct (Num.ltb i scrolls); try apply browserOnly_ret.
  - intros w r w' [= <- <-]. repeat split; try lia.
    exists []. rewrite app_nil_r. repeat split; constructor.
  - apply browserOnly_bind; [apply browserOnly_perform; reflexivity | intros _].
    apply browserOnly_bind; [|intros _; apply IH].
    intros w r w' Hrun.
    refine (browserOnly_perform inBody (WaitForTimeout _) _ _ _ _ Hrun). reflexivity.
Qed.

(** With nothing to scroll the loop is over at once. *)
Lemma scrollLoop_none (fuel : nat) (i scrolls : Num.number) (w : World) :
  Num.ltb i scrolls = false -> scrollLoop h fuel i scrolls w = (Returned tt, w).
Proof. intros Hlt. destruct fuel; cbn [scrollLoop]; now rewrite Hlt. Qed.

Lemma extractPins_browserOnly : browserOnly inBodyNoScroll (extractPins h).
Proof.
  apply browserOnly_bind; [apply browserOnly_call; split; reflexivity|].
  intros n. apply browserOnly_ret.
Qed.

(** Whatever the scroll loop is allowed to call, the whole scrape is, as
    long as that includes the calls made outside the loop. *)
Lemma scrape_browserOnly (P : action -> Prop) fuel q scrolls login :
  (forall a, inBodyNoScroll a -> P a) ->
  browserOnly P (scrollLoop h fuel (Num.ofZ 0) scrolls) ->
  browserOnly P (scrape h fuel q scrolls login).
Proof.
  intros HP Hloop. unfold scrape.
  apply browserOnly_bind;
    [eapply browserOnly_weaken; [exact HP | apply loginSteps_browserOnly] | intros _].
  apply browserOnly_bind;
    [eapply browserOnly_weaken; [exact HP|]; apply browserOnly_perform; split; reflexivity
    | intros _].
  apply browserOnly_bind; [exact Hloop | intros _].
  eapply browserOnly_weaken; [exact HP | apply extractPins_browserOnly].
Qed.

Lemma fetchBody_spec (P : action -> Prop) fuel q scrolls login (w : World) r w1 :
  (forall a, inBodyNoScroll a -> P a) ->
  browserOnly P (scrollLoop h fuel (Num.ofZ 0) scrolls) ->
  fetchBody h fuel q scrolls login w = (r, w1) ->
  browser w1 = browser w /\ clock w <= clock w1
  /\ (exists evs, trace w1 = trace w ++ evs
                  /\ Forall (fun ev => P (act ev)) evs /\ logOf r evs)
  /\ match r with
     | Returned v =>
         exists pins,
           v = Some (assemble q pins)
           /\ cache w1 = LRU.set (clock w1) (cache w) (cacheKey h q scrolls login)
                                 (assemble q pins)
     | _ => cache w1 = cache w
     end.
Proof.
  unfold fetchBody, bind. intros HP Hloop Hrun.
  destruct (scrape h fuel q scrolls login w) as [rs ws] eqn:Es.
  destruct (scrape_browserOnly P fuel q scrolls login HP Hloop _ _ _ Es)
    as [Hc [Hb [Hk [evs [Ht [Hal Hlog]]]]]].
  destruct rs as [pins|e|].
  - unfold cacheSet, ret in Hrun. injection Hrun as <- <-. cbn [browser clock trace cache].
    repeat split; try assumption.
    + exists evs. repeat split; assumption.
    + exists pins. split; [reflexivity|]. now rewrite Hc.
  - injection Hrun as <- <-. repeat split; try assumption.
    exists evs. repeat split; assumption.
  - injection Hrun as <- <-. repeat split; try assumption.
    exists evs. repeat split; assumption.
Qed.

Lemma release_spec (w1 : World) r w2 :
  release h w1 = (r, w2) ->
  cache w2 = cache w1 /\ browser w2 = browser w1 /\ clock w1 <= clock w2
  /\ exists closes, trace w2 = trace w1 ++ closes /\ releaseLog r closes.
Proof.
  unfold release, bind. intros Hrun.
  destruct (perform_spec ClosePage w1) as [wa [Hca [Hba [Hka [Hta Heqa]]]]].
  rewrite Heqa in Hrun.
  destruct (rejects h (List.length (trace w1)) ClosePage) as [e|].
  - injection Hrun as <- <-. repeat split; try assumption.
    eexists. split; [exact Hta|]. right. right. now exists e.
  - destruct (perform_spec CloseContext wa) as [wb [Hcb [Hbb [Hkb [Htb Heqb]]]]].
    rewrite Heqb in Hrun. injection Hrun as <- <-.
    repeat split; try congruence; try lia.
    exists [mkEvent ClosePage None;
            mkEvent CloseContext (rejects h (List.length (trace wa)) CloseContext)].
    split; [rewrite Htb, Hta, <- app_assoc; reflexivity|].
    destruct (rejects h (List.length (trace wa)) CloseContext) as [e|].
    + right. left. now exists e.
    + now left.
Qed.

Lemma tryFinally_spec {A} (body : M A) (cleanup : M unit) (w : World) r w' :
  tryFinally body cleanup w = (r, w') ->
  exists rb wb,
    body w = (rb, wb)
    /\ (rb = Diverged /\ r = Diverged /\ w' = wb
        \/ rb <> Diverged /\ exists rc, cleanup wb = (rc, w') /\ r = afterFinally rb rc).
Proof.
  unfold tryFinally. intros Hrun.
  destruct (body w) as [rb wb]. exists rb, wb. split; [reflexivity|].
  destruct rb as [a|e|].
  - right. split; [discriminate|].
    destruct (cleanup wb) as [rc wc]. exists rc.
    destruct rc; injection Hrun as <- <-; split; reflexivity.
  - right. split; [discriminate|].
    destruct (cleanup wb) as [rc wc]. exists rc.
    destruct rc; injection Hrun as <- <-; split; reflexivity.
  - left. injection Hrun as <- <-. repeat split.
Qed.

Lemma terminates_ret {A} (a : A) : terminates (ret a).
Proof. intros w. discriminate. Qed.

Lemma terminates_bind {A B} (m : M A) (k : A -> M B) :
  terminates m -> (forall a, terminates (k a)) -> terminates (bind m k).
Proof.
  intros Hm Hk w. unfold bind. specialize (Hm w).
  destruct (m w) as [[a|e|] w1]; cbn [fst] in *; [apply Hk|discriminate|congruence].
Qed.

Lemma terminates_call (a : action) : terminates (call h a).
Proof.
  intros w. destruct (call_spec a w) as [w' [_ [_ [_ [_ ->]]]]].
  now destruct (rejects h (List.length (trace w)) a).
Qed.

Lemma terminates_perform (a : action) : terminates (perform h a).
Proof. apply terminates_bind; [apply terminates_call | intros; apply terminates_ret]. Qed.

Lemma terminates_tryFinally {A} (body : M A) (cleanup : M unit) :
  terminates body -> terminates cleanup -> terminates (tryFinally body cleanup).
Proof.
  intros Hb Hc w. unfold tryFinally. specialize (Hb w).
  destruct (body w) as [[a|e|] w1]; cbn [fst] in *; try congruence;
    specialize (Hc w1); destruct (cleanup w1) as [[u|e'|] w2]; cbn [fst] in *;
    congruence.
Qed.

Lemma terminates_clickAndWait : terminates (clickAndWait h).
Proof.
  intros w. unfold clickAndWait.
  destruct (rejects h (List.length (trace w)) (Click submitButton));
    destruct (rejects h (S (List.length (trace w))) (WaitForLoadState "networkidle"));
    try destruct (_ <? _); discriminate.
Qed.

Lemma terminates_loginSteps (login : bool) : terminates (loginSteps h login).
Proof.
  unfold loginSteps. destruct login; [|apply terminates_ret].
  destruct (envSet (PIN_EMAIL h)); [|apply terminates_ret].
  destruct (envSet (PIN_PASSWORD h)); [|apply terminates_ret].
  repeat (apply terminates_bind; [apply terminates_perform | intros _]).
  apply terminates_clickAndWait.
Qed.

(** Counting up from an integer below ten stays on the integers. *)
Lemma add_one_small (k : nat) :
  (k < 10)%nat -> Num.add (Num.ofNat k) (Num.ofZ 1) = Num.ofNat (S k).
Proof.
  intros Hk. do 10 (destruct k as [|k]; [reflexivity|]). lia.
Qed.

(** The loop runs at most [10 - k] more times from [i = k] when [scrolls]
    is not above ten. *)
Lemma terminates_scrollLoop_from (scrolls : Num.number) (n k fuel : nat) :
  Num.ltb (Num.ofZ 10) scrolls = false ->
  (k + n = 10)%nat -> (n <= fuel)%nat ->
  terminates (scrollLoop h fuel (Num.ofNat k) scrolls).
Proof.
  intros Hten. revert k fuel. induction n as [|n IH]; intros k fuel Hk Hfuel.
  - assert (k = 10%nat) by lia. subst k. intros w.
    rewrite scrollLoop_none; [discriminate | exact Hten].
  - destruct fuel as [|fuel]; [lia|]. cbn [scrollLoop].
    destruct (Num.ltb (Num.ofNat k) scrolls); [|apply terminates_ret].
    apply terminates_bind; [apply terminates_perform | intros _].
    apply terminates_bind.
    + intros w. apply (terminates_perform (WaitForTimeout _) w).
    + intros _. rewrite add_one_small by lia. apply IH; lia.
Qed.

Lemma terminates_scrape fuel q scrolls login :
  Num.ltb (Num.ofZ 10) scrolls = false -> (10 <= fuel)%nat ->
  terminates (scrape h fuel q scrolls login).
Proof.
  intros Hten Hfuel. unfold scrape.
  apply terminates_bind; [apply terminates_loginSteps | intros _].
  apply terminates_bind; [apply terminates_perform | intros _].
  apply terminates_bind;
    [exact (terminates_scrollLoop_from scrolls 10 0 fuel Hten eq_refl Hfuel) | intros _].
  apply terminates_bind; [apply terminates_call | intros; apply terminates_ret].
Qed.

Lemma terminates_getBrowser : terminates (getBrowser h).
Proof.
  intros w. unfold getBrowser. destruct (browser w); [discriminate|].
  pose proof (terminates_perform Launch w) as H.
  destruct (perform h Launch w) as [[u|e|] w1]; cbn [fst] in *; congruence.
Qed.

Lemma terminates_fetch fuel q scrolls login :
  Num.ltb (Num.ofZ 10) scrolls = false -> (10 <= fuel)%nat ->
  terminates (fetch h fuel q scrolls login).
Proof.
  intros Hten Hfuel. unfold fetch.
  apply terminates_bind; [apply terminates_getBrowser | intros _].
  apply terminates_bind; [apply terminates_perform | intros _].
  apply terminates_bind; [apply terminates_perform | intros _].
  apply terminates_tryFinally.
  - unfold fetchBody. apply terminates_bind; [now apply terminates_scrape | intros pins].
    apply terminates_bind; [intros w; discriminate | intros; apply terminates_ret].
  - unfold release. apply terminates_bind; [apply terminates_perform | intros _].
    apply terminates_perform.
Qed.

Lemma terminates_pinterestSearch fuel q scrolls login :
  Num.ltb (Num.ofZ 10) scrolls = false -> (10 <= fuel)%nat ->
  terminates (pinterestSearch h fuel q scrolls login).
Proof.
  intros Hten Hfuel w. unfold pinterestSearch.
  destruct (LRU.has _ _ _); [|now apply terminates_fetch].
  destruct (LRU.get _ _ _). discriminate.
Qed.

Lemma getBrowser_spec (w : World) r w1 :
  getBrowser h w = (r, w1) ->
  cache w1 = cache w /\ clock w <= clock w1
  /\ exists x,
       (browser w = true /\ x = [] /\ r = Returned tt
        \/ browser w = false /\ x = [mkEvent Launch None] /\ r = Returned tt
        \/ exists e, browser w = false /\ x = [mkEvent Launch (Some e)] /\ r = Thrown e)
       /\ trace w1 = trace w ++ x.
Proof.
  unfold getBrowser. intros Hrun. destruct (browser w) eqn:Hb.
  - injection Hrun as <- <-. repeat split; try lia.
    exists []. split; [now left | now rewrite app_nil_r].
  - destruct (perform_spec Launch w) as [wa [Hca [_ [Hka [Hta Heqa]]]]].
    rewrite Heqa in Hrun.
    destruct (rejects h (List.length (trace w)) Launch) as [e|].
    + injection Hrun as <- <-. repeat split; try assumption.
      eexists. split; [|exact Hta]. right. right. now exists e.
    + injection Hrun as <- <-. cbn [cache clock trace]. repeat split; try assumption.
      eexists. split; [|exact Hta]. right. now left.
Qed.

(** The two ways a cache-miss fetch goes: the page is never acquired, or
    the [try] runs and the [finally] after it. *)
Lemma fetch_spec fuel q scrolls login (w : World) r w' :
  fetch h fuel q scrolls login w = (r, w') ->
  exists acq,
    Forall (fun ev => isAcquire (act ev) = true) acq
    /\ ((exists pre a e,
           acq = pre ++ [mkEvent a (Some e)] /\ Forall resolved pre
           /\ r = Thrown e /\ trace w' = trace w ++ acq /\ cache w' = cache w)
        \/ (Forall resolved acq
            /\ In (mkEvent NewPage None) acq
            /\ exists w0 rb wb,
                 trace w0 = trace w ++ acq /\ cache w0 = cache w /\ clock w <= clock w0
                 /\ fetchBody h fuel q scrolls login w0 = (rb, wb)
                 /\ (rb = Diverged /\ r = Diverged /\ w' = wb
                     \/ rb <> Diverged
                        /\ exists rc, release h wb = (rc, w')
                                      /\ r = afterFinally rb rc))).
Proof.
  unfold fetch, bind. intros Hrun.
  destruct (getBrowser h w) as [r1 w1] eqn:E1.
  destruct (getBrowser_spec _ _ _ E1) as [Hc1 [Hk1 [x [Hx Ht1]]]].
  assert (Hxa : Forall (fun ev => isAcquire (act ev) = true) x).
  { destruct Hx as [[_ [-> _]]|[[_ [-> _]]|[e [_ [-> _]]]]]; repeat constructor. }
  destruct r1 as [u|e|].
  2:{ injection Hrun as <- <-.
      destruct Hx as [[_ [_ Hr]]|[[_ [_ Hr]]|[e' [_ [-> Hr]]]]]; try discriminate.
      injection Hr as <-.
      exists [mkEvent Launch (Some e)]. split; [assumption|]. left.
      exists [], Launch, e. repeat split; try assumption. constructor. }
  2:{ destruct Hx as [[_ [_ Hr]]|[[_ [_ Hr]]|[e' [_ [_ Hr]]]]]; discriminate. }
  assert (Hxr : Forall resolved x).
  { destruct Hx as [[_ [-> _]]|[[_ [-> _]]|[e [_ [_ Hr]]]]];
      [constructor | repeat constructor | discriminate]. }
  destruct (perform_spec NewContext w1) as [w2 [Hc2 [_ [Hk2 [Ht2 Heq2]]]]].
  rewrite Heq2 in Hrun.
  destruct (rejects h (List.length (trace w1)) NewContext) as [e|].
  { injection Hrun as <- <-.
    exists (x ++ [mkEvent NewContext (Some e)]). split.
    - apply Forall_app. split; [assumption | repeat constructor].
    - left. exists x, NewContext, e. repeat split; try assumption; try congruence.
      rewrite Ht2, Ht1. symmetry. apply app_assoc. }
  destruct (perform_spec NewPage w2) as [w3 [Hc3 [_ [Hk3 [Ht3 Heq3]]]]].
  rewrite Heq3 in Hrun.
  destruct (rejects h (List.length (trace w2)) NewPage) as [e|].
  { injection Hrun as <- <-.
    exists ((x ++ [mkEvent NewContext None]) ++ [mkEvent NewPage (Some e)]). split.
    - repeat (apply Forall_app; split); try assumption; repeat constructor.
    - left. exists (x ++ [mkEvent NewContext None]), NewPage, e.
      repeat split; try congruence.
      + apply Forall_app. split; [assumption | repeat constructor].
      + rewrite Ht3, Ht2, Ht1. now rewrite <- !app_assoc. }
  exists (x ++ [mkEvent NewContext None; mkEvent NewPage None]). split.
  { apply Forall_app. split; [assumption | repeat constructor]. }
  right. split; [apply Forall_app; split; [assumption | repeat constructor]|].
  split; [apply in_or_app; right; right; now left|].
  destruct (tryFinally_spec _ _ _ _ _ Hrun) as [rb [wb [Hb Hcases]]].
  exists w3, rb, wb.
  split; [rewrite Ht3, Ht2, Ht1; now rewrite <- !app_assoc|].
  split; [congruence|]. split; [lia|]. split; [exact Hb | exact Hcases].
Qed.

Lemma fetch_shape (P : action -> Prop) fuel q scrolls login (w : World) r w' :
  (forall a, inBodyNoScroll a -> P a) ->
  browserOnly P (scrollLoop h fuel (Num.ofZ 0) scrolls) ->
  fetch h fuel q scrolls login w = (r, w') ->
  exists acq body closes,
    trace w' = trace w ++ acq ++ body ++ closes
    /\ Forall (fun ev => isAcquire (act ev) = true) acq
    /\ Forall (fun ev => P (act ev)) body
    /\ fetchShape q (cacheKey h q scrolls login) w r w' acq body closes.
Proof.
  intros HP Hloop Hrun.
  destruct (fetch_spec _ _ _ _ _ _ _ Hrun) as [acq [Hacq Hcases]].
  destruct Hcases as [[pre [a [e [-> [Hpre [-> [Ht Hc]]]]]]]
                     |[Hres [Hpage [w0 [rb [wb [Ht0 [Hc0 [Hk0 [Hb Hfin]]]]]]]]]].
  - exists (pre ++ [mkEvent a (Some e)]), [], []. rewrite !app_nil_r.
    split; [assumption|]. split; [assumption|]. split; [constructor|].
    left. repeat split. exists pre, a, e. repeat split; assumption.
  - destruct (fetchBody_spec P _ _ _ _ _ _ _ HP Hloop Hb)
      as [_ [Hkb [[body [Htb [Hal Hlog]]] Hcache]]].
    destruct Hfin as [[-> [-> ->]]|[Hnd [rc [Hrel ->]]]].
    + exists acq, body, []. rewrite app_nil_r.
      split; [rewrite Htb, Ht0; now rewrite <- app_assoc|].
      split; [assumption|]. split; [assumption|].
      right. left. repeat split; try assumption. congruence.
    + destruct (release_spec _ _ _ Hrel) as [Hcr [_ [Hkr [closes [Htr Hlogr]]]]].
      exists acq, body, closes.
      split; [rewrite Htr, Htb, Ht0; now rewrite <- !app_assoc|].
      split; [assumption|]. split; [assumption|].
      right. right. split; [assumption|]. split; [assumption|].
      exists rb, rc. repeat split; try assumption.
      destruct rb as [v|e|]; try congruence.
      destruct Hcache as [pins [-> Hset]].
      exists pins, (clock wb). repeat split; try lia. rewrite Hcr, Hset. now rewrite Hc0.
Qed.

End Effects.

(** * The claims *)

(** ** De-duplication (C3) *)

(** C3.  For every list of records the de-duplication of line 128 keeps,
    for each identifier, exactly the first record carrying it: it is the
    specification's walk [keepFirst]; no two records of the output share an
    identifier; the output is a subsequence of the input, so first
    occurrences stay in input order; a record is kept exactly when no
    earlier record has its identifier; the empty list gives the empty
    list; and de-duplicating twice changes nothing more. *)
Theorem uniquePins_keeps_first_occurrences (pins : list Pin) :
  uniquePins pins = keepFirst [] pins
  /\ NoDup (map pinId (uniquePins pins))
  /\ Subseq (uniquePins pins) pins
  /\ (forall p, In p (uniquePins pins) <->
                exists pre post, pins = pre ++ p :: post
                                 /\ ~ In (pinId p) (map pinId pre))
  /\ uniquePins [] = []
  /\ uniquePins (uniquePins pins) = uniquePins pins.
Proof.
  split; [apply uniquePins_keepFirst|].
  rewrite !uniquePins_keepFirst.
  split; [apply keepFirst_NoDup|].
  split; [apply keepFirst_Subseq|].
  split; [intros p; apply (keepFirst_In [] pins p)|].
  split; [reflexivity|].
  apply keepFirst_id.
  - apply keepFirst_NoDup.
  - intros p _ [].
Qed.

(** ** The scorer (C1, C2) *)

(** C1.  The scenario of the specification: the query is "ceramic mugs",
    two scrolls, no login, and the extraction yields three records with
    identifiers A, B, A and save counts 100, 50, 100.  De-duplication
    leaves the first A and B; the loaded count is 2; the score is 6; the
    result is low competition; and the request handler on a host where
    every browser call resolves answers with exactly that result. *)
Theorem scenario_ceramic_mugs (a b a' : Pin) :
  pinId a = "A"%string -> pinId b = "B"%string -> pinId a' = "A"%string ->
  saves a = Num.ofZ 100 -> saves b = Num.ofZ 50 -> saves a' = Num.ofZ 100 ->
  let result :=
    {| query := "ceramic mugs";
       loadedPins := 2;
       keywordDifficulty := Num.ofZ 6;
       lowCompetition := true;
       sample := [a; b] |} in
  uniquePins [a; b; a'] = [a; b]
  /\ computeKD [a; b] (Num.ofNat 2) = Num.ofZ 6
  /\ assemble "ceramic mugs" [a; b; a'] = result
  /\ fst (handle (quietHost [a; b; a']) 10
            (mkRequest (Some "ceramic mugs"%string) (Some "2"%string) None) freshWorld)
     = Some (Json200 (Some result)).
Proof.
  destruct a as [ida ua ia ta sa], b as [idb ub ib tb sb], a' as [idc uc ic tc sc].
  cbn [pinId saves]. intros -> -> -> -> -> ->.
  assert (Hu : uniquePins [mkPin "A" ua ia ta (Num.ofZ 100); mkPin "B" ub ib tb (Num.ofZ 50);
                           mkPin "A" uc ic tc (Num.ofZ 100)]
               = [mkPin "A" ua ia ta (Num.ofZ 100); mkPin "B" ub ib tb (Num.ofZ 50)])
    by reflexivity.
  assert (Hk : computeKD [mkPin "A" ua ia ta (Num.ofZ 100); mkPin "B" ub ib tb (Num.ofZ 50)]
                 (Num.ofNat 2) = Num.ofZ 6)
    by (vm_compute; reflexivity).
  split; [exact Hu|]. split; [exact Hk|].
  assert (Ha : assemble "ceramic mugs"
                 [mkPin "A" ua ia ta (Num.ofZ 100); mkPin "B" ub ib tb (Num.ofZ 50);
                  mkPin "A" uc ic tc (Num.ofZ 100)]
               = {| query := "ceramic mugs"; loadedPins := 2;
                    keywordDifficulty := Num.ofZ 6; lowCompetition := true;
                    sample := [mkPin "A" ua ia ta (Num.ofZ 100);
                               mkPin "B" ub ib tb (Num.ofZ 50)] |}).
  { unfold assemble. rewrite Hu. cbn [List.length firstn]. rewrite Hk. reflexivity. }
  split; [exact Ha|].
  vm_compute. reflexivity.
Qed.

Lemma scenario_ceramic_mugs_witness :
  (pinId pinA = "A"%string /\ pinId pinB = "B"%string /\ pinId pinA' = "A"%string
   /\ saves pinA = Num.ofZ 100 /\ saves pinB = Num.ofZ 50 /\ saves pinA' = Num.ofZ 100)
  /\ assemble "ceramic mugs" [pinA; pinB; pinA']
     = {| query := "ceramic mugs"; loadedPins := 2; keywordDifficulty := Num.ofZ 6;
          lowCompetition := true; sample := [pinA; pinB] |}.
Proof.
  split; [repeat split|].
  exact (proj1 (proj2 (proj2
    (scenario_ceramic_mugs pinA pinB pinA' eq_refl eq_refl eq_refl eq_refl eq_refl eq_refl)))).
Defined.

(** C2.  For every list of records, none with a negative save count, and
    every loaded count that is at least zero, [computeKD] returns an
    integer between 0 and 100; on no records and a loaded count of 0 it
    returns 0.  The scorer is a total function of its two arguments. *)
Theorem computeKD_score (pins : list Pin) (loadedCount : Num.number) :
  Forall (fun p => Num.ltb (saves p) (Num.ofZ 0) = false) pins ->
  Num.leb (Num.ofZ 0) loadedCount = true ->
  (exists z : Z, 0 <= z <= 100 /\ computeKD pins loadedCount = Num.ofZ z)
  /\ computeKD [] (Num.ofZ 0) = Num.ofZ 0.
Proof.
  intros Hsaves Hcount. split.
  - now apply computeKD_range.
  - reflexivity.
Qed.

Lemma computeKD_score_witness :
  (Forall (fun p => Num.ltb (saves p) (Num.ofZ 0) = false) [pinA; pinB]
   /\ Num.leb (Num.ofZ 0) (Num.ofZ 2) = true)
  /\ exists z : Z, 0 <= z <= 100 /\ computeKD [pinA; pinB] (Num.ofZ 2) = Num.ofZ z.
Proof.
  assert (Hs : Forall (fun p => Num.ltb (saves p) (Num.ofZ 0) = false) [pinA; pinB])
    by (repeat constructor).
  assert (Hc : Num.leb (Num.ofZ 0) (Num.ofZ 2) = true) by reflexivity.
  split; [split; assumption|].
  exact (proj1 (computeKD_score [pinA; pinB] (Num.ofZ 2) Hs Hc)).
Defined.

(** ** Assembling the result *)

Lemma NoDup_firstn_of {A : Type} (n : nat) (l : list A) : NoDup l -> NoDup (firstn n l).
Proof.
  intros H. revert n. induction H as [|x l Hx Hl IH]; intros [|n]; simpl; try constructor.
  - intros Hin. apply Hx. revert Hin. clear. revert n.
    induction l as [|y l IHl]; intros [|n]; simpl; try tauto.
    intros [->|Hin]; [now left | right; eauto].
  - apply IH.
Qed.

Lemma ofNat_nonNegative (n : nat) : Num.leb (Num.ofZ 0) (Num.ofNat n) = true.
Proof.
  apply leb_zero_nonNegative. unfold Num.ofNat, Num.ofZ, binary_normalize.
  destruct (Z.of_nat n) as [|p|p] eqn:Hn; [exact I| |lia].
  unfold binary_round. destruct (shl_align _ _ _) as [mz ez].
  pose proof (binary_round_aux_shape false (Zpos mz) ez loc_Exact ltac:(lia)) as Hs.
  unfold Num.prec, Num.emax.
  destruct (binary_round_aux 53 1024 false (Zpos mz) ez loc_Exact) as [s|s| |s m e];
    [exact I | now subst s | contradiction | now destruct Hs as [-> _]].
Qed.

(** Comparing an integer score with 35 as numbers is comparing the
    integers. *)
Lemma leb_35 (z : Z) : 0 <= z <= 100 -> Num.leb (Num.ofZ z) (Num.ofZ 35) = (z <=? 35).
Proof.
  intros Hz.
  assert (Hall : forallb (fun n => Bool.eqb (Num.leb (Num.ofNat n) (Num.ofZ 35))
                                            (Z.of_nat n <=? 35))
                   (seq 0 101) = true) by (vm_compute; reflexivity).
  rewrite forallb_forall in Hall.
  specialize (Hall (Z.to_nat z)). unfold Num.ofNat in Hall.
  rewrite Z2Nat.id in Hall by lia.
  apply eqb_prop. apply Hall. apply in_seq. lia.
Qed.

(** The result assembled from a list of extracted pins. *)
Lemma assemble_invariants (q : string) (pins : list Pin) :
  let result := assemble q pins in
  query result = q
  /\ loadedPins result = List.length (uniquePins pins)
  /\ sample result = firstn 50 (uniquePins pins)
  /\ (List.length (sample result) <= 50)%nat
  /\ NoDup (map pinId (sample result))
  /\ Subseq (uniquePins pins) pins
  /\ lowCompetition result = Num.leb (keywordDifficulty result) (Num.ofZ 35)
  /\ (Forall (fun p => Num.ltb (saves p) (Num.ofZ 0) = false) pins ->
      exists z : Z,
        0 <= z <= 100 /\ keywordDifficulty result = Num.ofZ z
        /\ (lowCompetition result = true <-> z <= 35)).
Proof.
  cbn [assemble query loadedPins sample lowCompetition keywordDifficulty].
  split; [reflexivity|]. split; [reflexivity|]. split; [reflexivity|].
  split; [apply firstn_le_length|].
  split.
  { rewrite <- firstn_map. apply NoDup_firstn_of.
    rewrite uniquePins_keepFirst. apply keepFirst_NoDup. }
  split; [rewrite uniquePins_keepFirst; apply keepFirst_Subseq|].
  split; [reflexivity|].
  intros Hsaves.
  assert (Hkept : Forall (fun p => Num.ltb (saves p) (Num.ofZ 0) = false) (uniquePins pins)).
  { rewrite Forall_forall in *. intros p Hp. apply Hsaves.
    rewrite uniquePins_keepFirst in Hp. apply keepFirst_In in Hp.
    destruct Hp as [pre [post [-> _]]]. apply in_or_app. right. now left. }
  destruct (computeKD_range (uniquePins pins) (Num.ofNat (List.length (uniquePins pins)))
              Hkept (ofNat_nonNegative _)) as [z [Hz Hkd]].
  exists z. split; [exact Hz|]. split; [exact Hkd|].
  rewrite Hkd, leb_35 by exact Hz. apply Z.leb_le.
Qed.

Section Results.

Variable h : Host.

Lemma pinterestSearch_miss fuel q scrolls login (w : World) :
  LRU.has (clock w) (cache w) (cacheKey h q scrolls login) = false ->
  pinterestSearch h fuel q scrolls login w = fetch h fuel q scrolls login w.
Proof. intros Hmiss. unfold pinterestSearch. now rewrite Hmiss. Qed.

(** A fetch that returns went through the whole [try] and closed the page
    and the context; the result is the one assembled from the extracted
    pins, and it has been cached under the key. *)
Lemma fetch_returned fuel q scrolls login (w : World) out w' :
  fetch h fuel q scrolls login w = (Returned out, w') ->
  exists pins t,
    out = Some (assemble q pins)
    /\ cache w' = LRU.set t (cache w) (cacheKey h q scrolls login) (assemble q pins)
    /\ clock w <= t <= clock w'.
Proof.
  intros Hrun.
  destruct (fetch_shape h inBody fuel q scrolls login w _ _ inBodyNoScroll_inBody
              (scrollLoop_browserOnly h fuel _ scrolls) Hrun)
    as [acq [body [closes [_ [_ [_ Hshape]]]]]].
  destruct Hshape as [[_ [_ [pre [a [e [_ [_ [Hr _]]]]]]]]
                     |[[_ [_ [_ [Hr _]]]]
                      |[_ [_ [rb [rc [_ [_ [_ [Hr Hcache]]]]]]]]]];
    try discriminate.
  destruct rb as [v|e|]; destruct rc as [u|e'|]; cbn in Hr; try discriminate.
  injection Hr as <-. exact Hcache.
Qed.

End Results.

(** ** The cache (C6) *)

Lemma lookup_key (k : string) (c : LRU.t) (e : LRU.Entry) :
  LRU.lookup k c = Some e -> LRU.key e = k.
Proof.
  unfold LRU.lookup. intros H. apply find_some in H. destruct H as [_ H].
  now apply String.eqb_eq.
Qed.

Lemma has_lookup (now : Z) (c : LRU.t) (k : string) :
  LRU.has now c k = true <->
  exists e, LRU.lookup k c = Some e /\ LRU.fresh now e = true.
Proof.
  unfold LRU.has. destruct (LRU.lookup k c) as [e|].
  - split; [intros H; now exists e | intros [e' [[= <-] H]]; exact H].
  - split; [discriminate | intros [e' [[=] _]]].
Qed.

Lemma lookup_set (t : Z) (c : LRU.t) (k : string) (v : SearchResult) :
  LRU.lookup k (LRU.set t c k v) = Some (LRU.mkEntry k v t).
Proof.
  unfold LRU.set, LRU.lookup, LRU.max. cbn [firstn find LRU.key].
  now rewrite String.eqb_refl.
Qed.

Lemma lookup_touched (k : string) (c : LRU.t) (e : LRU.Entry) :
  LRU.key e = k -> LRU.lookup k (e :: LRU.remove k c) = Some e.
Proof.
  intros <-. unfold LRU.lookup. cbn [find]. now rewrite String.eqb_refl.
Qed.

Section Hits.

Variable h : Host.

(** A present, unexpired entry is returned as it is, and the browser is
    not touched. *)
Lemma pinterestSearch_hit fuel q scrolls login (w : World) (e : LRU.Entry) :
  LRU.lookup (cacheKey h q scrolls login) (cache w) = Some e ->
  LRU.fresh (clock w) e = true ->
  exists w',
    pinterestSearch h fuel q scrolls login w = (Returned (Some (LRU.value e)), w')
    /\ trace w' = trace w /\ browser w' = browser w /\ clock w' = clock w
    /\ LRU.lookup (cacheKey h q scrolls login) (cache w') = Some e.
Proof.
  intros Hl Hf. unfold pinterestSearch.
  assert (Hhas : LRU.has (clock w) (cache w) (cacheKey h q scrolls login) = true).
  { apply has_lookup. now exists e. }
  rewrite Hhas. unfold LRU.get. rewrite Hl, Hf.
  eexists. split; [reflexivity|]. cbn [trace browser clock cache].
  repeat split. apply lookup_touched. exact (lookup_key _ _ _ Hl).
Qed.

(** After a request that returned a result, the cache holds that result
    under the request's key. *)
Lemma pinterestSearch_caches fuel q scrolls login (w w1 : World) (out : SearchResult) :
  pinterestSearch h fuel q scrolls login w = (Returned (Some out), w1) ->
  exists e,
    LRU.lookup (cacheKey h q scrolls login) (cache w1) = Some e /\ LRU.value e = out
    /\ (LRU.has (clock w) (cache w) (cacheKey h q scrolls login) = false ->
        clock w <= LRU.insertedAt e <= clock w1).
Proof.
  intros Hrun.
  destruct (LRU.has (clock w) (cache w) (cacheKey h q scrolls login)) eqn:Hhas.
  - apply has_lookup in Hhas. destruct Hhas as [e [Hl Hf]].
    destruct (pinterestSearch_hit fuel q scrolls login w e Hl Hf)
      as [w' [Heq [_ [_ [_ Hl']]]]].
    rewrite Heq in Hrun. injection Hrun as <- <-. exists e.
    split; [assumption|]. split; [reflexivity | discriminate].
  - rewrite pinterestSearch_miss in Hrun by exact Hhas.
    destruct (fetch_returned h _ _ _ _ _ _ _ Hrun) as [pins [t [Hout [Hc Ht]]]].
    injection Hout as ->.
    exists (LRU.mkEntry (cacheKey h q scrolls login) (assemble q pins) t).
    split; [rewrite Hc; apply lookup_set|]. split; [reflexivity|].
    intros _. exact Ht.
Qed.

End Hits.

(** C6.  When the key of (query, scrolls, login) maps to a present,
    unexpired cache entry, [pinterestSearch] returns the cached result
    and makes no call on the browser: the log, the browser handle and the
    clock are as before.  And after a request that returned a result, the
    same request made while that entry is unexpired returns the identical
    result without any further browser call; the entry written by a fetch
    is dated between the start and the end of that fetch. *)
Theorem cache_hit_returns_cached (h : Host) (fuel : nat) (q : string)
    (scrolls : Num.number) (login : bool) (w : World) :
  (LRU.has (clock w) (cache w) (cacheKey h q scrolls login) = true ->
   exists e w',
     LRU.lookup (cacheKey h q scrolls login) (cache w) = Some e
     /\ pinterestSearch h fuel q scrolls login w = (Returned (Some (LRU.value e)), w')
     /\ trace w' = trace w /\ browser w' = browser w /\ clock w' = clock w)
  /\ (forall out w1,
        pinterestSearch h fuel q scrolls login w = (Returned (Some out), w1) ->
        exists e,
          LRU.lookup (cacheKey h q scrolls login) (cache w1) = Some e
          /\ LRU.value e = out
          /\ (LRU.has (clock w) (cache w) (cacheKey h q scrolls login) = false ->
              clock w <= LRU.insertedAt e <= clock w1)
          /\ forall fuel2 w2,
               cache w2 = cache w1 ->
               LRU.fresh (clock w2) e = true ->
               exists w2',
                 pinterestSearch h fuel2 q scrolls login w2 = (Returned (Some out), w2')
                 /\ trace w2' = trace w2).
Proof.
  split.
  - intros Hhas. apply has_lookup in Hhas. destruct Hhas as [e [Hl Hf]].
    destruct (pinterestSearch_hit h fuel q scrolls login w e Hl Hf)
      as [w' [Heq [Ht [Hb [Hk _]]]]].
    exists e, w'. repeat split; assumption.
  - intros out w1 Hrun.
    destruct (pinterestSearch_caches h _ _ _ _ _ _ _ Hrun) as [e [Hl [Hv Hdate]]].
    exists e. split; [exact Hl|]. split; [exact Hv|]. split; [exact Hdate|].
    intros fuel2 w2 Hc Hf. rewrite <- Hc in Hl.
    destruct (pinterestSearch_hit h fuel2 q scrolls login w2 e Hl Hf)
      as [w2' [Heq [Ht _]]].
    exists w2'. rewrite Hv in Heq. split; assumption.
Qed.

Lemma cache_hit_returns_cached_witness :
  exists out w1,
    pinterestSearch (quietHost [pinA; pinB; pinA']) 10 "mugs" (Num.ofZ 2) false freshWorld
    = (Returned (Some out), w1)
    /\ exists w2,
         pinterestSearch (quietHost [pinA; pinB; pinA']) 10 "mugs" (Num.ofZ 2) false w1
         = (Returned (Some out), w2)
         /\ trace w2 = trace w1.
Proof.
  destruct (pinterestSearch (quietHost [pinA; pinB; pinA']) 10 "mugs" (Num.ofZ 2) false
              freshWorld) as [r w1] eqn:Hrun.
  assert (Hr : r = Returned (Some (assemble "mugs" [pinA; pinB; pinA']))).
  { vm_compute in Hrun. injection Hrun as <- _. reflexivity. }
  subst r. exists (assemble "mugs" [pinA; pinB; pinA']), w1. split; [reflexivity|].
  destruct (proj2 (cache_hit_returns_cached (quietHost [pinA; pinB; pinA']) 10 "mugs"
                     (Num.ofZ 2) false freshWorld) _ _ Hrun)
    as [e [Hl [Hv [_ Hagain]]]].
  apply (Hagain 10%nat w1 eq_refl).
  assert (Hw1 : cache w1 = [LRU.mkEntry "mugs|2|false" (assemble "mugs" [pinA; pinB; pinA']) 0]
                /\ clock w1 = 0).
  { vm_compute in Hrun. injection Hrun as <-. split; reflexivity. }
  destruct Hw1 as [Hc Hk]. rewrite Hc in Hl. vm_compute in Hl. injection Hl as <-.
  rewrite Hk. reflexivity.
Defined.

(** ** Release and failure (C4, C5) *)

Lemma firstRejected_app (l1 l2 : list Event) :
  Forall resolved l1 -> firstRejected (l1 ++ l2) = firstRejected l2.
Proof.
  induction 1 as [|ev l1 Hev Hl1 IH]; [reflexivity|].
  unfold resolved in Hev. rewrite <- app_comm_cons. cbn [firstRejected].
  now rewrite Hev.
Qed.

Lemma firstRejected_resolved (l : list Event) : Forall resolved l -> firstRejected l = None.
Proof.
  intros H. rewrite <- (app_nil_r l). now rewrite firstRejected_app.
Qed.

Lemma releaseLog_closes (rc : Outcome unit) (closes : list Event) :
  releaseLog rc closes -> Forall (fun ev => isClose (act ev) = true) closes.
Proof.
  intros [[_ ->]|[[e [_ ->]]|[e [_ ->]]]]; repeat constructor.
Qed.

Lemma inBody_not_close (a : action) : inBody a -> isClose a = false.
Proof. unfold inBody. now destruct a. Qed.

Lemma isAcquire_not_close (a : action) : isAcquire a = true -> isClose a = false.
Proof. now destruct a. Qed.

(** C4.  The code on a fetch whose [page.close()] rejects: the query is
    "mugs", one scroll, no login, nothing is cached, and every browser
    call resolves but the closing of the page.  The page has been
    acquired, and the only close call in the whole log is that rejected
    [page.close()]: the [finally] of lines 141-144 is left at its first
    [await], [context.close()] is never attempted, and the context stays
    open. *)
Lemma context_close_skipped :
  In (mkEvent NewPage None)
     (trace (snd (pinterestSearch (rejectingHost pageCloseFails []) 10 "mugs" (Num.ofZ 1)
                    false freshWorld)))
  /\ filter (fun ev => isClose (act ev))
            (trace (snd (pinterestSearch (rejectingHost pageCloseFails []) 10 "mugs"
                           (Num.ofZ 1) false freshWorld)))
     = [mkEvent ClosePage (Some closeError)].
Proof.
  split.
  - vm_compute. right. right. now left.
  - vm_compute. reflexivity.
Qed.

(** The context is opened outside the [try] (lines 69-70): when
    [context.newPage()] rejects after [browser.newContext()] resolved, no
    close call is made at all. *)
Lemma context_open_without_page :
  In (mkEvent NewContext None)
     (trace (snd (pinterestSearch (rejectingHost newPageFails []) 10 "mugs" (Num.ofZ 1)
                    false freshWorld)))
  /\ filter (fun ev => isClose (act ev))
            (trace (snd (pinterestSearch (rejectingHost newPageFails []) 10 "mugs"
                           (Num.ofZ 1) false freshWorld)))
     = [].
Proof.
  split.
  - vm_compute. right. now left.
  - vm_compute. reflexivity.
Qed.

(** X10.  The close calls of a cache miss, path by path.  The log of
    [pinterestSearch] is [acq ++ body ++ closes], with no close call among
    [acq] and [body].  Either acquiring the browser, the context or the
    page failed, and then nothing is closed.  Or the page was acquired,
    and then on every exit path, whether the login, the navigation, the
    scrolling or the extraction succeeded or failed, [page.close()] is
    called; and [context.close()] is called exactly when [page.close()]
    resolved.  With [scrolls] not above ten and ten units of fuel the
    function does exit. *)
Theorem release_on_exit (h : Host) (fuel : nat) (q : string) (scrolls : Num.number)
    (login : bool) (w w' : World) (r : Outcome (option SearchResult)) :
  LRU.has (clock w) (cache w) (cacheKey h q scrolls login) = false ->
  pinterestSearch h fuel q scrolls login w = (r, w') ->
  (Num.ltb (Num.ofZ 10) scrolls = false -> (10 <= fuel)%nat -> r <> Diverged)
  /\ exists acq body closes,
       trace w' = trace w ++ acq ++ body ++ closes
       /\ Forall (fun ev => isClose (act ev) = false) (acq ++ body)
       /\ ((exists pre a e,
              acq = pre ++ [mkEvent a (Some e)] /\ Forall resolved pre
              /\ body = [] /\ closes = [] /\ r = Thrown e)
           \/ (Forall resolved acq /\ In (mkEvent NewPage None) acq
               /\ (r = Diverged /\ closes = []
                   \/ r <> Diverged
                      /\ (closes = [mkEvent ClosePage None; mkEvent CloseContext None]
                          \/ exists e,
                               r = Thrown e
                               /\ (closes = [mkEvent ClosePage None;
                                             mkEvent CloseContext (Some e)]
                                   \/ closes = [mkEvent ClosePage (Some e)]))))).
Proof.
  intros Hmiss Hrun. split.
  - intros Hten Hfuel.
    pose proof (terminates_pinterestSearch h fuel q scrolls login Hten Hfuel w) as Ht.
    now rewrite Hrun in Ht.
  - rewrite pinterestSearch_miss in Hrun by exact Hmiss.
    destruct (fetch_shape h inBody fuel q scrolls login w _ _ inBodyNoScroll_inBody
                (scrollLoop_browserOnly h fuel _ scrolls) Hrun)
      as [acq [body [closes [Ht [Hacq [Hbody Hshape]]]]]].
    exists acq, body, closes. split; [exact Ht|]. split.
    { apply Forall_app. split.
      - eapply Forall_impl; [|exact Hacq]. intros ev. apply isAcquire_not_close.
      - eapply Forall_impl; [|exact Hbody]. intros ev. apply inBody_not_close. }
    destruct Hshape as [[-> [-> [pre [a [e [-> [Hpre [-> _]]]]]]]]
                       |[[Hres [Hpage [-> [-> _]]]]
                        |[Hres [Hpage [rb [rc [Hnd [_ [Hrel [-> _]]]]]]]]]].
    + left. exists pre, a, e. repeat split; assumption.
    + right. split; [assumption|]. split; [assumption|]. left. now split.
    + right. split; [assumption|]. split; [assumption|]. right.
      destruct Hrel as [[-> ->]|[[e [-> ->]]|[e [-> ->]]]].
      * split; [now destruct rb | now left].
      * split; [destruct rb; [discriminate|discriminate|contradiction]|].
        right. exists e. split; [destruct rb; try reflexivity; contradiction | now left].
      * split; [destruct rb; [discriminate|discriminate|contradiction]|].
        right. exists e. split; [destruct rb; try reflexivity; contradiction | now right].
Qed.

Lemma release_on_exit_witness :
  exists r w',
    pinterestSearch (rejectingHost searchTimesOut []) 10 "mugs" (Num.ofZ 2) false freshWorld
    = (r, w')
    /\ r <> Diverged
    /\ exists before,
         trace w' = before ++ [mkEvent ClosePage None; mkEvent CloseContext None].
Proof.
  destruct (pinterestSearch (rejectingHost searchTimesOut []) 10 "mugs" (Num.ofZ 2) false
              freshWorld) as [r w'] eqn:Hrun.
  exists r, w'. split; [reflexivity|].
  destruct (release_on_exit (rejectingHost searchTimesOut []) 10 "mugs" (Num.ofZ 2) false
              freshWorld w' r eq_refl Hrun) as [Hexit _].
  split; [apply Hexit; [reflexivity | apply Nat.le_refl]|].
  vm_compute in Hrun. injection Hrun as _ <-.
  exists [mkEvent Launch None; mkEvent NewContext None; mkEvent NewPage None;
          mkEvent (Goto (searchUrl "mugs")) (Some navigationError)].
  reflexivity.
Defined.

(** C5.  The code on a fetch whose search navigation times out and whose
    [page.close()] rejects as well: the query is "mugs", one scroll, no
    login, nothing is cached.  The first rejected call of the log is the
    navigation, with the navigation error, and the only call after it is
    the rejected [page.close()]; what [pinterestSearch] throws is the close
    error, a different error: the error thrown inside the [finally] has
    taken the place of the one that made the fetch fail. *)
Lemma navigation_error_replaced :
  fst (pinterestSearch (rejectingHost bothFail []) 10 "mugs" (Num.ofZ 1) false freshWorld)
  = Thrown closeError
  /\ firstRejected
       (trace (snd (pinterestSearch (rejectingHost bothFail []) 10 "mugs" (Num.ofZ 1)
                      false freshWorld)))
     = Some (Goto (searchUrl "mugs"), navigationError,
             [mkEvent ClosePage (Some closeError)])
  /\ closeError <> navigationError.
Proof.
  split; [vm_compute; reflexivity|]. split; [vm_compute; reflexivity|]. discriminate.
Qed.

(** X11.  What holds when a call other than a close call is rejected on a
    cache miss, [a] with error [e] being the first in the log.  The cache
    is left as it was, [pinterestSearch] throws and returns no result, and
    nothing is retried: after the rejected call the log holds only the
    call that was pending with it and the close calls.  The error thrown
    is [e] itself when every later call resolved; in general it is [e],
    or the error of a call rejected after [a]: the one racing with it in
    [Promise.all], or a close call. *)
Theorem failure_propagates (h : Host) (fuel : nat) (q : string) (scrolls : Num.number)
    (login : bool) (w w' : World) (r : Outcome (option SearchResult))
    (evs post : list Event) (a : action) (e : JsError) :
  LRU.has (clock w) (cache w) (cacheKey h q scrolls login) = false ->
  pinterestSearch h fuel q scrolls login w = (r, w') ->
  trace w' = trace w ++ evs ->
  firstRejected evs = Some (a, e, post) ->
  isClose a = false ->
  cache w' = cache w
  /\ (exists e', r = Thrown e')
  /\ Forall (fun ev => isPending (act ev) = true \/ isClose (act ev) = true) post
  /\ (Forall resolved post -> r = Thrown e)
  /\ (forall e', r = Thrown e' ->
        e' = e
        \/ exists a', In (mkEvent a' (Some e')) post
                      /\ (isPending a' = true \/ isClose a' = true)).
Proof.
  intros Hmiss Hrun Htrace Hfirst Hclose.
  rewrite pinterestSearch_miss in Hrun by exact Hmiss.
  destruct (fetch_shape h inBody fuel q scrolls login w _ _ inBodyNoScroll_inBody
              (scrollLoop_browserOnly h fuel _ scrolls) Hrun)
    as [acq [body [closes [Ht [Hacq [Hbody Hshape]]]]]].
  rewrite Htrace in Ht. apply app_inv_head in Ht. subst evs.
  destruct Hshape as [[-> [-> [pre [a0 [e0 [-> [Hpre [-> Hc]]]]]]]]
                     |[[Hres [Hpage [-> [-> [Hresb _]]]]]
                      |[Hres [Hpage [rb [rc [Hnd [Hlog [Hrel [-> Hc]]]]]]]]]].
  - (* the page was never acquired *)
    rewrite !app_nil_r, firstRejected_app in Hfirst by exact Hpre.
    cbn in Hfirst. injection Hfirst as <- <- <-.
    split; [exact Hc|]. split; [now exists e0|]. split; [constructor|].
    split; [reflexivity|]. intros e' [= <-]. now left.
  - (* the body never ended: no call was rejected *)
    rewrite app_nil_r, firstRejected_resolved in Hfirst; [discriminate|].
    apply Forall_app. now split.
  - rewrite firstRejected_app in Hfirst by exact Hres.
    assert (Hcl := releaseLog_closes _ _ Hrel).
    destruct rb as [v|eb|]; [| |contradiction].
    + (* the body returned: only a close call can have been rejected *)
      exfalso. cbn [logOf] in Hlog. rewrite firstRejected_app in Hfirst by exact Hlog.
      destruct Hrel as [[_ ->]|[[x [_ ->]]|[x [_ ->]]]]; cbn in Hfirst;
        [discriminate | injection Hfirst as <- _ _ | injection Hfirst as <- _ _];
        discriminate.
    + (* the body threw *)
      cbn [logOf] in Hlog. destruct Hlog as [preb [ab [postb [-> [Hpreb Hpostb]]]]].
      assert (Hthrown : exists e', @afterFinally (option SearchResult) (Thrown eb) rc
                                   = Thrown e'
                                   /\ (e' = eb /\ Forall resolved closes
                                       \/ exists c, In (mkEvent c (Some e')) closes
                                                    /\ isClose c = true)).
      { destruct Hrel as [[-> ->]|[[x [-> ->]]|[x [-> ->]]]]; cbn [afterFinally].
        - exists eb. split; [reflexivity|]. left. split; [reflexivity | repeat constructor].
        - exists x. split; [reflexivity|]. right. exists CloseContext.
          split; [right; now left | reflexivity].
        - exists x. split; [reflexivity|]. right. exists ClosePage.
          split; [now left | reflexivity]. }
      destruct Hthrown as [e' [Hr Hwhich]]. rewrite Hr.
      destruct Hpreb as [Hpreb|[pre' [e1 [-> [Hpre' ->]]]]].
      * (* the first rejected call is the one whose error the body threw *)
        rewrite <- app_assoc, firstRejected_app in Hfirst by exact Hpreb.
        cbn in Hfirst. injection Hfirst as <- <- <-.
        split; [exact Hc|]. split; [now exists e'|].
        split.
        { apply Forall_app. split.
          - eapply Forall_impl; [|exact Hpostb]. intros ev Hev. now left.
          - eapply Forall_impl; [|exact Hcl]. intros ev Hev. now right. }
        split.
        { intros Hok. apply Forall_app in Hok. destruct Hok as [_ Hok].
          destruct Hwhich as [[-> _]|[c [Hin _]]]; [reflexivity|].
          rewrite Forall_forall in Hok. specialize (Hok _ Hin). discriminate Hok. }
        intros e2 [= <-].
        destruct Hwhich as [[-> _]|[c [Hin Hcc]]]; [now left|].
        right. exists c. split; [apply in_or_app; now right | now right].
      * (* the click was rejected too, after the wait whose error is thrown *)
        rewrite <- !app_assoc, firstRejected_app in Hfirst by exact Hpre'.
        cbn in Hfirst. injection Hfirst as <- <- <-.
        split; [exact Hc|]. split; [now exists e'|].
        split.
        { constructor; [now left|]. apply Forall_app. split.
          - eapply Forall_impl; [|exact Hpostb]. intros ev Hev. now left.
          - eapply Forall_impl; [|exact Hcl]. intros ev Hev. now right. }
        split.
        { intros Hok. inversion Hok as [|? ? Hx _]. discriminate Hx. }
        intros e2 [= <-]. right.
        destruct Hwhich as [[-> _]|[c [Hin Hcc]]].
        -- exists (WaitForLoadState "networkidle"). split; [now left | now left].
        -- exists c. split; [right; apply in_or_app; now right | now right].
Qed.

Lemma failure_propagates_witness :
  exists w',
    pinterestSearch (rejectingHost searchTimesOut []) 10 "mugs" (Num.ofZ 2) false freshWorld
    = (Thrown navigationError, w')
    /\ cache w' = cache freshWorld.
Proof.
  destruct (pinterestSearch (rejectingHost searchTimesOut []) 10 "mugs" (Num.ofZ 2) false
              freshWorld) as [r w'] eqn:Hrun.
  assert (Hlog : trace w' = trace freshWorld
                            ++ [mkEvent Launch None; mkEvent NewContext None;
                                mkEvent NewPage None;
                                mkEvent (Goto (searchUrl "mugs")) (Some navigationError);
                                mkEvent ClosePage None; mkEvent CloseContext None]).
  { vm_compute in Hrun. injection Hrun as _ <-. reflexivity. }
  destruct (failure_propagates (rejectingHost searchTimesOut []) 10 "mugs" (Num.ofZ 2)
              false freshWorld w' r _ _ (Goto (searchUrl "mugs")) navigationError
              eq_refl Hrun Hlog eq_refl eq_refl)
    as [Hcache [_ [_ [Hsame _]]]].
  exists w'. split; [|exact Hcache].
  f_equal. apply Hsame. repeat constructor.
Defined.

(** ** Cache keys (C7) *)

Lemma ofZ_exact (n : Z) :
  n <> 0 -> Z.abs n < 2 ^ 53 ->
  exists (m : positive) (k : Z),
    Num.ofZ n = S754_finite (n <? 0) m (- k)
    /\ 0 <= k <= 52 /\ Zpos m = Z.abs n * 2 ^ k.
Proof.
  intros Hn Hb. destruct n as [|p|p]; [contradiction| |];
    unfold Num.ofZ, binary_normalize.
  - destruct (binary_round_small false p Hb) as [m [k [Heq [Hk [Hm _]]]]].
    exists m, k. split; [exact Heq|]. split; assumption.
  - destruct (binary_round_small true p Hb) as [m [k [Heq [Hk [Hm _]]]]].
    exists m, k. split; [exact Heq|]. split; assumption.
Qed.

Lemma integerValue_ofZ (n : Z) : Z.abs n < 2 ^ 53 -> integerValue (Num.ofZ n) = Some n.
Proof.
  intros Hb. destruct (Z.eq_dec n 0) as [->|Hn]; [reflexivity|].
  destruct (ofZ_exact n Hn Hb) as [m [k [-> [Hk Hm]]]].
  assert (Hp : 0 < 2 ^ k) by (apply Z.pow_pos_nonneg; lia).
  assert (Hs : cond_Zopp (n <? 0) (Z.abs n) = n).
  { destruct (Z.ltb_spec n 0); cbn [cond_Zopp]; lia. }
  unfold integerValue. destruct (Z.leb_spec 0 (- k)) as [Hk0|Hk0].
  - assert (k = 0) by lia. subst k. cbn [Z.opp]. rewrite Hm.
    change (2 ^ 0) with 1. rewrite !Z.mul_1_r. now rewrite Hs.
  - rewrite Z.opp_involutive, Hm, Z.mod_mul by lia. cbn [Z.eqb].
    rewrite Z.div_mul by lia. now rewrite Hs.
Qed.

Section Keys.

Variable h : Host.

Lemma numberToString_ofZ (n : Z) :
  Z.abs n < 2 ^ 53 -> numberToString h (Num.ofZ n) = Str.ofInteger n.
Proof.
  intros Hb. unfold numberToString. rewrite (integerValue_ofZ n Hb).
  assert (Hlt : (Z.abs n <? 2 ^ 53) = true) by (apply Z.ltb_lt; exact Hb).
  rewrite Hlt.
  destruct (Z.eq_dec n 0) as [->|Hn]; [reflexivity|].
  destruct (ofZ_exact n Hn Hb) as [m [k [-> _]]]. reflexivity.
Qed.

End Keys.

Lemma noBar_uint (d : uint) : noBar (NilEmpty.string_of_uint d) = true.
Proof. induction d; cbn; auto. Qed.

Lemma noBar_ofInteger (z : Z) : noBar (Str.ofInteger z) = true.
Proof.
  unfold Str.ofInteger, NilZero.string_of_int, NilZero.string_of_uint.
  destruct (Z.to_int z) as [d|d]; destruct d; cbn; try reflexivity; apply noBar_uint.
Qed.

Lemma ofInteger_inj (a b : Z) : Str.ofInteger a = Str.ofInteger b -> a = b.
Proof.
  unfold Str.ofInteger. intros H. apply DecimalZ.to_int_inj.
  assert (Hnn : forall z, Z.to_int z <> Pos Nil /\ Z.to_int z <> Neg Nil).
  { intros [|p|p]; cbn; split; try discriminate;
      intros [= Hp]; exact (Unsigned.to_uint_nonnil p Hp). }
  assert (Some (Z.to_int a) = Some (Z.to_int b)) as [= ->]; [|reflexivity].
  rewrite <- (NilZero.isi (Z.to_int a)) by apply Hnn.
  rewrite <- (NilZero.isi (Z.to_int b)) by apply Hnn.
  now rewrite H.
Qed.

Lemma ofInteger_not_NaN (z : Z) : Str.ofInteger z <> "NaN"%string.
Proof.
  unfold Str.ofInteger, NilZero.string_of_int, NilZero.string_of_uint.
  destruct (Z.to_int z) as [d|d]; destruct d; cbn; try discriminate.
Qed.

Lemma append_assoc (a b c : string) : ((a ++ b) ++ c = a ++ (b ++ c))%string.
Proof. induction a as [|x a IH]; cbn; [reflexivity | now rewrite IH]. Qed.

Lemma noBar_with_bar (a b : string) : noBar (a ++ String "|" b) = false.
Proof.
  induction a as [|x a IH]; cbn [append noBar]; [reflexivity|].
  rewrite IH. apply andb_false_r.
Qed.

(** A string is cut in one way only at its last [|]. *)
Lemma split_at_last_bar (a1 a2 b1 b2 : string) :
  noBar b1 = true -> noBar b2 = true ->
  (a1 ++ String "|" b1 = a2 ++ String "|" b2)%string -> a1 = a2 /\ b1 = b2.
Proof.
  intros H1 H2. revert a2.
  induction a1 as [|x a1 IH]; intros [|y a2] Heq; cbn [append] in Heq.
  - injection Heq as ->. now split.
  - injection Heq as <- ->. now rewrite noBar_with_bar in H1.
  - injection Heq as -> <-. now rewrite noBar_with_bar in H2.
  - injection Heq as -> Heq. destruct (IH a2 Heq) as [-> ->]. now split.
Qed.

Lemma append_cons_assoc (a b d : string) (c : ascii) :
  (a ++ String c (b ++ d) = (a ++ String c b) ++ d)%string.
Proof. induction a as [|x a IH]; cbn [append]; [reflexivity | now rewrite IH]. Qed.

Lemma noBar_ofBool (b : bool) : noBar (Str.ofBool b) = true.
Proof. now destruct b. Qed.

Lemma ofBool_inj (a b : bool) : Str.ofBool a = Str.ofBool b -> a = b.
Proof. destruct a, b; cbn; intros H; try reflexivity; discriminate. Qed.

(** C7.  The cache key is injective on the query parameters: two
    tuples (query, scrolls, login), with [scrolls] an integer or NaN as
    the request handler passes it, that get the same key are the same
    tuple.  The query may contain the delimiter: the last two fields never
    do, so the key is cut back in one way only. *)
Theorem cacheKey_injective (h : Host) (q1 q2 : string) (s1 s2 : Num.number)
    (l1 l2 : bool) :
  scrollValue s1 -> scrollValue s2 ->
  cacheKey h q1 s1 l1 = cacheKey h q2 s2 l2 ->
  q1 = q2 /\ s1 = s2 /\ l1 = l2.
Proof.
  intros V1 V2 Hkey. unfold cacheKey in Hkey.
  assert (Hn : forall s, scrollValue s ->
                 noBar (numberToString h s) = true
                 /\ (numberToString h s = "NaN"%string /\ s = Num.NaN
                     \/ exists n, Z.abs n < 2 ^ 53 /\ s = Num.ofZ n
                                  /\ numberToString h s = Str.ofInteger n)).
  { intros s [->|[n [Hb ->]]].
    - split; [reflexivity|]. left. now split.
    - rewrite numberToString_ofZ by exact Hb. split; [apply noBar_ofInteger|].
      right. exists n. repeat split. exact Hb. }
  destruct (Hn s1 V1) as [B1 C1]. destruct (Hn s2 V2) as [B2 C2].
  change (q1 ++ "|" ++ numberToString h s1 ++ "|" ++ Str.ofBool l1)%string
    with (q1 ++ String "|" (numberToString h s1 ++ String "|" (Str.ofBool l1)))%string
    in Hkey.
  change (q2 ++ "|" ++ numberToString h s2 ++ "|" ++ Str.ofBool l2)%string
    with (q2 ++ String "|" (numberToString h s2 ++ String "|" (Str.ofBool l2)))%string
    in Hkey.
  rewrite !append_cons_assoc in Hkey.
  destruct (split_at_last_bar _ _ _ _ (noBar_ofBool l1) (noBar_ofBool l2) Hkey)
    as [Hqs Hl].
  destruct (split_at_last_bar _ _ _ _ B1 B2 Hqs) as [Hq Hs].
  split; [exact Hq|]. split; [|now apply ofBool_inj].
  destruct C1 as [[E1 ->]|[n1 [_ [-> E1]]]]; destruct C2 as [[E2 ->]|[n2 [_ [-> E2]]]].
  - reflexivity.
  - exfalso. rewrite E1, E2 in Hs. symmetry in Hs. exact (ofInteger_not_NaN n2 Hs).
  - exfalso. rewrite E1, E2 in Hs. exact (ofInteger_not_NaN n1 Hs).
  - rewrite E1, E2 in Hs. now rewrite (ofInteger_inj _ _ Hs).
Qed.

Lemma cacheKey_injective_witness :
  (scrollValue (Num.ofZ 3) /\ scrollValue Num.NaN)
  /\ (cacheKey (quietHost []) "a|3" (Num.ofZ 3) true
      = cacheKey (quietHost []) "a|3" (Num.ofZ 3) true ->
      "a|3"%string = "a|3"%string /\ Num.ofZ 3 = Num.ofZ 3 /\ true = true).
Proof.
  assert (V3 : scrollValue (Num.ofZ 3)).
  { right. exists 3. split; reflexivity. }
  split; [split; [exact V3 | now left]|].
  exact (cacheKey_injective (quietHost []) "a|3" "a|3" (Num.ofZ 3) (Num.ofZ 3) true true
           V3 V3).
Defined.

(** ** The scroll count (C8, C10) *)

Section Scrolls.

Variable h : Host.

Lemma scrollLoop_NaN_browserOnly (fuel : nat) :
  browserOnly inBodyNoScroll (scrollLoop h fuel (Num.ofZ 0) Num.NaN).
Proof.
  intros w r w' Hrun. rewrite scrollLoop_none in Hrun by reflexivity.
  exact (browserOnly_ret inBodyNoScroll tt w r w' Hrun).
Qed.

(** With [scrolls = NaN] a fetch makes no scroll call at all. *)
Lemma fetch_NaN_no_scroll fuel q login (w : World) r w' :
  fetch h fuel q Num.NaN login w = (r, w') ->
  exists evs, trace w' = trace w ++ evs
              /\ Forall (fun ev => isScroll (act ev) = false) evs.
Proof.
  intros Hrun.
  destruct (fetch_shape h inBodyNoScroll fuel q Num.NaN login w _ _ (fun a H => H)
              (scrollLoop_NaN_browserOnly fuel) Hrun)
    as [acq [body [closes [Ht [Hacq [Hbody Hshape]]]]]].
  exists (acq ++ body ++ closes). split; [exact Ht|].
  apply Forall_app. split.
  { eapply Forall_impl; [|exact Hacq]. intros ev Hev. cbn beta in Hev.
    destruct (act ev); cbn in *; congruence. }
  apply Forall_app. split.
  { eapply Forall_impl; [|exact Hbody]. intros ev [_ Hs]. exact Hs. }
  destruct Hshape as [[_ [-> _]]|[[_ [_ [-> _]]]|[_ [_ [rb [rc [_ [_ [Hrel _]]]]]]]]];
    try constructor.
  apply releaseLog_closes in Hrel.
  eapply Forall_impl; [|exact Hrel]. intros ev Hev. cbn beta in Hev.
  destruct (act ev); cbn in *; congruence.
Qed.

End Scrolls.

(** C10.  When the [scrolls] parameter of a request is present and does
    not parse as an integer, [parseInt] gives NaN, the clamp
    [Math.min(10, Math.max(1, NaN))] gives NaN again, which is not a value
    between 1 and 10, and the scroll loop does nothing: the loop returns at
    once and the request makes no scroll call. *)
Theorem unparsable_scrolls (req : Request) (s : string) :
  req_scrolls req = Some s -> s <> EmptyString -> Str.parseInt10 s = Num.NaN ->
  scrollsOf req = Num.NaN
  /\ Num.leb (Num.ofZ 1) (scrollsOf req) = false
  /\ Num.leb (scrollsOf req) (Num.ofZ 10) = false
  /\ (forall h fuel w,
        scrollLoop h fuel (Num.ofZ 0) (scrollsOf req) w = (Returned tt, w))
  /\ (forall h fuel w resp w',
        handle h fuel req w = (resp, w') ->
        exists evs, trace w' = trace w ++ evs /\ scrollCount evs = 0%nat).
Proof.
  intros Hreq Hs Hparse.
  assert (Hnan : scrollsOf req = Num.NaN).
  { unfold scrollsOf, orString. rewrite Hreq.
    destruct s as [|c s']; [contradiction|]. now rewrite Hparse. }
  split; [exact Hnan|]. rewrite Hnan.
  split; [reflexivity|]. split; [reflexivity|].
  split; [intros h fuel w; now apply scrollLoop_none|].
  intros h fuel w resp w' Hrun. unfold handle in Hrun.
  assert (Hnone : exists evs, trace w = trace w ++ evs /\ scrollCount evs = 0%nat).
  { exists []. now rewrite app_nil_r. }
  destruct (Str.trim (orString (req_q req) "")) as [|c q'] eqn:Hq.
  { injection Hrun as _ <-. exact Hnone. }
  rewrite Hnan in Hrun.
  destruct (pinterestSearch h fuel (String c q') Num.NaN (loginOf req) w)
    as [r w1] eqn:Hsearch.
  assert (Hw : w' = w1) by (destruct r; now injection Hrun).
  subst w1. clear Hrun.
  unfold pinterestSearch in Hsearch.
  destruct (LRU.has _ _ _).
  - destruct (LRU.get _ _ _) as [v c0]. injection Hsearch as _ <-. exact Hnone.
  - destruct (fetch_NaN_no_scroll h _ _ _ _ _ _ Hsearch) as [evs [Ht Hall]].
    exists evs. split; [exact Ht|]. unfold scrollCount.
    clear Ht. induction Hall as [|ev evs Hev _ IH]; [reflexivity|].
    cbn [filter]. now rewrite Hev.
Qed.

Lemma unparsable_scrolls_witness :
  (Str.parseInt10 "abc" = Num.NaN)
  /\ scrollsOf (mkRequest (Some "mugs"%string) (Some "abc"%string) None) = Num.NaN
  /\ scrollLoop (quietHost []) 10 (Num.ofZ 0)
       (scrollsOf (mkRequest (Some "mugs"%string) (Some "abc"%string) None)) freshWorld
     = (Returned tt, freshWorld).
Proof.
  assert (Hp : Str.parseInt10 "abc" = Num.NaN) by reflexivity.
  assert (Hs : "abc"%string <> EmptyString) by discriminate.
  destruct (unparsable_scrolls (mkRequest (Some "mugs"%string) (Some "abc"%string) None)
              "abc" eq_refl Hs Hp) as [Hnan [_ [_ [Hloop _]]]].
  split; [exact Hp|]. split; [exact Hnan|]. apply Hloop.
Defined.

(** C8 against the code: for [GET /api/pinterest?q=mugs&scrolls=abc] the
    value handed to [pinterestSearch] is NaN, which is not between 1 and
    10; the request is answered from a fetch whose scroll loop ran zero
    times, and the result is cached under a key of its own. *)
Lemma scrolls_abc_unclamped :
  let req := mkRequest (Some "mugs"%string) (Some "abc"%string) None in
  scrollsOf req = Num.NaN
  /\ Num.leb (Num.ofZ 1) (scrollsOf req) = false
  /\ scrollCount (trace (snd (handle (quietHost [pinA]) 10 req freshWorld))) = 0%nat
  /\ (exists data, fst (handle (quietHost [pinA]) 10 req freshWorld)
                   = Some (Json200 (Some data)))
  /\ map LRU.key (cache (snd (handle (quietHost [pinA]) 10 req freshWorld)))
     = ["mugs|NaN|false"%string].
Proof.
  cbv zeta. split; [reflexivity|]. split; [reflexivity|].
  split; [vm_compute; reflexivity|].
  split; [eexists; vm_compute; reflexivity | vm_compute; reflexivity].
Qed.

(** *** Where the clamp does work *)

(** [Math.max(1, x)] of anything but NaN is at least 1. *)
Lemma max_one (x : Num.number) :
  x <> Num.NaN ->
  Num.max (Num.ofZ 1) x <> Num.NaN /\ Num.leb (Num.ofZ 1) (Num.max (Num.ofZ 1) x) = true.
Proof.
  intros Hx. change (Num.ofZ 1) with (S754_finite false 4503599627370496 (-52)).
  unfold Num.max, Num.leb, SFleb.
  destruct (SFcompare (S754_finite false 4503599627370496 (-52)) x) as [[| |]|] eqn:Hc.
  - destruct x as [[|]|[|]| |[|] m e]; cbn in Hc; try discriminate;
      split; try discriminate; cbn [SFcompare]; rewrite ?Z.compare_refl; reflexivity.
  - split; [exact Hx | now rewrite Hc].
  - split; [discriminate|]. reflexivity.
  - destruct x as [s|s| |s m e]; cbn in Hc; try discriminate. now contradiction Hx.
Qed.

(** [Math.min(10, y)] is never above 10, and is at least 1 when [y] is. *)
Lemma min_ten (y : Num.number) :
  Num.ltb (Num.ofZ 10) (Num.min (Num.ofZ 10) y) = false
  /\ (Num.leb (Num.ofZ 1) y = true ->
      Num.leb (Num.ofZ 1) (Num.min (Num.ofZ 10) y) = true).
Proof.
  change (Num.ofZ 10) with (S754_finite false 5629499534213120 (-49)).
  unfold Num.min, Num.ltb, SFltb.
  destruct (SFcompare (S754_finite false 5629499534213120 (-49)) y) as [[| |]|] eqn:Hc.
  - destruct y as [[|]|[|]| |[|] m e]; cbn in Hc; try discriminate;
      (split; [cbn [SFcompare]; rewrite ?Z.compare_refl; reflexivity | reflexivity]).
  - split; [reflexivity | reflexivity].
  - split; [now rewrite Hc | trivial].
  - split; [reflexivity|].
    destruct y as [s|s| |s m e]; cbn in Hc; try discriminate; intros H; discriminate H.
Qed.

(** What the handler hands to [pinterestSearch] is never above 10, and it
    is at least 1 unless [parseInt] gave NaN. *)
Lemma scrollsOf_clamped (req : Request) :
  Num.ltb (Num.ofZ 10) (scrollsOf req) = false
  /\ (Str.parseInt10 (orString (req_scrolls req) "3") <> Num.NaN ->
      Num.leb (Num.ofZ 1) (scrollsOf req) = true).
Proof.
  unfold scrollsOf. split; [apply min_ten|].
  intros Hp. apply min_ten. now apply max_one.
Qed.

(** The examples of the specification: 0 becomes 1, 15 becomes 10, and
    an absent or empty parameter gives 3. *)
Lemma scrollsOf_examples :
  scrollsOf (mkRequest (Some "mugs"%string) (Some "0"%string) None) = Num.ofZ 1
  /\ scrollsOf (mkRequest (Some "mugs"%string) (Some "15"%string) None) = Num.ofZ 10
  /\ scrollsOf (mkRequest (Some "mugs"%string) None None) = Num.ofZ 3
  /\ scrollsOf (mkRequest (Some "mugs"%string) (Some ""%string) None) = Num.ofZ 3.
Proof. repeat split; reflexivity. Qed.

Lemma leb_one_ltb_zero (s : Num.number) :
  Num.leb (Num.ofZ 1) s = true -> Num.ltb (Num.ofZ 0) s = true.
Proof.
  change (Num.ofZ 1) with (S754_finite false 4503599627370496 (-52)).
  destruct s as [[|]|[|]| |[|] m e]; cbn; intros H; try discriminate; reflexivity.
Qed.

Lemma scrollCount_app (a b : list Event) :
  scrollCount (a ++ b) = (scrollCount a + scrollCount b)%nat.
Proof. unfold scrollCount. now rewrite filter_app, length_app. Qed.

Lemma scrollCount_none (evs : list Event) :
  Forall (fun ev => isScroll (act ev) = false) evs -> scrollCount evs = 0%nat.
Proof.
  unfold scrollCount. induction 1 as [|ev evs Hev _ IH]; [reflexivity|].
  cbn [filter]. now rewrite Hev.
Qed.

Lemma bind_returned {A B : Type} (m : M A) (k : A -> M B) (w w' : World) (b : B) :
  bind m k w = (Returned b, w') ->
  exists a w1, m w = (Returned a, w1) /\ k a w1 = (Returned b, w').
Proof.
  unfold bind. destruct (m w) as [[a|e|] w1]; intros H; try discriminate.
  now exists a, w1.
Qed.

Section Iterations.

Variable h : Host.

Lemma perform_returned (a : action) (w w' : World) :
  perform h a w = (Returned tt, w') -> trace w' = trace w ++ [mkEvent a None].
Proof.
  intros Hrun. destruct (perform_spec h a w) as [w1 [_ [_ [_ [Ht Heq]]]]].
  rewrite Heq in Hrun. destruct (rejects h (List.length (trace w)) a); [discriminate|].
  injection Hrun as <-. exact Ht.
Qed.

(** From [i = k] the loop, when it returns, has run at most [10 - k]
    times, and at least once if [k < scrolls]. *)
Lemma scrollLoop_count (scrolls : Num.number) (n k fuel : nat) (w w' : World) :
  Num.ltb (Num.ofZ 10) scrolls = false ->
  (k + n = 10)%nat ->
  scrollLoop h fuel (Num.ofNat k) scrolls w = (Returned tt, w') ->
  exists evs,
    trace w' = trace w ++ evs
    /\ (scrollCount evs <= n)%nat
    /\ (Num.ltb (Num.ofNat k) scrolls = true -> (1 <= scrollCount evs)%nat).
Proof.
  intros Hten. revert k fuel w. induction n as [|n IH]; intros k fuel w Hk Hrun.
  - assert (k = 10%nat) by lia. subst k.
    rewrite scrollLoop_none in Hrun by exact Hten. injection Hrun as <-.
    exists []. rewrite app_nil_r. split; [reflexivity|]. split; [apply Nat.le_refl|].
    change (Num.ofNat 10) with (Num.ofZ 10). rewrite Hten. discriminate.
  - destruct (Num.ltb (Num.ofNat k) scrolls) eqn:Hlt.
    + destruct fuel as [|fuel]; cbn [scrollLoop] in Hrun; rewrite Hlt in Hrun;
        [discriminate|].
      apply bind_returned in Hrun. destruct Hrun as [[] [w1 [H1 Hrun]]].
      apply bind_returned in Hrun. destruct Hrun as [[] [w2 [H2 Hrun]]].
      apply perform_returned in H1. apply perform_returned in H2.
      rewrite add_one_small in Hrun by lia.
      destruct (IH (S k) fuel w2 ltac:(lia) Hrun) as [evs [Ht [Hle _]]].
      exists ([mkEvent ScrollToBottom None]
              ++ [mkEvent (WaitForTimeout
                             (1500 + random h (List.length (trace w1)) mod 1000)) None]
              ++ evs).
      split; [rewrite Ht, H2, H1; now rewrite <- !app_assoc|].
      rewrite !scrollCount_app. cbn [scrollCount filter act isScroll List.length].
      split; [lia | intros _; lia].
    + rewrite scrollLoop_none in Hrun by exact Hlt. injection Hrun as <-.
      exists []. rewrite app_nil_r. split; [reflexivity|].
      split; [apply Nat.le_0_l | discriminate].
Qed.

(** A fetch that returns, with [scrolls] between 1 and 10, has scrolled
    between 1 and 10 times, and its result is assembled from what the
    extraction closure returned. *)
Lemma fetch_scroll_count fuel q scrolls login (w w' : World) out :
  Num.leb (Num.ofZ 1) scrolls = true ->
  Num.ltb (Num.ofZ 10) scrolls = false ->
  fetch h fuel q scrolls login w = (Returned out, w') ->
  exists evs,
    trace w' = trace w ++ evs /\ (1 <= scrollCount evs <= 10)%nat
    /\ exists n, out = Some (assemble q (extracted h n)).
Proof.
  intros Hone Hten Hrun.
  destruct (fetch_spec h _ _ _ _ _ _ _ Hrun) as [acq [Hacq Hcases]].
  destruct Hcases as [[pre [a [e [_ [_ [Hr _]]]]]]
                     |[_ [_ [w0 [rb [wb [Ht0 [_ [_ [Hb Hfin]]]]]]]]]]; [discriminate|].
  destruct Hfin as [[_ [Hr _]]|[_ [rc [Hrel Hr]]]]; [discriminate|].
  assert (Hrb : rb = Returned out /\ exists u, rc = Returned u).
  { destruct rb as [v|e|]; destruct rc as [u|e'|]; cbn in Hr; try discriminate.
    injection Hr as <-. split; [reflexivity | now exists u]. }
  destruct Hrb as [-> [u ->]].
  unfold fetchBody in Hb.
  apply bind_returned in Hb. destruct Hb as [pins [ws [Hs Hb]]].
  assert (Hwb : trace wb = trace ws /\ out = Some (assemble q pins)).
  { unfold bind, cacheSet, ret in Hb. injection Hb as <- <-. split; reflexivity. }
  destruct Hwb as [Htb ->].
  unfold scrape in Hs.
  apply bind_returned in Hs. destruct Hs as [[] [w1 [Hlogin Hs]]].
  apply bind_returned in Hs. destruct Hs as [[] [w2 [Hgoto Hs]]].
  apply bind_returned in Hs. destruct Hs as [[] [w3 [Hloop Hs]]].
  unfold extractPins in Hs.
  apply bind_returned in Hs. destruct Hs as [n [w4 [Hcall Hret]]].
  injection Hret as <- <-.
  destruct (loginSteps_browserOnly h login _ _ _ Hlogin)
    as [_ [_ [_ [evl [Htl [Hall _]]]]]].
  apply perform_returned in Hgoto.
  destruct (scrollLoop_count scrolls 10 0 fuel w2 w3 Hten eq_refl Hloop)
    as [evs [Hts [Hle Hge]]].
  specialize (Hge (leb_one_ltb_zero _ Hone)).
  destruct (call_spec h ExtractPins w3) as [wc [_ [_ [_ [Htc Heq]]]]].
  rewrite Heq in Hcall.
  destruct (rejects h (List.length (trace w3)) ExtractPins); [discriminate|].
  injection Hcall as <- <-.
  destruct (release_spec h _ _ _ Hrel) as [_ [_ [_ [closes [Htr Hlog]]]]].
  exists (acq ++ evl ++ [mkEvent (Goto (searchUrl q)) None] ++ evs
          ++ [mkEvent ExtractPins None] ++ closes).
  split.
  { rewrite Htr, Htb, Htc, Hts, Hgoto, Htl, Ht0. now rewrite <- !app_assoc. }
  split; [|now exists (List.length (trace w3))].
  rewrite !scrollCount_app.
  rewrite (scrollCount_none acq), (scrollCount_none evl), (scrollCount_none closes).
  - cbn [scrollCount filter act isScroll List.length]. lia.
  - apply releaseLog_closes in Hlog.
    eapply Forall_impl; [|exact Hlog]. intros ev Hev. cbn beta in Hev.
    destruct (act ev); cbn in *; congruence.
  - eapply Forall_impl; [|exact Hall]. intros ev [_ Hev]. exact Hev.
  - eapply Forall_impl; [|exact Hacq]. intros ev Hev. cbn beta in Hev.
    destruct (act ev); cbn in *; congruence.
Qed.

(** For a request whose [scrolls] parameter is absent or parses as an
    integer, a fetch that answers it has scrolled between 1 and 10
    times. *)
Lemma parsable_scrolls_iterations fuel (req : Request) (w w' : World) data :
  Str.parseInt10 (orString (req_scrolls req) "3") <> Num.NaN ->
  LRU.has (clock w) (cache w)
    (cacheKey h (Str.trim (orString (req_q req) "")) (scrollsOf req) (loginOf req)) = false ->
  handle h fuel req w = (Some (Json200 data), w') ->
  exists evs, trace w' = trace w ++ evs /\ (1 <= scrollCount evs <= 10)%nat.
Proof.
  intros Hparse Hmiss Hrun. unfold handle in Hrun.
  destruct (Str.trim (orString (req_q req) "")) as [|c q'] eqn:Hq; [discriminate|].
  rewrite pinterestSearch_miss in Hrun by exact Hmiss.
  destruct (fetch h fuel (String c q') (scrollsOf req) (loginOf req) w)
    as [r w1] eqn:Hfetch.
  destruct r as [out|e|]; try discriminate. injection Hrun as _ <-.
  destruct (scrollsOf_clamped req) as [Hten Hone].
  destruct (fetch_scroll_count _ _ _ _ _ _ _ (Hone Hparse) Hten Hfetch)
    as [evs [Ht [Hcount _]]].
  now exists evs.
Qed.

End Iterations.

(** ** The assembled result (C9) *)

Section Assembled.

Variable h : Host.

(** A fetch that returns has assembled its result from what the extraction
    closure returned. *)
Lemma fetch_returned_extracted fuel q scrolls login (w w' : World) out :
  fetch h fuel q scrolls login w = (Returned out, w') ->
  exists n, out = Some (assemble q (extracted h n)).
Proof.
  intros Hrun.
  destruct (fetch_spec h _ _ _ _ _ _ _ Hrun) as [acq [_ Hcases]].
  destruct Hcases as [[pre [a [e [_ [_ [Hr _]]]]]]
                     |[_ [_ [w0 [rb [wb [_ [_ [_ [Hb Hfin]]]]]]]]]]; [discriminate|].
  destruct Hfin as [[_ [Hr _]]|[_ [rc [_ Hr]]]]; [discriminate|].
  assert (Hrb : rb = Returned out).
  { destruct rb as [v|e|]; destruct rc as [u|e'|]; cbn in Hr; try discriminate.
    now injection Hr as <-. }
  subst rb. unfold fetchBody in Hb.
  apply bind_returned in Hb. destruct Hb as [pins [ws [Hs Hb]]].
  assert (Hout : out = Some (assemble q pins)).
  { unfold bind, cacheSet, ret in Hb. now injection Hb as <- _. }
  unfold scrape in Hs.
  apply bind_returned in Hs. destruct Hs as [[] [w1 [_ Hs]]].
  apply bind_returned in Hs. destruct Hs as [[] [w2 [_ Hs]]].
  apply bind_returned in Hs. destruct Hs as [[] [w3 [_ Hs]]].
  unfold extractPins in Hs.
  apply bind_returned in Hs. destruct Hs as [n [w4 [_ Hret]]].
  injection Hret as <- _. now exists n.
Qed.

End Assembled.

(** The first [n] records of the walk, in the order of the input. *)
Lemma keepFirst_firstn_Subseq (n : nat) (seen : list string) (records : list Pin) :
  Subseq (firstn n (keepFirst seen records)) records.
Proof.
  revert n seen. induction records as [|x rest IH]; intros n seen; cbn [keepFirst].
  - rewrite firstn_nil. constructor.
  - destruct (existsb (String.eqb (pinId x)) seen); [apply Subseq_skip, IH|].
    destruct n as [|n]; cbn [firstn].
    + apply Subseq_skip. apply (IH 0%nat seen).
    + apply Subseq_keep, IH.
Qed.

(** C9.  Every result that [pinterestSearch] assembles on a cache miss is
    built from the [pins] the extraction returned, and is measured here
    against the specification's walk [keepFirst [] pins], which keeps a
    record exactly when no earlier record has its identifier.  The loaded
    count is the number of records the walk keeps; the sample is the first
    50 of them, so it has [min 50 loadedPins] records, at most 50, with
    pairwise distinct identifiers, in the order in which the extraction
    returned them; the score is the scorer's on the kept records with
    their number as loaded count; and the result is flagged low
    competition exactly when the score is at most 35 (a comparison of
    integers as soon as no record has a negative save count). *)
Theorem search_result_invariants (h : Host) (fuel : nat) (q : string)
    (scrolls : Num.number) (login : bool) (w w' : World) (out : option SearchResult) :
  LRU.has (clock w) (cache w) (cacheKey h q scrolls login) = false ->
  pinterestSearch h fuel q scrolls login w = (Returned out, w') ->
  exists pins result,
    (exists n, pins = extracted h n)
    /\ out = Some result
    /\ query result = q
    /\ loadedPins result = List.length (keepFirst [] pins)
    /\ sample result = firstn 50 (keepFirst [] pins)
    /\ List.length (sample result) = Nat.min 50 (loadedPins result)
    /\ (List.length (sample result) <= 50)%nat
    /\ NoDup (map pinId (sample result))
    /\ Subseq (sample result) pins
    /\ (forall p, In p (keepFirst [] pins) <->
                  exists pre post, pins = pre ++ p :: post
                                   /\ ~ In (pinId p) (map pinId pre))
    /\ keywordDifficulty result
       = computeKD (keepFirst [] pins) (Num.ofNat (List.length (keepFirst [] pins)))
    /\ (lowCompetition result = true
        <-> Num.leb (keywordDifficulty result) (Num.ofZ 35) = true)
    /\ (Forall (fun p => Num.ltb (saves p) (Num.ofZ 0) = false) pins ->
        exists z : Z,
          0 <= z <= 100 /\ keywordDifficulty result = Num.ofZ z
          /\ (lowCompetition result = true <-> z <= 35)).
Proof.
  intros Hmiss Hrun. rewrite pinterestSearch_miss in Hrun by exact Hmiss.
  destruct (fetch_returned_extracted h _ _ _ _ _ _ _ Hrun) as [n ->].
  exists (extracted h n), (assemble q (extracted h n)).
  destruct (assemble_invariants q (extracted h n))
    as [H0 [H1 [H2 [H3 [H4 [_ [H5 H6]]]]]]].
  rewrite uniquePins_keepFirst in H1, H2.
  split; [now exists n|]. split; [reflexivity|]. split; [exact H0|].
  split; [exact H1|]. split; [exact H2|].
  split; [rewrite H2, H1; apply length_firstn|].
  split; [exact H3|]. split; [exact H4|].
  split; [rewrite H2; apply keepFirst_firstn_Subseq|].
  split; [intros p; apply (keepFirst_In [] (extracted h n) p)|].
  split; [cbn [assemble keywordDifficulty]; now rewrite uniquePins_keepFirst|].
  split; [now rewrite H5 | exact H6].
Qed.

Lemma search_result_invariants_witness :
  let run := pinterestSearch (quietHost [pinA; pinB; pinA']) 10 "mugs" (Num.ofZ 2) false
               freshWorld in
  exists out,
    fst run = Returned out
    /\ exists pins result,
         out = Some result
         /\ loadedPins result = List.length (keepFirst [] pins)
         /\ sample result = firstn 50 (keepFirst [] pins)
         /\ NoDup (map pinId (sample result))
         /\ Subseq (sample result) pins.
Proof.
  intros run.
  destruct run as [r w'] eqn:Hrun.
  assert (Hr : exists out, r = Returned out).
  { subst run. vm_compute in Hrun. injection Hrun as <- _. eexists. reflexivity. }
  destruct Hr as [out ->]. exists out. split; [reflexivity|].
  destruct (search_result_invariants (quietHost [pinA; pinB; pinA']) 10 "mugs"
              (Num.ofZ 2) false freshWorld w' out eq_refl Hrun)
    as [pins [result [_ [H1 [_ [H2 [H3 [_ [_ [H4 [H5 _]]]]]]]]]]].
  exists pins, result. repeat split; assumption.
Defined.

(** * Further properties *)

(** ** The handler and the query *)

Lemma trimStart_split (s : string) :
  exists l, s = (l ++ Str.trimStart s)%string /\ allWhite l = true
            /\ notWhite (firstChar (Str.trimStart s)).
Proof.
  induction s as [|c r IH]; cbn [Str.trimStart].
  - exists EmptyString. repeat split.
  - destruct (Str.isWhite c) eqn:Hc.
    + destruct IH as [l [Hl [Hw Hf]]]. exists (String c l). cbn [append allWhite].
      rewrite Hc, Hw. repeat split; [now f_equal | assumption].
    + exists EmptyString. repeat split. exact Hc.
Qed.

Lemma trimEnd_split (s : string) :
  exists r, s = (Str.trimEnd s ++ r)%string /\ allWhite r = true
            /\ notWhite (lastChar (Str.trimEnd s)).
Proof.
  induction s as [|c s IH]; cbn [Str.trimEnd].
  - exists EmptyString. repeat split.
  - destruct IH as [r [Hr [Hw Hl]]].
    destruct (Str.trimEnd s) as [|c' t'] eqn:Ht.
    + cbn [append] in Hr. subst s. destruct (Str.isWhite c) eqn:Hc.
      * exists (String c r). cbn [append allWhite]. rewrite Hc, Hw. repeat split.
      * exists r. repeat split; assumption.
    + exists r. split; [change (String c s = String c (String c' t' ++ r)); now f_equal|].
      split; [assumption | exact Hl].
Qed.

Lemma trimEnd_first (s : string) :
  notWhite (firstChar s) -> firstChar (Str.trimEnd s) = firstChar s.
Proof.
  destruct s as [|c r]; [reflexivity|]. cbn [firstChar notWhite Str.trimEnd]. intros Hc.
  destruct (Str.trimEnd r); [now rewrite Hc | reflexivity].
Qed.

Lemma trimStart_fixed (s : string) : notWhite (firstChar s) -> Str.trimStart s = s.
Proof. destruct s as [|c r]; [reflexivity|]. cbn. now intros ->. Qed.

Lemma trimEnd_fixed (s : string) : notWhite (lastChar s) -> Str.trimEnd s = s.
Proof.
  induction s as [|c r IH]; [reflexivity|]. cbn [lastChar Str.trimEnd].
  destruct r as [|c' r'].
  - cbn. now intros ->.
  - intros H. rewrite (IH H). reflexivity.
Qed.

Lemma trim_spec (s : string) :
  exists l r,
    s = (l ++ Str.trim s ++ r)%string /\ allWhite l = true /\ allWhite r = true
    /\ notWhite (firstChar (Str.trim s)) /\ notWhite (lastChar (Str.trim s)).
Proof.
  unfold Str.trim.
  destruct (trimStart_split s) as [l [Hl [Hwl Hf]]].
  destruct (trimEnd_split (Str.trimStart s)) as [r [Hr [Hwr Hla]]].
  exists l, r. split; [now rewrite <- Hr|]. repeat split; try assumption.
  now rewrite trimEnd_first.
Qed.

Lemma trim_trim (s : string) : Str.trim (Str.trim s) = Str.trim s.
Proof.
  destruct (trim_spec s) as [l [r [_ [_ [_ [Hf Hl]]]]]].
  unfold Str.trim at 1. rewrite (trimStart_fixed _ Hf). now apply trimEnd_fixed.
Qed.

Lemma allWhite_app (a b : string) :
  allWhite (a ++ b) = allWhite a && allWhite b.
Proof.
  induction a as [|c a IH]; [reflexivity|]. cbn. rewrite IH. now rewrite andb_assoc.
Qed.

Lemma allWhite_first (s : string) :
  allWhite s = true -> notWhite (firstChar s) -> s = EmptyString.
Proof.
  destruct s as [|c r]; [reflexivity|]. cbn. intros H Hc. rewrite Hc in H. discriminate.
Qed.

Lemma trim_empty (s : string) : Str.trim s = EmptyString <-> allWhite s = true.
Proof.
  destruct (trim_spec s) as [l [r [Hs [Hl [Hr [Hf _]]]]]]. split.
  - intros He. rewrite He in Hs. cbn in Hs. rewrite Hs, allWhite_app, Hl, Hr. reflexivity.
  - intros Hw. rewrite Hs, !allWhite_app in Hw.
    apply andb_prop in Hw. destruct Hw as [_ Hw]. apply andb_prop in Hw.
    destruct Hw as [Hw _]. now apply allWhite_first.
Qed.

Lemma orString_empty (s : string) : orString (Some s) "" = s.
Proof. now destruct s. Qed.

(** X2.  A request whose [q] is absent, empty or made of white space
    only is answered 400 "Missing q" and nothing else happens: no browser
    call, no cache access, the world is as before.  Any other request is
    never answered 400. *)
Theorem handle_blank_query (h : Host) (fuel : nat) (req : Request) (w : World) :
  if blank (req_q req)
  then handle h fuel req w = (Some (Json400 "Missing q"), w)
  else forall msg, fst (handle h fuel req w) <> Some (Json400 msg).
Proof.
  unfold handle, blank. destruct (req_q req) as [s|]; [|reflexivity].
  rewrite orString_empty. destruct (allWhite s) eqn:Hw.
  - apply trim_empty in Hw. now rewrite Hw.
  - destruct (Str.trim s) as [|c t] eqn:Ht.
    + apply trim_empty in Ht. congruence.
    + intros msg. destruct (pinterestSearch _ _ _ _ _ _) as [[v|e|] w']; discriminate.
Qed.

(** X3.  White space around [q] makes no difference: the handler does
    with [q] exactly what it does with [q.trim()], which is [q] without
    the white space at both ends and neither starts nor ends with white
    space. *)
Theorem handle_trims_query (h : Host) (fuel : nat) (s : string)
    (scrolls login : option string) (w : World) :
  handle h fuel (mkRequest (Some s) scrolls login) w
  = handle h fuel (mkRequest (Some (Str.trim s)) scrolls login) w
  /\ exists l r, s = (l ++ Str.trim s ++ r)%string
                 /\ allWhite l = true /\ allWhite r = true
                 /\ notWhite (firstChar (Str.trim s))
                 /\ notWhite (lastChar (Str.trim s)).
Proof.
  split; [|apply trim_spec].
  unfold handle. cbn [req_q]. rewrite !orString_empty, trim_trim. reflexivity.
Qed.



(** ** Decimal parameters *)

Lemma digitsPrefix_acc (d : uint) (acc : positive) :
  Str.digitsPrefix (NilEmpty.string_of_uint d) (Some (Zpos acc))
  = Some (Zpos (Pos.of_uint_acc d acc)).
Proof.
  revert acc. induction d; intros acc; cbn [NilEmpty.string_of_uint Str.digitsPrefix Pos.of_uint_acc];
    [reflexivity | ..];
    (change (Str.isDigit _) with true; cbn iota; rewrite <- IHd; do 2 f_equal;
     match goal with
     | |- context [Str.digitVal ?c] =>
         let v := eval vm_compute in (Str.digitVal c) in change (Str.digitVal c) with v
     end; lia).
Qed.

Lemma digitsPrefix_zero (d : uint) :
  Str.digitsPrefix (NilEmpty.string_of_uint d) (Some 0) = Some (Z.of_N (Pos.of_uint d)).
Proof.
  induction d; cbn [NilEmpty.string_of_uint Str.digitsPrefix Pos.of_uint];
    [reflexivity | exact IHd | ..];
    (change (Str.isDigit _) with true; cbn iota; cbn [Z.of_N];
     rewrite <- digitsPrefix_acc; reflexivity).
Qed.

Lemma digitsPrefix_start (d : uint) :
  d <> Nil ->
  Str.digitsPrefix (NilEmpty.string_of_uint d) None = Some (Z.of_N (Pos.of_uint d)).
Proof.
  intros Hd. rewrite <- digitsPrefix_zero. destruct d; [contradiction | reflexivity ..].
Qed.

Lemma digitsPrefix_to_uint (p : positive) :
  Str.digitsPrefix (NilEmpty.string_of_uint (Pos.to_uint p)) None = Some (Zpos p).
Proof.
  rewrite digitsPrefix_start by apply Unsigned.to_uint_nonnil.
  now rewrite Unsigned.of_to.
Qed.

(** A digit string starts with neither white space nor a sign. *)
Lemma uint_head (d : uint) :
  d <> Nil ->
  exists c r, NilEmpty.string_of_uint d = String c r
              /\ Str.isWhite c = false /\ c <> "-"%char /\ c <> "+"%char.
Proof.
  intros Hd. destruct d; [contradiction | ..]; cbn [NilEmpty.string_of_uint];
    eexists; eexists; (split; [reflexivity|]); repeat split; discriminate.
Qed.

Lemma parseInt10_unsigned (s : string) (c : ascii) (r : string) :
  s = String c r -> Str.isWhite c = false -> c <> "-"%char -> c <> "+"%char ->
  Str.parseInt10 s
  = match Str.digitsPrefix s None with
    | None => Num.NaN
    | Some n => if n =? 0 then S754_zero false else Num.ofZ n
    end.
Proof.
  intros -> Hw Hm Hp. unfold Str.parseInt10. cbn [Str.trimStart]. rewrite Hw.
  destruct c as [[|] [|] [|] [|] [|] [|] [|] [|]]; try reflexivity; congruence.
Qed.

(** [parseInt(String(z), 10)] is [z]. *)
Lemma parseInt10_ofInteger (z : Z) : Str.parseInt10 (Str.ofInteger z) = Num.ofZ z.
Proof.
  unfold Str.ofInteger. destruct z as [|p|p]; [reflexivity | |].
  - cbn [Z.to_int NilZero.string_of_int].
    assert (Hn : Pos.to_uint p <> Nil) by apply Unsigned.to_uint_nonnil.
    assert (Hs : NilZero.string_of_uint (Pos.to_uint p)
                 = NilEmpty.string_of_uint (Pos.to_uint p)).
    { unfold NilZero.string_of_uint. destruct (Pos.to_uint p); congruence. }
    rewrite Hs. destruct (uint_head _ Hn) as [c [r [Hcr [Hw [Hm Hp]]]]].
    rewrite (parseInt10_unsigned _ c r Hcr Hw Hm Hp), digitsPrefix_to_uint. reflexivity.
  - cbn [Z.to_int NilZero.string_of_int].
    assert (Hn : Pos.to_uint p <> Nil) by apply Unsigned.to_uint_nonnil.
    assert (Hs : NilZero.string_of_uint (Pos.to_uint p)
                 = NilEmpty.string_of_uint (Pos.to_uint p)).
    { unfold NilZero.string_of_uint. destruct (Pos.to_uint p); congruence. }
    rewrite Hs. unfold Str.parseInt10.
    change (Str.trimStart (String "-" ?s)) with (String "-" s).
    cbn iota. rewrite digitsPrefix_to_uint. reflexivity.
Qed.

Lemma ofZ_shape (n : Z) :
  n <> 0 -> Z.abs n < 2 ^ 53 ->
  exists (m : positive) (k : Z),
    Num.ofZ n = S754_finite (n <? 0) m (- k)
    /\ 0 <= k <= 52 /\ Zpos m = Z.abs n * 2 ^ k /\ 2 ^ 52 <= Zpos m < 2 ^ 53.
Proof.
  intros Hn Hb. destruct n as [|p|p]; [contradiction| |];
    unfold Num.ofZ, binary_normalize.
  - exact (binary_round_small false p Hb).
  - exact (binary_round_small true p Hb).
Qed.

(** Of two numbers with 53-bit mantissas the one with the smaller
    exponent is the smaller one. *)
Lemma scaled_lt (a b k1 k2 : Z) :
  0 < a -> 0 < b -> 0 <= k2 < k1 ->
  a * 2 ^ k1 < 2 ^ 53 -> 2 ^ 52 <= b * 2 ^ k2 -> a < b.
Proof.
  intros Ha Hb Hk H1 H2.
  replace k1 with (k2 + (k1 - k2)) in H1 by lia.
  rewrite Z.pow_add_r in H1 by lia.
  assert (HP : 0 < 2 ^ k2) by (apply Z.pow_pos_nonneg; lia).
  assert (HD : 2 ^ 1 <= 2 ^ (k1 - k2)) by (apply Z.pow_le_mono_r; lia).
  change (2 ^ 1) with 2 in HD. change (2 ^ 53) with (2 * 2 ^ 52) in H1.
  set (P := 2 ^ k2) in *. set (D := 2 ^ (k1 - k2)) in *. set (T := 2 ^ 52) in *.
  destruct (Z.lt_ge_cases a b) as [|Hge]; [assumption|exfalso].
  assert (b * P <= a * P) by (apply Z.mul_le_mono_nonneg_r; lia).
  assert (a * P * 2 <= a * P * D) by (apply Z.mul_le_mono_nonneg_l; nia).
  nia.
Qed.

Lemma compare_positive (a b : Z) :
  0 < a < 2 ^ 53 -> 0 < b < 2 ^ 53 ->
  forall m1 k1 m2 k2,
    0 <= k1 <= 52 -> Zpos m1 = a * 2 ^ k1 -> 2 ^ 52 <= Zpos m1 < 2 ^ 53 ->
    0 <= k2 <= 52 -> Zpos m2 = b * 2 ^ k2 -> 2 ^ 52 <= Zpos m2 < 2 ^ 53 ->
    match - k1 ?= - k2 with
    | Lt => Lt
    | Gt => Gt
    | Eq => Pos.compare_cont Eq m1 m2
    end = (a ?= b).
Proof.
  intros Ha Hb m1 k1 m2 k2 Hk1 Hm1 Hr1 Hk2 Hm2 Hr2.
  rewrite Hm1 in Hr1. rewrite Hm2 in Hr2. symmetry.
  destruct (Z.compare_spec (- k1) (- k2)) as [He|Hlt|Hgt].
  - assert (k1 = k2) by lia. subst k2.
    change (Pos.compare_cont Eq m1 m2) with (Zpos m1 ?= Zpos m2). rewrite Hm1, Hm2.
    assert (HP : 0 < 2 ^ k1) by (apply Z.pow_pos_nonneg; lia).
    destruct (Z.compare_spec a b) as [->|H|H]; symmetry.
    + apply Z.compare_refl.
    + apply Z.compare_lt_iff. now apply Z.mul_lt_mono_pos_r.
    + apply Z.compare_gt_iff. now apply Z.mul_lt_mono_pos_r.
  - apply Z.compare_lt_iff. apply (scaled_lt a b k1 k2); lia.
  - apply Z.compare_gt_iff. apply (scaled_lt b a k2 k1); lia.
Qed.

(** Comparison of the Number values of two integers below [2^53] in
    magnitude is the comparison of the integers. *)
Lemma SFcompare_ofZ (a b : Z) :
  Z.abs a < 2 ^ 53 -> Z.abs b < 2 ^ 53 ->
  SFcompare (Num.ofZ a) (Num.ofZ b) = Some (a ?= b).
Proof.
  intros Ha Hb.
  destruct (Z.eq_dec a 0) as [->|Ha0]; destruct (Z.eq_dec b 0) as [->|Hb0].
  - reflexivity.
  - destruct (ofZ_shape b Hb0 Hb) as [m [k [-> _]]].
    change (Num.ofZ 0) with (S754_zero false). cbn [SFcompare].
    destruct (Z.ltb_spec b 0); f_equal; symmetry;
      [apply Z.compare_gt_iff | apply Z.compare_lt_iff]; lia.
  - destruct (ofZ_shape a Ha0 Ha) as [m [k [-> _]]].
    change (Num.ofZ 0) with (S754_zero false). cbn [SFcompare].
    destruct (Z.ltb_spec a 0); f_equal; symmetry;
      [apply Z.compare_lt_iff | apply Z.compare_gt_iff]; lia.
  - destruct (ofZ_shape a Ha0 Ha) as [m1 [k1 [-> [Hk1 [Hm1 Hr1]]]]].
    destruct (ofZ_shape b Hb0 Hb) as [m2 [k2 [-> [Hk2 [Hm2 Hr2]]]]].
    cbn [SFcompare].
    destruct (Z.ltb_spec a 0) as [Han|Hap]; destruct (Z.ltb_spec b 0) as [Hbn|Hbp].
    + rewrite Z.abs_neq in Hm1, Ha by lia. rewrite Z.abs_neq in Hm2, Hb by lia.
      pose proof (compare_positive (- a) (- b) ltac:(lia) ltac:(lia)
                    m1 k1 m2 k2 Hk1 Hm1 Hr1 Hk2 Hm2 Hr2) as Hc.
      rewrite (Z.compare_opp a b) in Hc. rewrite (Z.compare_antisym b a), <- Hc.
      destruct (- k1 ?= - k2); reflexivity.
    + f_equal. symmetry. apply Z.compare_lt_iff. lia.
    + f_equal. symmetry. apply Z.compare_gt_iff. lia.
    + rewrite Z.abs_eq in Hm1, Ha by lia. rewrite Z.abs_eq in Hm2, Hb by lia.
      rewrite <- (compare_positive a b ltac:(lia) ltac:(lia)
                    m1 k1 m2 k2 Hk1 Hm1 Hr1 Hk2 Hm2 Hr2).
      destruct (- k1 ?= - k2); reflexivity.
Qed.

Lemma min_ofZ (a b : Z) :
  Z.abs a < 2 ^ 53 -> Z.abs b < 2 ^ 53 ->
  Num.min (Num.ofZ a) (Num.ofZ b) = Num.ofZ (Z.min a b).
Proof.
  intros Ha Hb. unfold Num.min, Z.min. rewrite (SFcompare_ofZ a b Ha Hb).
  destruct (Z.compare_spec a b) as [->|H|H]; try reflexivity.
  destruct (Num.ofZ b) as [[|]| | |]; reflexivity.
Qed.

Lemma max_ofZ (a b : Z) :
  Z.abs a < 2 ^ 53 -> Z.abs b < 2 ^ 53 ->
  Num.max (Num.ofZ a) (Num.ofZ b) = Num.ofZ (Z.max a b).
Proof.
  intros Ha Hb. unfold Num.max, Z.max. rewrite (SFcompare_ofZ a b Ha Hb).
  destruct (Z.compare_spec a b) as [->|H|H]; try reflexivity.
  destruct (Num.ofZ b) as [[|]| | |]; reflexivity.
Qed.

Lemma orString_ofInteger (z : Z) (d : string) :
  orString (Some (Str.ofInteger z)) d = Str.ofInteger z.
Proof.
  destruct (Str.ofInteger z) eqn:E; [|reflexivity].
  exfalso. unfold Str.ofInteger in E. destruct z as [|p|p]; [discriminate| |discriminate].
  cbn in E. unfold NilZero.string_of_uint in E.
  destruct (Pos.to_uint p); discriminate.
Qed.

(** X4.  A [scrolls] parameter written as a decimal integer [z] is
    passed on as [max(1, min(10, z))]: [parseInt] reads the integer back,
    and the clamp brings it between 1 and 10.  The cache key spells that
    clamped number, so requests whose [scrolls] clamp to the same number
    share a cache entry. *)
Theorem scrollsOf_decimal (h : Host) (q login : option string) (z : Z) :
  Z.abs z < 2 ^ 53 ->
  scrollsOf (mkRequest q (Some (Str.ofInteger z)) login) = Num.ofZ (Z.min 10 (Z.max 1 z))
  /\ 1 <= Z.min 10 (Z.max 1 z) <= 10
  /\ forall query flag,
       cacheKey h query (scrollsOf (mkRequest q (Some (Str.ofInteger z)) login)) flag
       = (query ++ "|" ++ Str.ofInteger (Z.min 10 (Z.max 1 z)) ++ "|"
          ++ Str.ofBool flag)%string.
Proof.
  intros Hz.
  assert (Hs : scrollsOf (mkRequest q (Some (Str.ofInteger z)) login)
               = Num.ofZ (Z.min 10 (Z.max 1 z))).
  { unfold scrollsOf. cbn [req_scrolls].
    rewrite orString_ofInteger, parseInt10_ofInteger, max_ofZ, min_ofZ;
      try reflexivity; lia. }
  split; [exact Hs|]. split; [lia|].
  intros query flag. rewrite Hs. unfold cacheKey.
  rewrite numberToString_ofZ by lia. reflexivity.
Qed.

Lemma scrollsOf_decimal_witness :
  scrollsOf (mkRequest (Some "mugs"%string) (Some "15"%string) None) = Num.ofZ 10
  /\ cacheKey (quietHost []) "mugs"
       (scrollsOf (mkRequest (Some "mugs"%string) (Some "15"%string) None)) false
     = "mugs|10|false"%string.
Proof.
  destruct (scrollsOf_decimal (quietHost []) (Some "mugs"%string) None 15) as [H1 [_ H2]];
    [reflexivity|].
  split; [exact H1 | exact (H2 "mugs"%string false)].
Defined.

(** ** Invariants of a request *)

Lemma preserves_ret {A} (I : World -> Prop) (a : A) : preserves I (ret a).
Proof. intros w r w' [= <- <-] HI. exact HI. Qed.

Lemma preserves_bind {A B} (I : World -> Prop) (m : M A) (k : A -> M B) :
  preserves I m -> (forall a, preserves I (k a)) -> preserves I (bind m k).
Proof.
  intros Hm Hk w r w' Hrun HI. unfold bind in Hrun.
  destruct (m w) as [[a|e|] w1] eqn:E.
  - exact (Hk a _ _ _ Hrun (Hm _ _ _ E HI)).
  - injection Hrun as <- <-. exact (Hm _ _ _ E HI).
  - injection Hrun as <- <-. exact (Hm _ _ _ E HI).
Qed.

Lemma preserves_tryFinally {A} (I : World -> Prop) (body : M A) (cleanup : M unit) :
  preserves I body -> preserves I cleanup -> preserves I (tryFinally body cleanup).
Proof.
  intros Hb Hc w r w' Hrun HI.
  destruct (tryFinally_spec _ _ _ _ _ Hrun) as [rb [wb [Eb [[_ [_ ->]]|[_ [rc [Ec _]]]]]]].
  - exact (Hb _ _ _ Eb HI).
  - exact (Hc _ _ _ Ec (Hb _ _ _ Eb HI)).
Qed.

Section Invariants.

Variable h : Host.
Variable q : string.
Variable login : bool.
Variable I : World -> Prop.

(** The invariant survives every call the request may make, ... *)
Hypothesis I_call :
  forall a w, requestAction h q login a -> I w -> I (snd (call h a w)).
(** ... does not look at the cache or at the clock, ... *)
Hypothesis I_cache :
  forall w c k, I w ->
    I {| cache := c; browser := browser w; clock := k; trace := trace w |}.
(** ... and survives [getBrowser()]. *)
Hypothesis I_getBrowser : preserves I (getBrowser h).

Lemma preserves_call (a : action) : requestAction h q login a -> preserves I (call h a).
Proof.
  intros Ha w r w' Hrun HI. pose proof (I_call a w Ha HI) as H. now rewrite Hrun in H.
Qed.

Lemma preserves_perform (a : action) :
  requestAction h q login a -> preserves I (perform h a).
Proof.
  intros Ha. apply preserves_bind; [now apply preserves_call | intros; apply preserves_ret].
Qed.

Lemma preserves_clickAndWait :
  loggingIn h login = true -> preserves I (clickAndWait h).
Proof.
  intros Hl w r w' Hrun HI.
  assert (H1 : I (snd (call h (Click submitButton) w))).
  { apply I_call; [now split | exact HI]. }
  assert (H2 : I (snd (call h (WaitForLoadState "networkidle")
                         (snd (call h (Click submitButton) w))))).
  { apply I_call; [now split | exact H1]. }
  assert (Ht : trace (snd (call h (WaitForLoadState "networkidle")
                             (snd (call h (Click submitButton) w))))
               = trace w
                 ++ [mkEvent (Click submitButton)
                       (rejects h (List.length (trace w)) (Click submitButton));
                     mkEvent (WaitForLoadState "networkidle")
                       (rejects h (S (List.length (trace w)))
                          (WaitForLoadState "networkidle"))]
               /\ browser (snd (call h (WaitForLoadState "networkidle")
                                  (snd (call h (Click submitButton) w))))
                  = browser w).
  { destruct (call_spec h (Click submitButton) w) as [w1 [_ [Hb1 [_ [Ht1 Heq1]]]]].
    rewrite Heq1. cbn [snd].
    destruct (call_spec h (WaitForLoadState "networkidle") w1)
      as [w2 [_ [Hb2 [_ [Ht2 Heq2]]]]].
    rewrite Heq2. cbn [snd]. split; [|congruence].
    rewrite Ht2, Ht1, length_app, <- app_assoc. cbn [List.length app].
    now rewrite Nat.add_1_r. }
  destruct Ht as [Ht Hb].
  assert (Hany : forall k,
            I {| cache := cache w; browser := browser w; clock := k;
                 trace := trace w
                   ++ [mkEvent (Click submitButton)
                         (rejects h (List.length (trace w)) (Click submitButton));
                       mkEvent (WaitForLoadState "networkidle")
                         (rejects h (S (List.length (trace w)))
                            (WaitForLoadState "networkidle"))] |}).
  { intros k. pose proof (I_cache _ (cache w) k H2) as H. now rewrite Ht, Hb in H. }
  unfold clickAndWait in Hrun.
  destruct (rejects h (List.length (trace w)) (Click submitButton));
    destruct (rejects h (S (List.length (trace w))) (WaitForLoadState "networkidle"));
    try destruct (_ <? _)%Z; injection Hrun as <- <-; apply Hany.
Qed.

Lemma preserves_loginSteps : preserves I (loginSteps h login).
Proof.
  assert (H : forall b, b = login -> preserves I (loginSteps h b)); [|now apply H].
  intros b Hb. unfold loginSteps. destruct b; [|apply preserves_ret].
  destruct (envSet (PIN_EMAIL h)) as [email|] eqn:He; [|apply preserves_ret].
  destruct (envSet (PIN_PASSWORD h)) as [password|] eqn:Hp; [|apply preserves_ret].
  assert (Hl : loggingIn h login = true).
  { unfold loggingIn. now rewrite <- Hb, He, Hp. }
  assert (Hemail : PIN_EMAIL h = Some email).
  { destruct (PIN_EMAIL h) as [[|c s]|]; cbn in He; congruence. }
  assert (Hpassword : PIN_PASSWORD h = Some password).
  { destruct (PIN_PASSWORD h) as [[|c s]|]; cbn in Hp; congruence. }
  apply preserves_bind; [apply preserves_perform; right; now split | intros _].
  apply preserves_bind; [apply preserves_perform; split; [exact Hl | left; now split] | intros _].
  apply preserves_bind; [apply preserves_perform; split; [exact Hl | right; now split] | intros _].
  now apply preserves_clickAndWait.
Qed.

Lemma preserves_scrollLoop (fuel : nat) (i scrolls : Num.number) :
  preserves I (scrollLoop h fuel i scrolls).
Proof.
  revert i. induction fuel as [|fuel IH]; intros i; cbn [scrollLoop];
    destruct (Num.ltb i scrolls); try apply preserves_ret.
  - intros w r w' [= <- <-] HI. exact HI.
  - apply preserves_bind; [apply preserves_perform; exact Logic.I | intros _].
    apply preserves_bind; [|intros _; apply IH].
    intros w r w' Hrun.
    refine (preserves_perform (WaitForTimeout _) _ _ _ _ Hrun).
    cbn [requestAction].
    pose proof (Z.mod_pos_bound (random h (List.length (trace w))) 1000 ltac:(lia)). lia.
Qed.

Lemma preserves_scrape (fuel : nat) (scrolls : Num.number) :
  preserves I (scrape h fuel q scrolls login).
Proof.
  unfold scrape.
  apply preserves_bind; [apply preserves_loginSteps | intros _].
  apply preserves_bind; [apply preserves_perform; now left | intros _].
  apply preserves_bind; [apply preserves_scrollLoop | intros _].
  unfold extractPins.
  apply preserves_bind; [apply preserves_call; exact Logic.I | intros; apply preserves_ret].
Qed.

Lemma preserves_fetch (fuel : nat) (scrolls : Num.number) :
  preserves I (fetch h fuel q scrolls login).
Proof.
  unfold fetch.
  apply preserves_bind; [exact I_getBrowser | intros _].
  apply preserves_bind; [apply preserves_perform; exact Logic.I | intros _].
  apply preserves_bind; [apply preserves_perform; exact Logic.I | intros _].
  apply preserves_tryFinally.
  - unfold fetchBody.
    apply preserves_bind; [apply preserves_scrape | intros pins].
    apply preserves_bind; [|intros; apply preserves_ret].
    intros w r w' [= <- <-] HI. now apply I_cache.
  - unfold release.
    apply preserves_bind; apply preserves_perform || intros _; try exact Logic.I.
    apply preserves_perform. exact Logic.I.
Qed.

Lemma preserves_pinterestSearch (fuel : nat) (scrolls : Num.number) :
  preserves I (pinterestSearch h fuel q scrolls login).
Proof.
  intros w r w' Hrun HI. unfold pinterestSearch in Hrun.
  destruct (LRU.has _ _ _).
  - destruct (LRU.get _ _ _) as [v c]. injection Hrun as <- <-. now apply I_cache.
  - exact (preserves_fetch _ _ _ _ _ Hrun HI).
Qed.

End Invariants.

Lemma launches_app (a b : list Event) : launches (a ++ b) = (launches a + launches b)%nat.
Proof. unfold launches. now rewrite filter_app, length_app. Qed.

Lemma getBrowser_launchedOnce (h : Host) : preserves launchedOnce (getBrowser h).
Proof.
  intros w r w' Hrun HI. unfold launchedOnce in *.
  destruct (getBrowser_spec h _ _ _ Hrun) as [_ [_ [x [Hx Ht]]]].
  unfold getBrowser in Hrun. destruct (browser w) eqn:Hb.
  - injection Hrun as <- <-. now rewrite Hb.
  - rewrite Ht, launches_app, HI.
    destruct Hx as [[Hb' _]|[[_ [-> ->]]|[e [_ [-> ->]]]]]; [congruence| |].
    + destruct (perform h Launch w) as [[u|e|] w1]; try discriminate.
      injection Hrun as <-. reflexivity.
    + destruct (perform_spec h Launch w) as [w1 [_ [Hb1 [_ [_ Heq]]]]].
      rewrite Heq in Hrun.
      destruct (rejects h (List.length (trace w)) Launch); [|discriminate].
      injection Hrun as _ <-. now rewrite Hb1, Hb.
Qed.

Lemma pinterestSearch_launchedOnce (h : Host) fuel q scrolls login :
  preserves launchedOnce (pinterestSearch h fuel q scrolls login).
Proof.
  apply preserves_pinterestSearch.
  - intros a w Ha HI. unfold launchedOnce, call in *. cbn [snd].
    destruct (rejects h (List.length (trace w)) a); cbn [snd trace browser];
      rewrite launches_app, HI; destruct a; try contradiction; cbn; lia.
  - intros w c k HI. exact HI.
  - apply getBrowser_launchedOnce.
Qed.

Lemma handle_launchedOnce (h : Host) fuel req w :
  launchedOnce w -> launchedOnce (snd (handle h fuel req w)).
Proof.
  intros HI. unfold handle.
  destruct (Str.trim (orString (req_q req) "")) as [|c q]; [exact HI|].
  destruct (pinterestSearch h fuel (String c q) (scrollsOf req) (loginOf req) w)
    as [r w'] eqn:E.
  pose proof (pinterestSearch_launchedOnce h _ _ _ _ _ _ _ E HI).
  destruct r; assumption.
Qed.

(** X8.  One browser for all requests.  Over any sequence of requests
    handled one after the other, whatever they are and however they end,
    the launch of the shared browser resolves at most once: the handle of
    line 56 is set exactly when a launch has resolved, and once it is set
    no request launches again. *)
Theorem browser_launched_once (h : Host) (fuel : nat) (reqs : list Request) (w : World) :
  launchedOnce w ->
  launchedOnce (serve h fuel reqs w)
  /\ (launches (trace (serve h fuel reqs w)) <= 1)%nat.
Proof.
  intros HI.
  assert (H : launchedOnce (serve h fuel reqs w)).
  { revert w HI. induction reqs as [|req rest IH]; intros w HI; [exact HI|].
    cbn [serve]. apply IH. now apply handle_launchedOnce. }
  split; [exact H|]. unfold launchedOnce in H. rewrite H.
  destruct (browser _); lia.
Qed.

Lemma browser_launched_once_witness :
  launchedOnce freshWorld
  /\ launchedOnce (serve (quietHost [pinA; pinB]) 10
                     [mkRequest (Some "mugs"%string) None None;
                      mkRequest (Some "cups"%string) (Some "2"%string) None] freshWorld)
  /\ (launches (trace (serve (quietHost [pinA; pinB]) 10
                     [mkRequest (Some "mugs"%string) None None;
                      mkRequest (Some "cups"%string) (Some "2"%string) None] freshWorld))
      <= 1)%nat.
Proof.
  split; [reflexivity|].
  apply (browser_launched_once (quietHost [pinA; pinB]) 10
           [mkRequest (Some "mugs"%string) None None;
            mkRequest (Some "cups"%string) (Some "2"%string) None] freshWorld).
  reflexivity.
Defined.

(** X9.  [getBrowser()] is lazy and does not remember a failure.  With
    the handle set it makes no call.  Otherwise it makes one launch call:
    when that resolves the handle is set, and calling again makes no
    further call; when it rejects the error is thrown and the handle stays
    unset, so the next call launches again. *)
Theorem getBrowser_lazy (h : Host) (w : World) :
  (if browser w then getBrowser h w = (Returned tt, w)
   else exists failure,
     trace (snd (getBrowser h w)) = trace w ++ [mkEvent Launch failure]
     /\ match failure with
        | None => fst (getBrowser h w) = Returned tt
                  /\ browser (snd (getBrowser h w)) = true
        | Some e => fst (getBrowser h w) = Thrown e
                    /\ browser (snd (getBrowser h w)) = false
        end)
  /\ (forall w1, getBrowser h w = (Returned tt, w1) ->
        getBrowser h w1 = (Returned tt, w1)).
Proof.
  split.
  - unfold getBrowser. destruct (browser w) eqn:Hb; [reflexivity|].
    destruct (perform_spec h Launch w) as [w1 [_ [Hb1 [_ [Ht Heq]]]]].
    rewrite Heq. exists (rejects h (List.length (trace w)) Launch).
    destruct (rejects h (List.length (trace w)) Launch) as [e|]; cbn [fst snd trace browser].
    + split; [exact Ht|]. split; [reflexivity | congruence].
    + split; [exact Ht|]. split; reflexivity.
  - intros w1 Hrun. unfold getBrowser in *. destruct (browser w) eqn:Hb.
    + injection Hrun as <-. now rewrite Hb.
    + destruct (perform h Launch w) as [[u|e|] w2]; try discriminate.
      injection Hrun as <-. reflexivity.
Qed.

Lemma pinterestSearch_calls (h : Host) fuel q scrolls login (t0 : list Event) :
  preserves (fun w => exists evs, trace w = t0 ++ evs /\ Forall (mayCall h q login) evs)
            (pinterestSearch h fuel q scrolls login).
Proof.
  apply preserves_pinterestSearch.
  - intros a w Ha [evs [Ht Hall]]. unfold call. 
    exists (evs ++ [mkEvent a (rejects h (List.length (trace w)) a)]).
    destruct (rejects h (List.length (trace w)) a); cbn [snd trace];
      (split; [rewrite Ht; now rewrite <- app_assoc|]);
      (apply Forall_app; split; [exact Hall|]); (constructor; [now right | constructor]).
  - intros w c k HI. exact HI.
  - intros w r w' Hrun [evs [Ht Hall]].
    destruct (getBrowser_spec h _ _ _ Hrun) as [_ [_ [x [Hx Htx]]]].
    exists (evs ++ x). split; [rewrite Htx, Ht; now rewrite <- app_assoc|].
    apply Forall_app. split; [exact Hall|].
    destruct Hx as [[_ [-> _]]|[[_ [-> _]]|[e [_ [-> _]]]]];
      repeat constructor.
Qed.

(** X7.  What a request does on the browser, on every path (hit or
    miss, success or failure).  Besides the launch of the shared browser,
    every call it logs is one of: [newContext], [newPage], a navigation to
    the search URL of its trimmed query, a scroll, a pause of 1500 to 2499
    ms, the extraction, the two close calls; and, only when [login=1] was
    asked and both credentials are configured, the navigation to the login
    page, the filling of the two login inputs with the configured
    credentials, the click on the submit button and the wait for the
    network to be idle. *)
Theorem request_calls (h : Host) (fuel : nat) (req : Request) (w : World) :
  exists evs,
    trace (snd (handle h fuel req w)) = trace w ++ evs
    /\ Forall (mayCall h (Str.trim (orString (req_q req) "")) (loginOf req)) evs.
Proof.
  unfold handle.
  destruct (Str.trim (orString (req_q req) "")) as [|c q].
  - exists []. now rewrite app_nil_r.
  - destruct (pinterestSearch h fuel (String c q) (scrollsOf req) (loginOf req) w)
      as [r w'] eqn:E.
    destruct (pinterestSearch_calls h _ _ _ _ (trace w) _ _ _ E) as [evs [Ht Hall]].
    { exists []. now rewrite app_nil_r. }
    exists evs. destruct r; cbn [snd]; now split.
Qed.

(** ** The log of a search that succeeds *)

Lemma ltb_ofNat (k n : nat) :
  (k <= 10)%nat -> (n <= 10)%nat -> Num.ltb (Num.ofNat k) (Num.ofNat n) = (k <? n)%nat.
Proof.
  intros Hk Hn. unfold Num.ltb, SFltb, Num.ofNat.
  rewrite SFcompare_ofZ by (change (2 ^ 53) with 9007199254740992; lia).
  destruct (Nat.ltb_spec k n) as [H|H].
  - assert (E : (Z.of_nat k ?= Z.of_nat n) = Lt) by (apply Z.compare_lt_iff; lia).
    now rewrite E.
  - destruct (Z.compare_spec (Z.of_nat k) (Z.of_nat n)); try reflexivity. lia.
Qed.

Section Success.

Variable h : Host.

Lemma clickAndWait_returned (w w' : World) :
  clickAndWait h w = (Returned tt, w') ->
  trace w' = trace w ++ [resolvedCall (Click submitButton);
                         resolvedCall (WaitForLoadState "networkidle")].
Proof.
  unfold clickAndWait. intros Hrun.
  destruct (rejects h (List.length (trace w)) (Click submitButton));
    destruct (rejects h (S (List.length (trace w))) (WaitForLoadState "networkidle"));
    try destruct (_ <? _); try discriminate.
  injection Hrun as <-. reflexivity.
Qed.

Lemma loginSteps_returned (login : bool) (w w' : World) :
  loginSteps h login w = (Returned tt, w') ->
  trace w' = trace w ++ map resolvedCall (loginActions h login).
Proof.
  unfold loginSteps, loginActions. intros Hrun.
  destruct login; [|injection Hrun as <-; now rewrite app_nil_r].
  destruct (envSet (PIN_EMAIL h)) as [email|];
    [|injection Hrun as <-; now rewrite app_nil_r].
  destruct (envSet (PIN_PASSWORD h)) as [password|];
    [|injection Hrun as <-; now rewrite app_nil_r].
  apply bind_returned in Hrun. destruct Hrun as [[] [w1 [H1 Hrun]]].
  apply bind_returned in Hrun. destruct Hrun as [[] [w2 [H2 Hrun]]].
  apply bind_returned in Hrun. destruct Hrun as [[] [w3 [H3 Hrun]]].
  apply perform_returned in H1. apply perform_returned in H2.
  apply perform_returned in H3. apply clickAndWait_returned in Hrun.
  rewrite Hrun, H3, H2, H1. cbn [map]. now rewrite <- !app_assoc.
Qed.

(** From [i = k] the loop runs [n - k] more times. *)
Lemma scrollLoop_returned (n d k fuel : nat) (w w' : World) :
  (n <= 10)%nat -> (k + d = n)%nat ->
  scrollLoop h fuel (Num.ofNat k) (Num.ofNat n) w = (Returned tt, w') ->
  exists pauses,
    List.length pauses = d
    /\ Forall (fun ms => 1500 <= ms < 2500) pauses
    /\ trace w' = trace w ++ map resolvedCall (scrollActions pauses).
Proof.
  intros Hn. revert k fuel w. induction d as [|d IH]; intros k fuel w Hk Hrun.
  - rewrite scrollLoop_none in Hrun by (rewrite ltb_ofNat by lia; apply Nat.ltb_ge; lia).
    injection Hrun as <-. exists []. rewrite app_nil_r. repeat split. constructor.
  - assert (Hlt : Num.ltb (Num.ofNat k) (Num.ofNat n) = true).
    { rewrite ltb_ofNat by lia. apply Nat.ltb_lt. lia. }
    destruct fuel as [|fuel]; cbn [scrollLoop] in Hrun; rewrite Hlt in Hrun;
      [discriminate|].
    apply bind_returned in Hrun. destruct Hrun as [[] [w1 [H1 Hrun]]].
    apply bind_returned in Hrun. destruct Hrun as [[] [w2 [H2 Hrun]]].
    apply perform_returned in H1. apply perform_returned in H2.
    rewrite add_one_small in Hrun by lia.
    destruct (IH (S k) fuel w2 ltac:(lia) Hrun) as [pauses [Hlen [Hall Ht]]].
    exists ((1500 + random h (List.length (trace w1)) mod 1000) :: pauses).
    split; [cbn [List.length]; now rewrite Hlen|]. split.
    + constructor; [|exact Hall].
      pose proof (Z.mod_pos_bound (random h (List.length (trace w1))) 1000 ltac:(lia)). lia.
    + rewrite Ht, H2, H1. cbn [scrollActions flat_map map app].
      now rewrite <- !app_assoc.
Qed.

Lemma getBrowser_returned (w w' : World) :
  getBrowser h w = (Returned tt, w') ->
  browser w' = true /\ cache w' = cache w
  /\ trace w' = trace w ++ map resolvedCall (if browser w then [] else [Launch]).
Proof.
  unfold getBrowser. intros Hrun. destruct (browser w) eqn:Hb.
  - injection Hrun as <-. rewrite app_nil_r. now repeat split.
  - destruct (perform h Launch w) as [[[]|e|] w1] eqn:E; try discriminate.
    pose proof (perform_returned h _ _ _ E) as Ht.
    destruct (perform_spec h Launch w) as [w2 [Hc [_ [_ [_ Heq]]]]].
    rewrite E in Heq.
    destruct (rejects h (List.length (trace w)) Launch); [discriminate|].
    injection Heq as ->. injection Hrun as <-. cbn [browser cache trace].
    repeat split; assumption.
Qed.

Lemma release_returned (w w' : World) :
  release h w = (Returned tt, w') ->
  browser w' = browser w /\ cache w' = cache w
  /\ trace w' = trace w ++ [resolvedCall ClosePage; resolvedCall CloseContext].
Proof.
  intros Hrun. destruct (release_spec h _ _ _ Hrun) as [Hc [Hb [_ [closes [Ht Hlog]]]]].
  repeat split; try assumption.
  destruct Hlog as [[_ ->]|[[e [He _]]|[e [He _]]]]; [exact Ht | discriminate ..].
Qed.

(** The log of a fetch on which nothing fails. *)
Lemma fetch_success_log (fuel : nat) (q : string) (n : nat) (login : bool)
    (w w' : World) (out : option SearchResult) :
  (n <= 10)%nat ->
  fetch h fuel q (Num.ofNat n) login w = (Returned out, w') ->
  exists pauses,
    List.length pauses = n
    /\ Forall (fun ms => 1500 <= ms < 2500) pauses
    /\ trace w'
       = trace w ++ map resolvedCall (successActions h q login (browser w) pauses)
    /\ browser w' = true
    /\ out = Some (assemble q (extracted h (List.length (trace w') - 3))).
Proof.
  intros Hn Hrun. unfold fetch in Hrun.
  apply bind_returned in Hrun. destruct Hrun as [[] [w1 [Hg Hrun]]].
  apply bind_returned in Hrun. destruct Hrun as [[] [w2 [Hc Hrun]]].
  apply bind_returned in Hrun. destruct Hrun as [[] [w3 [Hp Hrun]]].
  destruct (tryFinally_spec _ _ _ _ _ Hrun) as [rb [wb [Hb Hfin]]].
  destruct Hfin as [[_ [Hr _]]|[_ [rc [Hrel Hr]]]]; [discriminate|].
  assert (Hrb : rb = Returned out /\ rc = Returned tt).
  { destruct rb as [v|e|]; destruct rc as [[]|e'|]; cbn in Hr; try discriminate.
    injection Hr as <-. now split. }
  destruct Hrb as [-> ->].
  unfold fetchBody in Hb.
  apply bind_returned in Hb. destruct Hb as [pins [ws [Hs Hb]]].
  assert (Hwb : trace wb = trace ws /\ browser wb = browser ws
                /\ out = Some (assemble q pins)).
  { unfold bind, cacheSet, ret in Hb. injection Hb as <- <-. repeat split. }
  destruct Hwb as [Htb [Hbb ->]].
  unfold scrape in Hs.
  apply bind_returned in Hs. destruct Hs as [[] [wl [Hlogin Hs]]].
  apply bind_returned in Hs. destruct Hs as [[] [wg [Hgoto Hs]]].
  apply bind_returned in Hs. destruct Hs as [[] [wo [Hloop Hs]]].
  unfold extractPins in Hs.
  apply bind_returned in Hs. destruct Hs as [k [we [Hcall Hret]]].
  injection Hret as <- <-.
  destruct (getBrowser_returned _ _ Hg) as [Hb1 [_ Ht1]].
  destruct (browserOnly_perform h (fun _ => True) NewContext Logic.I _ _ _ Hc)
    as [_ [Hb2 _]].
  apply perform_returned in Hc.
  destruct (browserOnly_perform h (fun _ => True) NewPage Logic.I _ _ _ Hp)
    as [_ [Hb3 _]].
  apply perform_returned in Hp.
  destruct (loginSteps_browserOnly h login _ _ _ Hlogin) as [_ [Hbl _]].
  apply loginSteps_returned in Hlogin.
  destruct (browserOnly_perform h (fun _ => True) (Goto (searchUrl q)) Logic.I _ _ _ Hgoto)
    as [_ [Hbg _]].
  apply perform_returned in Hgoto.
  destruct (scrollLoop_browserOnly h fuel _ _ _ _ _ Hloop) as [_ [Hbo _]].
  destruct (scrollLoop_returned n n 0 fuel wg wo Hn eq_refl Hloop)
    as [pauses [Hlen [Hall Hto]]].
  destruct (call_spec h ExtractPins wo) as [xe [_ [Hbe [_ [Hte Heqe]]]]].
  rewrite Hcall in Heqe.
  destruct (rejects h (List.length (trace wo)) ExtractPins); [discriminate|].
  injection Heqe as Hk Hxe. subst xe.
  destruct (release_returned _ _ Hrel) as [Hbr [_ Htr]].
  assert (Htrace : trace w' = trace wo ++ map resolvedCall [ExtractPins; ClosePage; CloseContext]).
  { rewrite Htr, Htb, Hte. cbn [map]. now rewrite <- app_assoc. }
  exists pauses. split; [exact Hlen|]. split; [exact Hall|]. split; [|split].
  - rewrite Htrace, Hto, Hgoto, Hlogin, Hp, Hc, Ht1. unfold successActions.
    rewrite !map_app. cbn [map]. now rewrite <- !app_assoc.
  - congruence.
  - rewrite Htrace, length_app. cbn [map List.length].
    do 3 f_equal. rewrite Hk. lia.
Qed.

End Success.

(** X5.  The log of a search that succeeds.  On a cache miss with [scrolls]
    a whole number [n] up to ten, a [pinterestSearch] that returns has made
    exactly these calls, all resolved: the launch if the browser was not
    running, [newContext], [newPage], the login calls if the login is
    taken, the navigation to the search URL, [n] times a scroll followed by
    a pause of 1500 to 2499 ms, the extraction, [page.close()] and
    [context.close()].  The browser handle is set afterwards, and the
    result is assembled from what the extraction call, the third call from
    the end, returned. *)
Theorem successful_search_log (h : Host) (fuel : nat) (q : string) (n : nat)
    (login : bool) (w w' : World) (out : option SearchResult) :
  (n <= 10)%nat ->
  LRU.has (clock w) (cache w) (cacheKey h q (Num.ofNat n) login) = false ->
  pinterestSearch h fuel q (Num.ofNat n) login w = (Returned out, w') ->
  exists pauses,
    List.length pauses = n
    /\ Forall (fun ms => 1500 <= ms < 2500) pauses
    /\ trace w'
       = trace w ++ map resolvedCall (successActions h q login (browser w) pauses)
    /\ browser w' = true
    /\ out = Some (assemble q (extracted h (List.length (trace w') - 3))).
Proof.
  intros Hn Hmiss Hrun. rewrite pinterestSearch_miss in Hrun by exact Hmiss.
  exact (fetch_success_log h fuel q n login w w' out Hn Hrun).
Qed.

Lemma successful_search_log_witness :
  exists pauses,
    List.length pauses = 3%nat
    /\ trace (snd (pinterestSearch (quietHost [pinA; pinB]) 10 "mugs" (Num.ofNat 3) false
                     freshWorld))
       = map resolvedCall (successActions (quietHost [pinA; pinB]) "mugs" false false pauses).
Proof.
  destruct (pinterestSearch (quietHost [pinA; pinB]) 10 "mugs" (Num.ofNat 3) false
              freshWorld) as [r w'] eqn:Hrun.
  assert (Hr : r = Returned (Some (assemble "mugs" [pinA; pinB]))).
  { vm_compute in Hrun. injection Hrun as <- _. reflexivity. }
  subst r.
  destruct (successful_search_log (quietHost [pinA; pinB]) 10 "mugs" 3 false freshWorld w'
              _ ltac:(repeat constructor) eq_refl Hrun) as [pauses [Hlen [_ [Ht _]]]].
  exists pauses. split; [exact Hlen | exact Ht].
Defined.

(** X6.  The log of an answered request.  When a request with query [s]
    and [scrolls] written as the decimal integer [z] is not in the cache
    and is answered 200, the calls made for it are exactly: the launch if
    the browser was not running, [newContext], [newPage], the five calls
    of the login if it is taken, the navigation to the search URL of the
    trimmed query, then [max(1, min(10, z))] times a scroll followed by a
    pause of 1500 to 2499 ms, the extraction, [page.close()] and
    [context.close()]; every call resolved; and the data is assembled from
    what that extraction call returned. *)
Theorem answered_request_log (h : Host) (fuel : nat) (s : string) (z : Z)
    (login : option string) (w w' : World) (data : option SearchResult) :
  Z.abs z < 2 ^ 53 ->
  LRU.has (clock w) (cache w)
    (cacheKey h (Str.trim s) (Num.ofZ (Z.min 10 (Z.max 1 z)))
       (loginOf (mkRequest (Some s) (Some (Str.ofInteger z)) login))) = false ->
  handle h fuel (mkRequest (Some s) (Some (Str.ofInteger z)) login) w
  = (Some (Json200 data), w') ->
  exists pauses,
    Z.of_nat (List.length pauses) = Z.min 10 (Z.max 1 z)
    /\ Forall (fun ms => 1500 <= ms < 2500) pauses
    /\ trace w'
       = trace w
         ++ map resolvedCall
              (successActions h (Str.trim s)
                 (loginOf (mkRequest (Some s) (Some (Str.ofInteger z)) login))
                 (browser w) pauses)
    /\ scrollCount (trace w') = (scrollCount (trace w) + List.length pauses)%nat
    /\ data = Some (assemble (Str.trim s) (extracted h (List.length (trace w') - 3))).
Proof.
  intros Hz Hmiss Hrun. unfold handle in Hrun. cbn [req_q] in Hrun.
  rewrite orString_empty in Hrun.
  destruct (Str.trim s) as [|c q'] eqn:Hq; [discriminate|].
  assert (Hs : scrollsOf (mkRequest (Some s) (Some (Str.ofInteger z)) login)
               = Num.ofNat (Z.to_nat (Z.min 10 (Z.max 1 z)))).
  { unfold scrollsOf. cbn [req_scrolls].
    rewrite orString_ofInteger, parseInt10_ofInteger, max_ofZ, min_ofZ by lia.
    unfold Num.ofNat. now rewrite Z2Nat.id by lia. }
  rewrite Hs in Hrun.
  assert (Hk : Num.ofNat (Z.to_nat (Z.min 10 (Z.max 1 z))) = Num.ofZ (Z.min 10 (Z.max 1 z))).
  { unfold Num.ofNat. now rewrite Z2Nat.id by lia. }
  rewrite pinterestSearch_miss in Hrun by (rewrite Hk; exact Hmiss).
  destruct (fetch h fuel (String c q') _ _ w) as [r w1] eqn:Hfetch.
  destruct r as [out|e|]; try discriminate. injection Hrun as <- <-.
  assert (Hn : (Z.to_nat (Z.min 10 (Z.max 1 z)) <= 10)%nat) by lia.
  destruct (fetch_success_log h fuel (String c q') _ _ w w1 out Hn Hfetch)
    as [pauses [Hlen [Hall [Ht [_ Hout]]]]].
  exists pauses. split; [rewrite Hlen; lia|]. split; [exact Hall|]. split; [exact Ht|].
  split; [|exact Hout].
  rewrite Ht, scrollCount_app. f_equal.
  unfold successActions. rewrite !map_app, !scrollCount_app.
  assert (Hlogin : forall l, scrollCount (map resolvedCall (loginActions h l)) = 0%nat).
  { intros l. unfold loginActions. destruct l; [|reflexivity].
    destruct (envSet (PIN_EMAIL h)); [|reflexivity].
    destruct (envSet (PIN_PASSWORD h)); reflexivity. }
  assert (Hscroll : scrollCount (map resolvedCall (scrollActions pauses))
                    = List.length pauses).
  { clear. induction pauses as [|ms rest IH]; [reflexivity|].
    change (scrollActions (ms :: rest))
      with ([ScrollToBottom; WaitForTimeout ms] ++ scrollActions rest).
    rewrite map_app, scrollCount_app, IH. reflexivity. }
  rewrite Hlogin, Hscroll. destruct (browser w); cbn; lia.
Qed.

Lemma answered_request_log_witness :
  exists pauses,
    Z.of_nat (List.length pauses) = 2
    /\ trace (snd (handle (quietHost [pinA; pinB]) 10
                     (mkRequest (Some " mugs "%string) (Some "2"%string) None) freshWorld))
       = map resolvedCall (successActions (quietHost [pinA; pinB]) "mugs" false false pauses).
Proof.
  destruct (handle (quietHost [pinA; pinB]) 10
              (mkRequest (Some " mugs "%string) (Some "2"%string) None) freshWorld)
    as [r w'] eqn:Hrun.
  assert (Hr : r = Some (Json200 (Some (assemble "mugs" [pinA; pinB])))).
  { vm_compute in Hrun. injection Hrun as <- _. reflexivity. }
  subst r.
  destruct (answered_request_log (quietHost [pinA; pinB]) 10 " mugs " 2 None freshWorld w'
              _ ltac:(reflexivity) eq_refl Hrun) as [pauses [Hlen [_ [Ht _]]]].
  exists pauses. split; [exact Hlen | exact Ht].
Defined.

(** ** The search URL *)

Lemma encodeURIComponent_cons (c : ascii) (r : string) :
  Str.encodeURIComponent (String c r) = (encodeChar c ++ Str.encodeURIComponent r)%string.
Proof.
  cbn [Str.encodeURIComponent]. unfold encodeChar.
  destruct (Str.unreserved c); [reflexivity|].
  destruct (nat_of_ascii c <? 128)%nat; [reflexivity|].
  now rewrite append_assoc.
Qed.

Lemma decodeChar_encodeChar (c : ascii) (x : string) :
  decodeChar (encodeChar c ++ x) = Some (c, x).
Proof.
  destruct c as [[|] [|] [|] [|] [|] [|] [|] [|]]; reflexivity.
Qed.

Lemma allChars_app (p : ascii -> bool) (a b : string) :
  allChars p (a ++ b) = allChars p a && allChars p b.
Proof.
  induction a as [|c a IH]; [reflexivity|]. cbn. rewrite IH. now rewrite andb_assoc.
Qed.

Lemma encodeChar_safe (c : ascii) : allChars urlSafe (encodeChar c) = true.
Proof.
  destruct c as [[|] [|] [|] [|] [|] [|] [|] [|]]; reflexivity.
Qed.

Lemma encodeURIComponent_safe (s : string) :
  allChars urlSafe (Str.encodeURIComponent s) = true.
Proof.
  induction s as [|c r IH]; [reflexivity|].
  now rewrite encodeURIComponent_cons, allChars_app, encodeChar_safe, IH.
Qed.

Lemma encodeURIComponent_inj (a b : string) :
  Str.encodeURIComponent a = Str.encodeURIComponent b -> a = b.
Proof.
  revert b. induction a as [|c a IH]; intros [|c' b] H.
  - reflexivity.
  - rewrite encodeURIComponent_cons in H. apply (f_equal decodeChar) in H.
    rewrite decodeChar_encodeChar in H. discriminate.
  - rewrite encodeURIComponent_cons in H. apply (f_equal decodeChar) in H.
    rewrite decodeChar_encodeChar in H. discriminate.
  - rewrite !encodeURIComponent_cons in H. apply (f_equal decodeChar) in H.
    rewrite !decodeChar_encodeChar in H. injection H as -> H. f_equal. now apply IH.
Qed.

Lemma append_inj_l (p a b : string) : (p ++ a = p ++ b)%string -> a = b.
Proof. induction p as [|c p IH]; cbn; [trivial|]. intros [= H]. now apply IH. Qed.

(** X12.  Different queries are searched at different URLs:
    [encodeURIComponent] can be read back character by character, so the
    search URL determines the query. *)
Theorem searchUrl_injective (a b : string) : searchUrl a = searchUrl b -> a = b.
Proof.
  unfold searchUrl. intros H. apply append_inj_l in H. now apply encodeURIComponent_inj.
Qed.

Lemma searchUrl_injective_witness :
  searchUrl "ceramic mugs" = searchUrl "ceramic mugs" /\ "ceramic mugs"%string = "ceramic mugs"%string.
Proof.
  split; [reflexivity|].
  apply (searchUrl_injective "ceramic mugs" "ceramic mugs"). reflexivity.
Defined.

(** X13.  The query cannot change the shape of the search URL: after the
    fixed prefix, every character is a letter, a digit, one of
    [- _ . ! ~ * ' ( )], or the [%] of an escape; in particular no space,
    [&], [=], [#], [?], [/], [+], [:] or double quote of the query gets
    through unescaped. *)
Theorem searchUrl_escaped (q : string) :
  searchUrl q
  = ("https://www.pinterest.com/search/pins/?q=" ++ Str.encodeURIComponent q)%string
  /\ allChars urlSafe (Str.encodeURIComponent q) = true
  /\ allChars (fun c => negb (existsb (Ascii.eqb c)
                                [" "; "&"; "="; "#"; "?"; "/"; "+"; ":"; "034"]%char))
              (Str.encodeURIComponent q) = true.
Proof.
  split; [reflexivity|]. split; [apply encodeURIComponent_safe|].
  pose proof (encodeURIComponent_safe q) as H.
  induction (Str.encodeURIComponent q) as [|c r IH]; [reflexivity|].
  cbn [allChars] in *. apply andb_prop in H. destruct H as [Hc Hr].
  rewrite (IH Hr), andb_true_r.
  destruct c as [[|] [|] [|] [|] [|] [|] [|] [|]]; try reflexivity; discriminate Hc.
Qed.

(** ** The extraction closure *)

Lemma star_run {A} (class : ascii -> bool) (s : string)
    (k : string -> string -> option A) (x : A) :
  Dom.star class s k = Some x ->
  exists run rest, k run rest = Some x /\ allChars class run = true.
Proof.
  revert k. induction s as [|c r IH]; intros k H; cbn [Dom.star] in H.
  - now exists EmptyString, EmptyString.
  - destruct (class c) eqn:Hc; [|now exists EmptyString, (String c r)].
    destruct (Dom.star class r (fun run rest => k (String c run) rest)) as [y|] eqn:E.
    + injection H as ->. destruct (IH _ E) as [run [rest [Hk Hrun]]].
      exists (String c run), rest. split; [exact Hk|]. cbn. now rewrite Hc.
    + now exists EmptyString, (String c r).
Qed.

Lemma plus_run {A} (class : ascii -> bool) (s : string)
    (k : string -> string -> option A) (x : A) :
  Dom.plus class s k = Some x ->
  exists run rest, k run rest = Some x /\ allChars class run = true.
Proof.
  unfold Dom.plus. destruct s as [|c r]; [discriminate|].
  destruct (class c) eqn:Hc; [|discriminate]. intros H.
  destruct (star_run _ _ _ _ H) as [run [rest [Hk Hrun]]].
  exists (String c run), rest. split; [exact Hk|]. cbn. now rewrite Hc.
Qed.

Lemma savesAt_group (s g : string) :
  Dom.savesAt s = Some g -> allChars Dom.countChar g = true.
Proof.
  unfold Dom.savesAt. intros H.
  destruct (plus_run _ _ _ _ H) as [run [rest [Hk Hrun]]].
  destruct (star_run _ _ _ _ Hk) as [ws [r2 [Hk2 _]]].
  destruct (Dom.literal "save" r2) as [r3|]; [|discriminate].
  unfold Dom.optional in Hk2.
  destruct r3 as [|c r]; [congruence|]. destruct (Dom.letter "s" c); congruence.
Qed.

Lemma savesMatch_group (t g : string) :
  Dom.savesMatch t = Some g -> allChars Dom.countChar g = true.
Proof.
  induction t as [|c r IH]; cbn [Dom.savesMatch].
  - destruct (Dom.savesAt "") eqn:E; [|discriminate]. intros [= <-]. now apply savesAt_group in E.
  - destruct (Dom.savesAt (String c r)) eqn:E; [|exact IH].
    intros [= <-]. now apply savesAt_group in E.
Qed.

Lemma removeSeparators_digits (g : string) :
  allChars Dom.countChar g = true -> allChars Str.isDigit (Dom.removeSeparators g) = true.
Proof.
  induction g as [|c r IH]; [reflexivity|]. cbn [allChars Dom.removeSeparators].
  intros H. apply andb_prop in H. destruct H as [Hc Hr]. unfold Dom.countChar in Hc.
  destruct (Ascii.eqb c "." || Ascii.eqb c ",") eqn:Hs; [now apply IH|].
  cbn [allChars]. rewrite (IH Hr), andb_true_r.
  rewrite <- orb_assoc, Hs, orb_false_r in Hc. exact Hc.
Qed.

Lemma digitVal_range (c : ascii) : Str.isDigit c = true -> 0 <= Str.digitVal c <= 9.
Proof.
  unfold Str.isDigit, Str.digitVal. intros H. apply andb_prop in H. destruct H as [H1 H2].
  apply Nat.leb_le in H1, H2. lia.
Qed.

Lemma digitsPrefix_nonneg (s : string) (acc : option Z) (n : Z) :
  (forall a, acc = Some a -> 0 <= a) ->
  Str.digitsPrefix s acc = Some n -> 0 <= n.
Proof.
  revert acc. induction s as [|c r IH]; intros acc Hacc H; cbn [Str.digitsPrefix] in H.
  - now apply Hacc.
  - destruct (Str.isDigit c) eqn:Hc; [|now apply Hacc].
    refine (IH _ _ H). intros a Ha. pose proof (digitVal_range c Hc) as Hd.
    set (d := Str.digitVal c) in *.
    destruct acc as [a0|].
    + specialize (Hacc a0 eq_refl). change (Some (10 * a0 + d) = Some a) in Ha.
      assert (a = 10 * a0 + d) by congruence. lia.
    + change (Some (10 * 0 + d) = Some a) in Ha.
      assert (a = 10 * 0 + d) by congruence. lia.
Qed.

Lemma isDigit_head (c : ascii) :
  Str.isDigit c = true -> Str.isWhite c = false /\ c <> "-"%char /\ c <> "+"%char.
Proof.
  destruct c as [[|] [|] [|] [|] [|] [|] [|] [|]]; cbn; intros H;
    try discriminate H; repeat split; discriminate.
Qed.

(** [parseInt] of a string of decimal digits: not negative, NaN when
    the string is empty. *)
Lemma parseInt10_digits (d : string) :
  allChars Str.isDigit d = true ->
  Str.parseInt10 d = Num.NaN \/ exists n, 0 <= n /\ Str.parseInt10 d = Num.ofZ n.
Proof.
  destruct d as [|c r]; [now left|]. intros H. pose proof H as Hall.
  cbn [allChars] in H. apply andb_prop in H. destruct H as [Hc _].
  destruct (isDigit_head c Hc) as [Hw [Hm Hp]].
  rewrite (parseInt10_unsigned _ c r eq_refl Hw Hm Hp).
  destruct (Str.digitsPrefix (String c r) None) as [n|] eqn:E; [|now left].
  right. assert (Hn : 0 <= n).
  { refine (digitsPrefix_nonneg _ _ _ _ E). discriminate. }
  destruct (Z.eqb_spec n 0) as [->|_]; [now exists 0 | now exists n].
Qed.

Lemma orZero_ofZ (n : Z) :
  0 <= n -> exists k : nat, Num.orZero (Num.ofZ n) = Num.ofNat k.
Proof.
  intros Hn. unfold Num.orZero. destruct (Num.truthy (Num.ofZ n)).
  - exists (Z.to_nat n). unfold Num.ofNat. now rewrite Z2Nat.id.
  - now exists 0%nat.
Qed.

Lemma parseSaves_ofNat (t : string) : exists k : nat, Dom.parseSaves t = Num.ofNat k.
Proof.
  unfold Dom.parseSaves. destruct (Dom.savesMatch t) as [g|] eqn:E; [|now exists 0%nat].
  apply savesMatch_group, removeSeparators_digits, parseInt10_digits in E.
  destruct E as [->|[n [Hn ->]]]; [now exists 0%nat | now apply orZero_ofZ].
Qed.

Lemma ofNat_not_negative (k : nat) : Num.ltb (Num.ofNat k) (Num.ofZ 0) = false.
Proof.
  pose proof (ofNat_nonNegative k) as H. apply leb_zero_nonNegative in H.
  destruct (Num.ofNat k) as [[|]|[|]| |[|] m e]; cbn in *; try reflexivity; contradiction.
Qed.

Lemma pinOf_saves (hr : string) (a : Dom.Anchor) :
  exists k : nat, saves (Dom.pinOf hr a) = Num.ofNat k.
Proof.
  cbn [Dom.pinOf saves]. destruct (Dom.savesText a) as [t|];
    [apply parseSaves_ofNat | now exists 0%nat].
Qed.

Lemma extractFrom_pins (seen : list string) (anchors : list Dom.Anchor) :
  Forall (fun p => exists a hr,
            In a anchors /\ Dom.href a = Some hr /\ hr <> EmptyString
            /\ ~ In hr seen /\ p = Dom.pinOf hr a)
         (Dom.extractFrom seen anchors).
Proof.
  revert seen. induction anchors as [|a rest IH]; intros seen; cbn [Dom.extractFrom];
    [constructor|].
  assert (Hweak : forall seen',
            (forall x, In x seen -> In x seen') ->
            Forall (fun p => exists a0 hr,
                      In a0 (a :: rest) /\ Dom.href a0 = Some hr /\ hr <> EmptyString
                      /\ ~ In hr seen /\ p = Dom.pinOf hr a0)
                   (Dom.extractFrom seen' rest)).
  { intros seen' Hsub. eapply Forall_impl; [|apply (IH seen')].
    intros p [a0 [hr [Hin [Hh [Hne [Hns ->]]]]]]. exists a0, hr.
    repeat split; try assumption; [now right | intros Hx; apply Hns, Hsub, Hx]. }
  destruct (Dom.href a) as [[|c hr]|] eqn:Hh; try (apply Hweak; auto).
  destruct (existsb (String.eqb (String c hr)) seen) eqn:Hseen; [apply Hweak; auto|].
  constructor.
  - exists a, (String c hr). repeat split; try (now left); try assumption; try discriminate.
    intros Hin. assert (existsb (String.eqb (String c hr)) seen = true); [|congruence].
    apply existsb_exists. exists (String c hr). split; [assumption | apply String.eqb_refl].
  - apply Hweak. intros x Hx. now right.
Qed.

Lemma extractFrom_urls (seen : list string) (anchors : list Dom.Anchor) :
  NoDup (map url (Dom.extractFrom seen anchors)).
Proof.
  revert seen. induction anchors as [|a rest IH]; intros seen; cbn [Dom.extractFrom];
    [constructor|].
  destruct (Dom.href a) as [[|c hr]|]; try apply IH.
  destruct (existsb (String.eqb (String c hr)) seen); [apply IH|].
  cbn [map]. constructor; [|apply IH].
  intros Hin. apply in_map_iff in Hin. destruct Hin as [p [Hurl Hp]].
  pose proof (extractFrom_pins (String c hr :: seen) rest) as Hall.
  rewrite Forall_forall in Hall. destruct (Hall p Hp) as [a0 [hr0 [_ [_ [_ [Hns ->]]]]]].
  cbn [Dom.pinOf url] in Hurl. apply append_inj_l in Hurl. apply Hns. now left.
Qed.

Lemma extractFrom_length (seen : list string) (anchors : list Dom.Anchor) :
  (List.length (Dom.extractFrom seen anchors) <= List.length anchors)%nat.
Proof.
  revert seen. induction anchors as [|a rest IH]; intros seen; cbn [Dom.extractFrom List.length];
    [lia|].
  destruct (Dom.href a) as [[|c hr]|]; try (specialize (IH seen); lia).
  destruct (existsb _ seen); [specialize (IH seen) | specialize (IH (String c hr :: seen))];
    cbn [List.length]; lia.
Qed.

Lemma star_greedy {A} (class : ascii -> bool) (run tail : string)
    (k : string -> string -> option A) (x : A) :
  allChars class run = true ->
  match tail with String c _ => class c = false | EmptyString => True end ->
  k run tail = Some x ->
  Dom.star class (run ++ tail) k = Some x.
Proof.
  revert k. induction run as [|c run IH]; intros k Hrun Htail Hk.
  - cbn [append]. destruct tail as [|c r]; cbn [Dom.star]; [exact Hk|]. now rewrite Htail.
  - cbn [allChars] in Hrun. apply andb_prop in Hrun. destruct Hrun as [Hc Hrun].
    cbn [append Dom.star]. rewrite Hc.
    now rewrite (IH (fun run0 rest => k (String c run0) rest) Hrun Htail Hk).
Qed.

Lemma isWhite_not_count (c : ascii) : Str.isWhite c = true -> Dom.countChar c = false.
Proof.
  destruct c as [[|] [|] [|] [|] [|] [|] [|] [|]]; cbn; intros H;
    try discriminate H; reflexivity.
Qed.

Lemma allWhite_allChars (s : string) : allWhite s = allChars Str.isWhite s.
Proof. induction s as [|c r IH]; [reflexivity|]. cbn. now rewrite IH. Qed.

Lemma plus_cons {A} (class : ascii -> bool) (c : ascii) (r : string)
    (k : string -> string -> option A) :
  Dom.plus class (String c r) k
  = if class c then Dom.star class r (fun run rest => k (String c run) rest) else None.
Proof. reflexivity. Qed.

Lemma literal_save (rest : string) : Dom.literal "save" ("save" ++ rest) = Some rest.
Proof. reflexivity. Qed.

(** A count, white space and the word: the count is what is matched. *)
Lemma savesAt_label (g ws rest : string) :
  g <> EmptyString -> allChars Dom.countChar g = true -> allWhite ws = true ->
  Dom.savesAt (g ++ ws ++ "save" ++ rest) = Some g.
Proof.
  intros Hne Hg Hws. destruct g as [|c g]; [contradiction|].
  cbn [allChars] in Hg. apply andb_prop in Hg. destruct Hg as [Hc Hg].
  unfold Dom.savesAt.
  change (String c g ++ ws ++ "save" ++ rest)%string
    with (String c (g ++ ws ++ "save" ++ rest)).
  rewrite plus_cons, Hc.
  apply star_greedy; [exact Hg | |].
  - destruct ws as [|w ws']; [reflexivity|].
    change (String w ws' ++ "save" ++ rest)%string with (String w (ws' ++ "save" ++ rest)).
    cbn [allWhite] in Hws. apply andb_prop in Hws. destruct Hws as [Hw _].
    exact (isWhite_not_count w Hw).
  - apply star_greedy; [now rewrite <- allWhite_allChars | reflexivity |].
    cbv beta. rewrite literal_save.
    unfold Dom.optional. destruct rest as [|r rest']; [reflexivity|].
    now destruct (Dom.letter "s" r).
Qed.

Lemma savesMatch_label (g ws rest : string) :
  g <> EmptyString -> allChars Dom.countChar g = true -> allWhite ws = true ->
  Dom.savesMatch (g ++ ws ++ "save" ++ rest) = Some g.
Proof.
  intros Hne Hg Hws. pose proof (savesAt_label g ws rest Hne Hg Hws) as H.
  destruct g as [|c g]; [contradiction|]. cbn [append] in *.
  cbn [Dom.savesMatch]. now rewrite H.
Qed.

Lemma uint_digits (d : uint) : allChars Str.isDigit (NilEmpty.string_of_uint d) = true.
Proof. induction d; cbn [NilEmpty.string_of_uint allChars]; auto. Qed.

Lemma removeSeparators_id (s : string) :
  allChars Str.isDigit s = true -> Dom.removeSeparators s = s.
Proof.
  induction s as [|c r IH]; [reflexivity|]. cbn [allChars Dom.removeSeparators].
  intros H. apply andb_prop in H. destruct H as [Hc Hr]. rewrite (IH Hr).
  destruct c as [[|] [|] [|] [|] [|] [|] [|] [|]]; try reflexivity; discriminate Hc.
Qed.

Lemma digits_count (s : string) :
  allChars Str.isDigit s = true -> allChars Dom.countChar s = true.
Proof.
  induction s as [|c r IH]; [reflexivity|]. cbn [allChars]. intros H.
  apply andb_prop in H. destruct H as [Hc Hr]. rewrite (IH Hr), andb_true_r.
  unfold Dom.countChar. now rewrite Hc.
Qed.

Lemma ofInteger_digits (n : Z) :
  0 <= n -> Str.ofInteger n <> EmptyString /\ allChars Str.isDigit (Str.ofInteger n) = true.
Proof.
  intros Hn. unfold Str.ofInteger. destruct n as [|p|p]; [split; [discriminate|reflexivity]| |lia].
  cbn [Z.to_int NilZero.string_of_int]. unfold NilZero.string_of_uint.
  pose proof (Unsigned.to_uint_nonnil p) as Hp. pose proof (uint_digits (Pos.to_uint p)) as Hd.
  destruct (Pos.to_uint p); [contradiction | ..]; (split; [discriminate | exact Hd]).
Qed.

(** X15.  A label made of a count [n] written in decimal, white space
    and the word "save" (any text may follow, the plural "s" for one) is
    read back as [n]. *)
Theorem saves_label_read_back (n : Z) (ws rest : string) :
  0 <= n < 2 ^ 53 -> allWhite ws = true ->
  Dom.parseSaves (Str.ofInteger n ++ ws ++ "save" ++ rest) = Num.ofZ n.
Proof.
  intros Hn Hws. destruct (ofInteger_digits n ltac:(lia)) as [Hne Hd].
  unfold Dom.parseSaves.
  rewrite (savesMatch_label _ ws rest Hne (digits_count _ Hd) Hws).
  rewrite (removeSeparators_id _ Hd), parseInt10_ofInteger.
  destruct (Z.eq_dec n 0) as [->|Hn0]; [reflexivity|].
  destruct (ofZ_pos n ltac:(lia)) as [m [k [-> _]]]. reflexivity.
Qed.

(** ** Identifiers *)

Lemma removeFirst_prefix (x : string) : Dom.removeFirst "/pin/" ("/pin/" ++ x) = x.
Proof. destruct x; reflexivity. Qed.

Lemma dropFinalSlash_slash (s : string) : Dom.dropFinalSlash (s ++ "/") = s.
Proof.
  induction s as [|c r IH]; [reflexivity|]. cbn [append Dom.dropFinalSlash].
  rewrite IH. destruct r; reflexivity.
Qed.

Lemma dropFinalSlash_other (s : string) :
  lastChar s <> Some "/"%char -> Dom.dropFinalSlash s = s.
Proof.
  induction s as [|c r IH]; [reflexivity|]. cbn [lastChar Dom.dropFinalSlash].
  destruct r as [|c' r'].
  - intros H. destruct (Ascii.eqb_spec c "/"); [congruence | reflexivity].
  - intros H. now rewrite (IH H).
Qed.

Lemma append_slash_neq (s : string) : (s ++ "/")%string <> s.
Proof. induction s as [|c r IH]; [discriminate|]. cbn. intros [= H]. now apply IH. Qed.

(** X14.  Whatever the text of the saves element, the save count read
    off it is the Number value of a natural number (Infinity for a count
    too long to be held): never NaN, never negative, never a fraction; and
    it is 0 when the text has no match. *)
Theorem saves_is_a_count (t : string) :
  (exists k : nat, Dom.parseSaves t = Num.ofNat k)
  /\ Dom.parseSaves t <> Num.NaN
  /\ Num.ltb (Dom.parseSaves t) (Num.ofZ 0) = false
  /\ (Dom.savesMatch t = None -> Dom.parseSaves t = Num.ofZ 0).
Proof.
  destruct (parseSaves_ofNat t) as [k Hk].
  split; [now exists k|]. rewrite Hk.
  pose proof (ofNat_not_negative k) as Hneg.
  split; [|split; [exact Hneg|]].
  - intros Hnan. pose proof (ofNat_nonNegative k) as Hpos.
    rewrite Hnan in Hpos. discriminate Hpos.
  - intros Hnone. rewrite <- Hk. unfold Dom.parseSaves. now rewrite Hnone.
Qed.

Lemma saves_label_read_back_witness :
  Dom.parseSaves "1234 saves" = Num.ofZ 1234.
Proof.
  apply (saves_label_read_back 1234 " " "s"); [split; [lia | reflexivity] | reflexivity].
Defined.

Lemma extractFrom_complete (seen : list string) (anchors : list Dom.Anchor)
    (a : Dom.Anchor) (hr : string) :
  In a anchors -> Dom.href a = Some hr -> hr <> EmptyString -> ~ In hr seen ->
  In (Dom.origin ++ hr)%string (map url (Dom.extractFrom seen anchors)).
Proof.
  revert seen. induction anchors as [|a0 rest IH]; intros seen Hin Hh Hne Hns; [contradiction|].
  cbn [Dom.extractFrom]. destruct Hin as [->|Hin].
  - rewrite Hh. destruct hr as [|c hr]; [contradiction|].
    destruct (existsb (String.eqb (String c hr)) seen) eqn:E.
    + exfalso. apply existsb_exists in E. destruct E as [x [Hx Heq]].
      apply String.eqb_eq in Heq. subst x. contradiction.
    + now left.
  - destruct (Dom.href a0) as [[|c0 hr0]|] eqn:H0; try (now apply IH).
    destruct (existsb (String.eqb (String c0 hr0)) seen); [now apply IH|].
    cbn [map]. destruct (string_dec (String c0 hr0) hr) as [<-|Hd]; [now left|].
    right. apply IH; try assumption. intros [Hx|Hx]; contradiction.
Qed.

(** X16.  What the extraction closure returns.  Every record comes from
    an anchor with a non-empty [href]: its URL is the Pinterest origin
    followed by that [href], its save count is a natural number, and its
    title has no white space at either end.  No two records have the same
    URL; there are at most as many records as anchors; and every anchor
    with a non-empty [href] has its URL among the records. *)
Theorem extract_records (anchors : list Dom.Anchor) :
  Forall (fun p => exists a hr,
            In a anchors /\ Dom.href a = Some hr /\ hr <> EmptyString
            /\ p = Dom.pinOf hr a
            /\ url p = ("https://www.pinterest.com" ++ hr)%string
            /\ (exists k : nat, saves p = Num.ofNat k)
            /\ notWhite (firstChar (title p)) /\ notWhite (lastChar (title p)))
         (Dom.extract anchors)
  /\ NoDup (map url (Dom.extract anchors))
  /\ (List.length (Dom.extract anchors) <= List.length anchors)%nat
  /\ (forall a hr, In a anchors -> Dom.href a = Some hr -> hr <> EmptyString ->
        In ("https://www.pinterest.com" ++ hr)%string (map url (Dom.extract anchors))).
Proof.
  unfold Dom.extract. split; [|split; [apply extractFrom_urls|split; [apply extractFrom_length|]]].
  - eapply Forall_impl; [|apply extractFrom_pins].
    intros p [a [hr [Hin [Hh [Hne [_ ->]]]]]]. exists a, hr.
    split; [exact Hin|]. split; [exact Hh|]. split; [exact Hne|]. split; [reflexivity|].
    split; [reflexivity|]. split; [apply pinOf_saves|].
    cbn [Dom.pinOf title].
    destruct (trim_spec (orString (Dom.titleAttr a) (orString (Dom.imgAlt a) "")))
      as [l [r [_ [_ [_ [Hf Hl]]]]]].
    now split.
  - intros a hr Hin Hh Hne. apply (extractFrom_complete [] anchors a hr); auto.
Qed.

(** X17.  The identifier of a record is its [href] without the leading
    [/pin/] and without one final slash: [/pin/ID/] gives [ID], and
    [/pin/ID] gives [ID] too unless [ID] itself ends with a slash. *)
Theorem pinId_of_href (id : string) (a : Dom.Anchor) :
  pinId (Dom.pinOf ("/pin/" ++ id ++ "/") a) = id
  /\ pinId (Dom.pinOf ("/pin/" ++ id) a) = Dom.dropFinalSlash id
  /\ (if match lastChar id with Some c => Ascii.eqb c "/" | None => false end
      then True else Dom.dropFinalSlash id = id).
Proof.
  cbn [Dom.pinOf pinId]. rewrite !removeFirst_prefix, dropFinalSlash_slash.
  split; [reflexivity|]. split; [reflexivity|].
  destruct (lastChar id) as [c|] eqn:E.
  - destruct (Ascii.eqb_spec c "/") as [->|Hne]; [exact I|].
    apply dropFinalSlash_other. rewrite E. congruence.
  - apply dropFinalSlash_other. rewrite E. discriminate.
Qed.

(** X18.  The closure removes repeated [href]s, not repeated
    identifiers: two anchors whose [href]s differ only by the final slash
    give two records with the same identifier, and it is the
    de-duplication of line 128 that keeps the first of them only. *)
Theorem trailing_slash_duplicates (id : string) (a b : Dom.Anchor) :
  Dom.href a = Some ("/pin/" ++ id)%string ->
  Dom.href b = Some ("/pin/" ++ id ++ "/")%string ->
  lastChar id <> Some "/"%char ->
  map pinId (Dom.extract [a; b]) = [id; id]
  /\ uniquePins (Dom.extract [a; b]) = [Dom.pinOf ("/pin/" ++ id) a].
Proof.
  intros Ha Hb Hl.
  assert (Hne : String.eqb ("/pin/" ++ id ++ "/") ("/pin/" ++ id) = false).
  { apply String.eqb_neq. intros H. apply append_inj_l in H. now apply append_slash_neq in H. }
  assert (Hex : Dom.extract [a; b]
                = [Dom.pinOf ("/pin/" ++ id) a; Dom.pinOf ("/pin/" ++ id ++ "/") b]).
  { unfold Dom.extract. cbn [Dom.extractFrom]. rewrite Ha, Hb.
    change ("/pin/" ++ id)%string with (String "/" ("pin/" ++ id)) at 1.
    change ("/pin/" ++ id ++ "/")%string with (String "/" ("pin/" ++ id ++ "/")) at 1.
    cbn [existsb].
    change (String "/" ("pin/" ++ id ++ "/")) with ("/pin/" ++ id ++ "/")%string.
    change (String "/" ("pin/" ++ id)) with ("/pin/" ++ id)%string.
    rewrite Hne. reflexivity. }
  rewrite Hex.
  assert (H1 : pinId (Dom.pinOf ("/pin/" ++ id ++ "/") b) = id).
  { cbn [Dom.pinOf pinId]. now rewrite removeFirst_prefix, dropFinalSlash_slash. }
  assert (H2 : pinId (Dom.pinOf ("/pin/" ++ id) a) = Dom.dropFinalSlash id).
  { cbn [Dom.pinOf pinId]. now rewrite removeFirst_prefix. }
  assert (Hid : Dom.dropFinalSlash id = id) by now apply dropFinalSlash_other.
  split.
  - cbn [map]. now rewrite H1, H2, Hid.
  - rewrite uniquePins_keepFirst. cbn [keepFirst existsb]. rewrite H1, H2, Hid.
    cbn [existsb]. now rewrite String.eqb_refl.
Qed.

Lemma trailing_slash_duplicates_witness :
  map pinId (Dom.extract [Dom.mkAnchor (Some "/pin/42"%string) None None None None;
                          Dom.mkAnchor (Some "/pin/42/"%string) None None None None])
  = ["42"; "42"]%string
  /\ uniquePins (Dom.extract [Dom.mkAnchor (Some "/pin/42"%string) None None None None;
                              Dom.mkAnchor (Some "/pin/42/"%string) None None None None])
     = [Dom.pinOf "/pin/42" (Dom.mkAnchor (Some "/pin/42"%string) None None None None)].
Proof.
  apply (trailing_slash_duplicates "42"
           (Dom.mkAnchor (Some "/pin/42"%string) None None None None)
           (Dom.mkAnchor (Some "/pin/42/"%string) None None None None));
    [reflexivity | reflexivity | discriminate].
Defined.

Lemma extract_not_negative (anchors : list Dom.Anchor) :
  Forall (fun p => Num.ltb (saves p) (Num.ofZ 0) = false) (Dom.extract anchors).
Proof.
  eapply Forall_impl; [|apply (extractFrom_pins [] anchors)].
  intros p [a [hr [_ [_ [_ [_ ->]]]]]].
  destruct (pinOf_saves hr a) as [k ->]. apply ofNat_not_negative.
Qed.

(** X19.  On pages read by the extraction closure, whatever the document
    holds, every result a fetch returns has an integer score between 0 and
    100 and is flagged low competition exactly when that integer is at most
    35. *)
Theorem fresh_result_score (h : Host) (dom : nat -> list Dom.Anchor) (fuel : nat)
    (q : string) (scrolls : Num.number) (login : bool) (w w' : World)
    (out : option SearchResult) :
  fetch (pageHost h dom) fuel q scrolls login w = (Returned out, w') ->
  exists result z,
    out = Some result
    /\ 0 <= z <= 100
    /\ keywordDifficulty result = Num.ofZ z
    /\ lowCompetition result = (z <=? 35).
Proof.
  intros Hrun. destruct (fetch_returned_extracted _ _ _ _ _ _ _ _ Hrun) as [n ->].
  cbn [pageHost extracted].
  destruct (assemble_invariants q (Dom.extract (dom n)))
    as [_ [_ [_ [_ [_ [_ [_ H]]]]]]].
  destruct (H (extract_not_negative (dom n))) as [z [Hz [Hkd Hlow]]].
  exists (assemble q (Dom.extract (dom n))), z.
  split; [reflexivity|]. split; [exact Hz|]. split; [exact Hkd|].
  destruct (Z.leb_spec z 35) as [Hle|Hgt].
  - now apply Hlow.
  - apply not_true_is_false. intros E. apply Hlow in E. lia.
Qed.

Lemma fresh_result_score_witness :
  exists result z,
    fst (fetch (pageHost (quietHost []) (fun _ => twoAnchors)) 10 "mugs" (Num.ofZ 2) false
           freshWorld) = Returned (Some result)
    /\ 0 <= z <= 100
    /\ keywordDifficulty result = Num.ofZ z
    /\ lowCompetition result = (z <=? 35).
Proof.
  destruct (fetch (pageHost (quietHost []) (fun _ => twoAnchors)) 10 "mugs" (Num.ofZ 2) false
              freshWorld) as [r w'] eqn:Hrun.
  assert (Hr : exists out, r = Returned out).
  { vm_compute in Hrun. injection Hrun as <- _. eexists. reflexivity. }
  destruct Hr as [out ->].
  destruct (fresh_result_score (quietHost []) (fun _ => twoAnchors) 10 "mugs" (Num.ofZ 2)
              false freshWorld w' out Hrun) as [result [z [-> H]]].
  exists result, z. split; [reflexivity | exact H].
Defined.

(** X20.  A page without a usable anchor (none at all, or none with a
    non-empty [href]) gives no record, and the result assembled from it
    has no pin, score 0, and is flagged low competition. *)
Theorem empty_page_result (q : string) (anchors : list Dom.Anchor) :
  Forall (fun a => Dom.href a = None \/ Dom.href a = Some EmptyString) anchors ->
  Dom.extract anchors = []
  /\ assemble q (Dom.extract anchors)
     = {| query := q; loadedPins := 0; keywordDifficulty := Num.ofZ 0;
          lowCompetition := true; sample := [] |}.
Proof.
  intros Hall.
  assert (H : Dom.extract anchors = []).
  { unfold Dom.extract. generalize (@nil string).
    induction Hall as [|a rest [Ha|Ha] _ IH]; intros seen; cbn [Dom.extractFrom];
      [reflexivity | rewrite Ha; apply IH | rewrite Ha; apply IH]. }
  split; [exact H|]. rewrite H. reflexivity.
Qed.

Lemma empty_page_result_witness :
  Dom.extract [Dom.mkAnchor None None None None None] = []
  /\ assemble "mugs" (Dom.extract [Dom.mkAnchor None None None None None])
     = {| query := "mugs"; loadedPins := 0; keywordDifficulty := Num.ofZ 0;
          lowCompetition := true; sample := [] |}.
Proof.
  apply (empty_page_result "mugs" [Dom.mkAnchor None None None None None]).
  repeat constructor.
Defined.

(** ** The API key gate *)

(** X21.  The API key gate.  With no key configured (unset or empty) the
    gate lets every request through.  With a key configured it lets a
    request through exactly when its [x-api-key] header is that key; any
    other request to [/api/pinterest] is answered 401 "Unauthorized"
    before the rate limiter and the handler are reached: no browser call
    is made and the cache is not touched. *)
Theorem api_key_gate (h : Host) (env_API_KEY x_api_key : option string)
    (limited : bool) (fuel : nat) (req : Request) (w : World) :
  match orString env_API_KEY "" with
  | EmptyString => apiKeyGate env_API_KEY x_api_key = Next
  | API_KEY =>
      (apiKeyGate env_API_KEY x_api_key = Next <-> x_api_key = Some API_KEY)
      /\ (x_api_key <> Some API_KEY ->
          apiPinterest h env_API_KEY limited fuel x_api_key req w
          = (Some (Status401 "Unauthorized"), w))
  end.
Proof.
  unfold apiPinterest, apiKeyGate.
  destruct (orString env_API_KEY "") as [|c k] eqn:E; [reflexivity|].
  destruct x_api_key as [x|].
  - destruct (String.eqb_spec x (String c k)) as [->|Hne].
    + split; [tauto | congruence].
    + split; [|reflexivity]. split; [discriminate | congruence].
  - split; [|reflexivity]. split; discriminate.
Qed.

